(** * flex-rate-limit: the limiting engine, its stores and its four algorithms

    A shallow embedding of [lib/rate-limiter.js], [lib/stores/memory-store.js],
    [lib/stores/redis-store.js] and [lib/algorithms/*.js].

    Conventions of the embedding.
    - A JavaScript number is a rational ([Q]): rounding and the infinities are
      not represented.  Rocq's [x / 0] is [0] where JavaScript gives an
      infinity, so a zero divisor is outside the model.  [NaN] is represented
      only where the code can produce it from a missing field ([num]).
    - [async] functions are state transformers that either return or throw:
      [M S A := S -> result A * S].  The state survives a throw.
    - [Date.now()] is an argument of the function that calls it; [check]
      takes the reading made inside the algorithm and its own, later one.
    - A JavaScript [Map] keyed by strings is a [gmap string _]. *)

From Stdlib Require Import QArith Qround Qminmax Lqa Lia Sorted.
From stdpp Require Import base option list gmap strings pretty.

Local Open Scope Q_scope.

(** ** Numbers, exceptions, and the monad of asynchronous calls *)

(** The result of arithmetic that may have met [undefined]. *)
Inductive num : Type :=
| NaN
| Num (q : Q).

Module JS.

(** [x < y] on numbers, as a boolean. *)
Definition ltb (x y : Q) : bool := negb (Qle_bool y x).

(** Truthiness of an optional number: [undefined] and [0] are falsy. *)
Definition truthy (o : option Q) : bool :=
  match o with
  | Some q => negb (Qeq_bool q 0)
  | None => false
  end.

(** Reading a field that may be [undefined] in an arithmetic position. *)
Definition toNum (o : option Q) : num :=
  match o with
  | Some q => Num q
  | None => NaN
  end.

Definition lift2 (f : Q -> Q -> Q) (a b : num) : num :=
  match a, b with
  | Num x, Num y => Num (f x y)
  | _, _ => NaN
  end.

Definition add : num -> num -> num := lift2 Qplus.
Definition sub : num -> num -> num := lift2 Qminus.
Definition mul : num -> num -> num := lift2 Qmult.
Definition div : num -> num -> num := lift2 Qdiv.
(** [Math.min] and [Math.max] return [NaN] as soon as one argument is. *)
Definition min : num -> num -> num := lift2 Qmin.
Definition max : num -> num -> num := lift2 Qmax.


(** The length of an array, as a number. *)
Definition length {A : Type} (l : list A) : Q := inject_Z (Z.of_nat (List.length l)).

End JS.

(** A thrown [Error] object and its [message]. *)
Inductive exn : Type :=
| Error (message : string).

Definition message (e : exn) : string :=
  match e with Error m => m end.

Inductive result (A : Type) : Type :=
| Ok (a : A)
| Throw (e : exn).
Arguments Ok {A} a.
Arguments Throw {A} e.

Definition M (S A : Type) : Type := S -> result A * S.

Definition throw {S A : Type} (e : exn) : M S A := fun s => (Throw e, s).

(** [await c] followed by [k]: a throw of [c] skips [k]. *)
#[global] Instance M_ret {S : Type} : MRet (M S) :=
  fun A a s => (Ok a, s).

#[global] Instance M_bind {S : Type} : MBind (M S) :=
  fun A B k c s =>
    match c s with
    | (Ok a, s') => k a s'
    | (Throw e, s') => (Throw e, s')
    end.

(** ** Records kept by a store

    A stored value is a JavaScript object; these are the fields the code
    reads and writes.  [None] is an absent ([undefined]) field. *)
Module Data.

Record t : Type := mk {
  count : option Q;
  requests : option (list Q);
  tokens : option Q;
  lastRefill : option Q;
  water : option Q;
  lastLeak : option Q;
}.

(** [{ count: c }] *)
Definition ofCount (c : Q) : t := mk (Some c) None None None None None.
(** [{ requests: l }] *)
Definition ofRequests (l : list Q) : t := mk None (Some l) None None None None.
(** [{ tokens, lastRefill }] *)
Definition ofTokens (tk lr : Q) : t := mk None None (Some tk) (Some lr) None None.
(** [{ water, lastLeak }] *)
Definition ofWater (w ll : Q) : t := mk None None None None (Some w) (Some ll).

(** [data.count = c] and [data.requests = l], in place. *)
Definition setCount (c : Q) (d : t) : t :=
  mk (Some c) (requests d) (tokens d) (lastRefill d) (water d) (lastLeak d).
Definition setRequests (l : list Q) (d : t) : t :=
  mk (count d) (Some l) (tokens d) (lastRefill d) (water d) (lastLeak d).

End Data.

(** ** The store contract used by the algorithms and the limiter *)
Module Store.

(** The [options] argument of [increment]. *)
Record IncrementOptions : Type := mkIncrementOptions {
  windowMs : option Q;
  timestamp : option Q;
}.

Class Ops (S : Type) : Type := {
  get : string -> M S (option Data.t);
  set : string -> Data.t -> option Q -> M S unit;
  increment : string -> IncrementOptions -> M S Q;
  decrement : string -> M S unit;
  reset : string -> M S unit;
  (* a store may come without it *)
  resetAll : option (M S unit);
}.

End Store.

(** ** lib/stores/memory-store.js *)
Module MemoryStore.

(** A timer made by [setTimeout(cb, delay)]; [cleared] once [clearTimeout]
    was called on it. *)
Record Timer : Type := mkTimer {
  delay : Q;
  cleared : bool;
}.

Record t : Type := mk {
  store : gmap string Data.t;
  timers : gmap string Timer;
}.

(** [constructor()] *)
Definition new : t := mk ∅ ∅.

Definition clearTimeout (tm : Timer) : Timer := mkTimer (delay tm) true.

Definition get (key : string) : M t (option Data.t) :=
  fun self => (Ok (store self !! key), self).

Definition set (key : string) (value : Data.t) (ttl : option Q) : M t unit :=
  fun self =>
    let store1 := <[key := value]> (store self) in
    (* if (this.timers.has(key)) clearTimeout(this.timers.get(key)) *)
    let timers1 := alter clearTimeout key (timers self) in
    (* if (ttl) this.timers.set(key, setTimeout(..., ttl)) *)
    let timers2 :=
      match ttl with
      | Some d => if JS.truthy ttl then <[key := mkTimer d false]> timers1 else timers1
      | None => timers1
      end in
    (Ok tt, mk store1 timers2).

(** The callback given to [setTimeout] in [set], run when the timer of
    [key] fires; a cleared timer never fires. *)
Definition timerFires (key : string) (self : t) : t :=
  match timers self !! key with
  | Some tm =>
      if cleared tm then self
      else mk (delete key (store self)) (delete key (timers self))
  | None => self
  end.

(** The body of [increment]; [set] stands for [this.set], which a subclass
    may override. *)
Definition incrementVia (set : string -> Data.t -> option Q -> M t unit)
    (key : string) (options : Store.IncrementOptions) : M t Q :=
  fun self =>
    let windowMs := Store.windowMs options in
    let timestamp := Store.timestamp options in
    (* data.count = (data.count || 0) + 1 *)
    let fixedWindow (data : Data.t) : M t Q :=
      let c := (if JS.truthy (Data.count data) then default 0 (Data.count data) else 0) + 1 in
      set key (Data.setCount c data) windowMs;; mret c in
    match store self !! key with
    | None =>
        let value :=
          match timestamp with
          | Some ts => if JS.truthy timestamp then Data.ofRequests [ts] else Data.ofCount 1
          | None => Data.ofCount 1
          end in
        (set key value windowMs;; mret 1) self
    | Some data =>
        match timestamp with
        | Some ts =>
            if JS.truthy timestamp then
              (* data.requests = data.requests || []; data.requests.push(timestamp) *)
              let requests := default [] (Data.requests data) ++ [ts] in
              (set key (Data.setRequests requests data) windowMs;;
               mret (JS.length requests)) self
            else fixedWindow data self
        | None => fixedWindow data self
        end
    end.

Definition increment : string -> Store.IncrementOptions -> M t Q := incrementVia set.

Definition decrement (key : string) : M t unit :=
  fun self =>
    match store self !! key with
    | None => (Ok tt, self)
    | Some data =>
        match Data.count data with
        | Some c =>
            let data := Data.setCount (Qmax 0 (c - 1)) data in
            (Ok tt, mk (<[key := data]> (store self)) (timers self))
        | None =>
            match Data.requests data with
            | Some ((_ :: _) as l) =>
                (* data.requests.pop() *)
                let data := Data.setRequests (removelast l) data in
                (Ok tt, mk (<[key := data]> (store self)) (timers self))
            | _ => (Ok tt, self)
            end
        end
    end.

Definition reset (key : string) : M t unit :=
  fun self => (Ok tt, mk (delete key (store self)) (delete key (timers self))).

Definition resetAll : M t unit :=
  fun _ => (Ok tt, mk ∅ ∅).

(** [size()]: the number of keys. *)
Definition size (self : t) : nat := size (store self).

#[global] Instance ops : Store.Ops t := {
  Store.get := get;
  Store.set := set;
  Store.increment := increment;
  Store.decrement := decrement;
  Store.reset := reset;
  Store.resetAll := Some resetAll;
}.

End MemoryStore.

(** A store that is down: a [MemoryStore] whose [get] and [set] are
    overridden to throw.  The inherited [increment] calls [this.set]. *)
Module FaultyStore.

Definition unavailable : exn := Error "store unavailable".

Definition get (key : string) : M MemoryStore.t (option Data.t) := throw unavailable.

Definition set (key : string) (value : Data.t) (ttl : option Q) : M MemoryStore.t unit :=
  throw unavailable.

Definition ops : Store.Ops MemoryStore.t := {|
  Store.get := get;
  Store.set := set;
  Store.increment := MemoryStore.incrementVia set;
  Store.decrement := MemoryStore.decrement;
  Store.reset := MemoryStore.reset;
  Store.resetAll := Some MemoryStore.resetAll;
|}.

End FaultyStore.

(** ** lib/algorithms *)
Module Algorithm.

(** The [options] object an algorithm receives.  The limiter always
    supplies [windowMs] and [max]; the other fields are present only when
    the caller of [check] passed them. *)
Record Options : Type := mkOptions {
  windowMs : Q;
  max : Q;
  capacity : option Q;
  refillRate : option Q;
  leakRate : option Q;
}.

(** [{ count, resetTime }] *)
Record Result : Type := mkResult {
  count : Q;
  resetTime : num;
}.

End Algorithm.

(** lib/algorithms/sliding-window.js *)
Module SlidingWindow.
Section WithStore.
Context {S : Type} {ops : Store.Ops S}.

Definition check (key : string) (options : Algorithm.Options) (now : Q)
  : M S Algorithm.Result :=
  let windowMs := Algorithm.windowMs options in
  let windowStart := now - windowMs in
  data ← Store.get key;
  (* if (!data || !data.requests): an array is truthy even when empty *)
  match data ≫= Data.requests with
  | None =>
      Store.increment key (Store.mkIncrementOptions (Some windowMs) (Some now));;
      mret (Algorithm.mkResult 1 (Num (now + windowMs)))
  | Some requests =>
      let validRequests :=
        List.filter (fun timestamp => JS.ltb windowStart timestamp) requests in
      let count := JS.length validRequests in
      let validRequests := validRequests ++ [now] in
      Store.set key (Data.ofRequests validRequests) (Some windowMs);;
      (* validRequests[0] || now *)
      let oldestRequest :=
        match validRequests with
        | first :: _ => if JS.truthy (Some first) then first else now
        | [] => now
        end in
      let resetTime := oldestRequest + windowMs in
      mret (Algorithm.mkResult (count + 1) (Num resetTime))
  end.

End WithStore.
End SlidingWindow.

(** lib/algorithms/fixed-window.js *)
Module FixedWindow.
Section WithStore.
Context {S : Type} {ops : Store.Ops S}.

(** [Math.floor(now / windowMs)] *)
Definition windowKey (now windowMs : Q) : Z := Qfloor (now / windowMs).

(** [`${key}:${windowKey}`] *)
Definition fullKey (key : string) (now windowMs : Q) : string :=
  key +:+ ":" +:+ pretty (windowKey now windowMs).

Definition check (key : string) (options : Algorithm.Options) (now : Q)
  : M S Algorithm.Result :=
  let windowMs := Algorithm.windowMs options in
  count ← Store.increment (fullKey key now windowMs)
            (Store.mkIncrementOptions (Some windowMs) None);
  let resetTime := (inject_Z (windowKey now windowMs) + 1) * windowMs in
  mret (Algorithm.mkResult count (Num resetTime)).

End WithStore.
End FixedWindow.

(** lib/algorithms/token-bucket.js *)
Module TokenBucket.
Section WithStore.
Context {S : Type} {ops : Store.Ops S}.

(** The value of [tokens] before the attempt to consume one. *)
Definition refill (data : option Data.t) (capacity refillRate windowMs now : Q) : num :=
  match data with
  | Some data =>
      let timePassed := JS.sub (Num now) (JS.toNum (Data.lastRefill data)) in
      let tokensToAdd := JS.mul (JS.div timePassed (Num windowMs)) (Num refillRate) in
      JS.min (Num capacity) (JS.add (JS.toNum (Data.tokens data)) tokensToAdd)
  | None => Num capacity
  end.

Definition check (key : string) (options : Algorithm.Options) (now : Q)
  : M S Algorithm.Result :=
  let capacity := default 10 (Algorithm.capacity options) in
  let refillRate := default 1 (Algorithm.refillRate options) in
  let windowMs := Algorithm.windowMs options in
  data ← Store.get key;
  match refill data capacity refillRate windowMs now with
  | Num tokens =>
      if Qle_bool 1 tokens then
        let tokens := tokens - 1 in
        Store.set key (Data.ofTokens tokens now) (Some (windowMs * capacity));;
        mret (Algorithm.mkResult (capacity - tokens)
                (Num (now + (1 / refillRate) * windowMs)))
      else
        let timeToNextToken := ((1 - tokens) / refillRate) * windowMs in
        mret (Algorithm.mkResult (capacity + 1) (Num (now + timeToNextToken)))
  | NaN =>
      (* NaN >= 1 is false, and the time to the next token is NaN *)
      mret (Algorithm.mkResult (capacity + 1) NaN)
  end.

End WithStore.
End TokenBucket.

(** lib/algorithms/leaky-bucket.js *)
Module LeakyBucket.
Section WithStore.
Context {S : Type} {ops : Store.Ops S}.

(** The value of [water] before the attempt to add one unit. *)
Definition leak (data : option Data.t) (leakRate windowMs now : Q) : num :=
  match data with
  | Some data =>
      let timePassed := JS.sub (Num now) (JS.toNum (Data.lastLeak data)) in
      let waterLeaked := JS.mul (JS.div timePassed (Num windowMs)) (Num leakRate) in
      JS.max (Num 0) (JS.sub (JS.toNum (Data.water data)) waterLeaked)
  | None => Num 0
  end.

Definition check (key : string) (options : Algorithm.Options) (now : Q)
  : M S Algorithm.Result :=
  let capacity := default 10 (Algorithm.capacity options) in
  let leakRate := default 1 (Algorithm.leakRate options) in
  let windowMs := Algorithm.windowMs options in
  data ← Store.get key;
  match leak data leakRate windowMs now with
  | Num water =>
      if JS.ltb water capacity then
        let water := water + 1 in
        Store.set key (Data.ofWater water now) (Some (windowMs * capacity));;
        mret (Algorithm.mkResult water (Num (now + (water / leakRate) * windowMs)))
      else
        let timeToLeak := ((water - capacity + 1) / leakRate) * windowMs in
        mret (Algorithm.mkResult (capacity + 1) (Num (now + timeToLeak)))
  | NaN =>
      (* NaN < capacity is false, and the time to leak is NaN *)
      mret (Algorithm.mkResult (capacity + 1) NaN)
  end.

End WithStore.
End LeakyBucket.

(** lib/algorithms/index.js *)
Inductive AlgorithmName : Type :=
| SlidingWindowAlgorithm
| FixedWindowAlgorithm
| TokenBucketAlgorithm
| LeakyBucketAlgorithm.

Module Algorithms.

(** [algorithms[name]], [None] for a name that is not an entry. *)
Definition lookup (name : string) : option AlgorithmName :=
  if String.eqb name "sliding-window" then Some SlidingWindowAlgorithm
  else if String.eqb name "fixed-window" then Some FixedWindowAlgorithm
  else if String.eqb name "token-bucket" then Some TokenBucketAlgorithm
  else if String.eqb name "leaky-bucket" then Some LeakyBucketAlgorithm
  else None.

Definition check {S : Type} {ops : Store.Ops S} (algo : AlgorithmName)
  : string -> Algorithm.Options -> Q -> M S Algorithm.Result :=
  match algo with
  | SlidingWindowAlgorithm => SlidingWindow.check
  | FixedWindowAlgorithm => FixedWindow.check
  | TokenBucketAlgorithm => TokenBucket.check
  | LeakyBucketAlgorithm => LeakyBucket.check
  end.

End Algorithms.

(** ** The Redis commands that [RedisStore] issues

    The external service, reduced to the commands of [increment],
    [decrement] and [reset].  A string value is represented by the integer
    it spells (what INCR and DECR read and write); a sorted-set member
    [`${timestamp}-${Math.random()}`] is the pair of its two numbers. *)
Module Redis.

Definition Member : Type := (Q * Q)%type.

Inductive Value : Type :=
| Int (n : Z)
| ZSet (members : list (Q * Member)).

Record Entry : Type := mkEntry {
  value : Value;
  expiry : option Z;
}.

Definition wrongType : exn :=
  Error "WRONGTYPE Operation against a key holding the wrong kind of value".

Inductive TypeName : Type := none | string_ | zset.

Definition type (key : string) : M (gmap string Entry) TypeName :=
  fun db =>
    match db !! key with
    | None => (Ok none, db)
    | Some e => (Ok (match value e with Int _ => string_ | ZSet _ => zset end), db)
    end.

Definition get (key : string) : M (gmap string Entry) (option Z) :=
  fun db =>
    match db !! key with
    | None => (Ok None, db)
    | Some e =>
        match value e with
        | Int n => (Ok (Some n), db)
        | ZSet _ => (Throw wrongType, db)
        end
    end.

(** INCRBY with a fixed step: INCR is [step 1], DECR is [step (-1)]. *)
Definition step (d : Z) (key : string) : M (gmap string Entry) Z :=
  fun db =>
    match db !! key with
    | None => (Ok d, <[key := mkEntry (Int d) None]> db)
    | Some e =>
        match value e with
        | Int n => (Ok (n + d)%Z, <[key := mkEntry (Int (n + d)) (expiry e)]> db)
        | ZSet _ => (Throw wrongType, db)
        end
    end.

Definition incr : string -> M (gmap string Entry) Z := step 1.
Definition decr : string -> M (gmap string Entry) Z := step (-1).

Definition expire (key : string) (seconds : Z) : M (gmap string Entry) unit :=
  fun db =>
    match db !! key with
    | None => (Ok tt, db)
    | Some e => (Ok tt, <[key := mkEntry (value e) (Some seconds)]> db)
    end.

Definition del (key : string) : M (gmap string Entry) unit :=
  fun db => (Ok tt, delete key db).

(** Writes a sorted set back; Redis removes a set that became empty. *)
Definition putZSet (key : string) (members : list (Q * Member)) (exp : option Z)
    (db : gmap string Entry) : gmap string Entry :=
  match members with
  | [] => delete key db
  | _ => <[key := mkEntry (ZSet members) exp]> db
  end.

(** ZREMRANGEBYSCORE key -inf max *)
Definition zremrangebyscore (key : string) (max : Q) : M (gmap string Entry) unit :=
  fun db =>
    match db !! key with
    | None => (Ok tt, db)
    | Some e =>
        match value e with
        | ZSet members =>
            (Ok tt, putZSet key (List.filter (fun m => JS.ltb max (fst m)) members)
                      (expiry e) db)
        | Int _ => (Throw wrongType, db)
        end
    end.

Definition sameMember (a b : Member) : bool :=
  Qeq_bool (fst a) (fst b) && Qeq_bool (snd a) (snd b).

(** ZADD key score member: a member already present only changes score. *)
Definition zadd (key : string) (score : Q) (member : Member) : M (gmap string Entry) unit :=
  fun db =>
    match db !! key with
    | None => (Ok tt, <[key := mkEntry (ZSet [(score, member)]) None]> db)
    | Some e =>
        match value e with
        | ZSet members =>
            let others := List.filter (fun m => negb (sameMember (snd m) member)) members in
            (Ok tt, <[key := mkEntry (ZSet (others ++ [(score, member)])) (expiry e)]> db)
        | Int _ => (Throw wrongType, db)
        end
    end.

Definition zcard (key : string) : M (gmap string Entry) Q :=
  fun db =>
    match db !! key with
    | None => (Ok 0, db)
    | Some e =>
        match value e with
        | ZSet members => (Ok (JS.length members), db)
        | Int _ => (Throw wrongType, db)
        end
    end.

(** Is [a] ranked at or above [b]: by score, then by member. *)
Definition above (a b : Q * Member) : bool :=
  JS.ltb (fst b) (fst a)
  || (Qeq_bool (fst a) (fst b)
      && (JS.ltb (fst (snd b)) (fst (snd a))
          || (Qeq_bool (fst (snd a)) (fst (snd b))
              && Qle_bool (snd (snd b)) (snd (snd a))))).

Definition isTop (members : list (Q * Member)) (a : Q * Member) : bool :=
  forallb (above a) members.

(** ZPOPMAX key: removes the member ranked highest. *)
Definition zpopmax (key : string) : M (gmap string Entry) unit :=
  fun db =>
    match db !! key with
    | None => (Ok tt, db)
    | Some e =>
        match value e with
        | ZSet members =>
            (Ok tt, putZSet key (List.filter (fun m => negb (isTop members m)) members)
                      (expiry e) db)
        | Int _ => (Throw wrongType, db)
        end
    end.

End Redis.

(** ** lib/stores/redis-store.js: [increment], [decrement] and [reset]

    [get] and [set] go through JSON text and are not needed below. *)
Module RedisStore.

Record t : Type := mk {
  client : gmap string Redis.Entry;
  prefix : string;
  defaultExpiry : Q;
}.

(** [new RedisStore({ client })] with the default prefix and expiry. *)
Definition new (client : gmap string Redis.Entry) : t := mk client "rl:" 3600.

Definition _getKey (self : t) (key : string) : string := prefix self +:+ key.

(** [await this.client.command(...)] *)
Definition call {A : Type} (command : M (gmap string Redis.Entry) A) : M t A :=
  fun self =>
    let '(r, db) := command (client self) in
    (r, mk db (prefix self) (defaultExpiry self)).

(** [try { body } catch (error) { console.error(...) }] *)
Definition swallow (body : M t unit) : M t unit :=
  fun self =>
    match body self with
    | (Ok tt, self') => (Ok tt, self')
    | (Throw _, self') => (Ok tt, self')
    end.

(** [now] is the store's own [Date.now()], [random] its [Math.random()].
    The [catch] of the source logs and rethrows, which is [bind]. *)
Definition increment (key : string) (options : Store.IncrementOptions) (now random : Q)
  : M t Q :=
  fun self =>
    let windowMs := Store.windowMs options in
    let timestamp := Store.timestamp options in
    let fullKey := _getKey self key in
    let fixedWindow : M t Q :=
      count ← call (Redis.incr fullKey);
      (if Z.eqb count 1 && JS.truthy windowMs then
         call (Redis.expire fullKey (Qceiling (default 0 windowMs / 1000)))
       else mret tt);;
      mret (inject_Z count) in
    match timestamp, JS.truthy timestamp with
    | Some ts, true =>
        let scoreKey := fullKey +:+ ":scores" in
        match windowMs with
        | Some windowMs =>
            let windowStart := now - windowMs in
            (call (Redis.zremrangebyscore scoreKey windowStart);;
             call (Redis.zadd scoreKey ts (ts, random));;
             call (Redis.expire scoreKey (Qceiling (windowMs / 1000) + 1));;
             call (Redis.zcard scoreKey)) self
        | None =>
            (* now - undefined is NaN, which the server refuses as a score bound *)
            (Throw (Error "ERR min or max is not a float"), self)
        end
    | _, _ => fixedWindow self
    end.

Definition decrement (key : string) : M t unit :=
  swallow (
    fun self =>
      let fullKey := _getKey self key in
      (type ← call (Redis.type fullKey);
       match type with
       | Redis.zset => call (Redis.zpopmax (fullKey +:+ ":scores"))
       | _ =>
           value ← call (Redis.get fullKey);
           match value with
           | Some n => if (0 <? n)%Z then call (Redis.decr fullKey);; mret tt else mret tt
           | None => mret tt
           end
       end) self).

Definition reset (key : string) : M t unit :=
  fun self =>
    let fullKey := _getKey self key in
    (call (Redis.del fullKey);;
     call (Redis.del (fullKey +:+ ":scores"))) self.

End RedisStore.

(** ** lib/rate-limiter.js *)
Module RateLimiter.
Section WithRequests.
(** The type of the request objects handed to a [max] function. *)
Context {Req : Type}.

(** A [max] that passed validation: a number or a function of the
    request.  The [limit] and [remaining] fields of a result hold the
    same kind of value, because the fail-open result copies
    [this.options.max]. *)
Inductive MaxValue : Type :=
| MaxNumber (n : Q)
| MaxFunction (f : option Req -> result Q).

(** A JavaScript value given as an option of the constructor.  An object
    is described by the names of its function-valued properties. *)
Inductive value : Type :=
| Undefined
| Null
| Boolean (b : bool)
| Number (n : Q)
| String_ (s : string)
| Function (f : option Req -> result Q)
| Object (methods : list string).

(** The options object of the constructor; [None] is an absent property. *)
Record RawOptions : Type := mkRawOptions {
  raw_windowMs : option value;
  raw_max : option value;
  raw_algorithm : option value;
  raw_store : option value;
}.

(** [this.options] *)
Record Options : Type := mkOptions {
  windowMs : Q;
  max : MaxValue;
  algorithm : string;
  store_option : value;
}.

Definition validAlgorithms : list string :=
  ["sliding-window"; "fixed-window"; "token-bucket"; "leaky-bucket"].

Definition includes (l : list string) (s : string) : bool :=
  existsb (String.eqb s) l.

Definition _validateOptions (options : RawOptions) : result Options :=
  (* const config = { ...defaults, ...options } *)
  let c_windowMs := default (Number 60000) (raw_windowMs options) in
  let c_max := default (Number 100) (raw_max options) in
  let c_algorithm := default (String_ "sliding-window") (raw_algorithm options) in
  let c_store := default (String_ "memory") (raw_store options) in
  match c_windowMs with
  | Number w =>
      if Qle_bool w 0 then Throw (Error "windowMs 必须是正数")
      else
        let checked_max : result MaxValue :=
          match c_max with
          | Number m =>
              if Qle_bool m 0 then Throw (Error "max 必须是正数")
              else Ok (MaxNumber m)
          | Function f => Ok (MaxFunction f)
          | _ => Throw (Error "max 必须是数字或函数")
          end in
        match checked_max with
        | Throw e => Throw e
        | Ok m =>
            match c_algorithm with
            | String_ a =>
                if includes validAlgorithms a then Ok (mkOptions w m a c_store)
                else Throw (Error "algorithm 必须是以下之一：sliding-window、fixed-window、token-bucket、leaky-bucket")
            | _ => Throw (Error "algorithm 必须是以下之一：sliding-window、fixed-window、token-bucket、leaky-bucket")
            end
        end
  | _ => Throw (Error "windowMs 必须是正数")
  end.

(** What [this.store] becomes. *)
Inductive StoreInstance : Type :=
| NewMemoryStore (s : MemoryStore.t)
| NewRedisStore (url : string)
| GivenStore (methods : list string).

(** [!store] *)
Definition falsy (v : value) : bool :=
  match v with
  | Undefined | Null | Boolean false => true
  | Number n => Qeq_bool n 0
  | String_ s => String.eqb s ""
  | _ => false
  end.

Definition requiredMethods : list string := ["increment"; "get"; "reset"].

(** [ioredis] tells whether [require('ioredis')] finds the module. *)
Definition _initializeStore (ioredis : bool) (store : value) : result StoreInstance :=
  if falsy store then Ok (NewMemoryStore MemoryStore.new)
  else
    match store with
    | String_ s =>
        if String.eqb s "memory" then Ok (NewMemoryStore MemoryStore.new)
        else if String.prefix "redis://" s then
          if ioredis then Ok (NewRedisStore s)
          else Throw (Error "Cannot find module 'ioredis'")
        else Throw (Error "无效的存储配置")
    | Object methods =>
        match List.find (fun method => negb (includes methods method)) requiredMethods with
        | Some method => Throw (Error ("存储必须实现 " +:+ method +:+ " 方法"))
        | None => Ok (GivenStore methods)
        end
    | _ => Throw (Error "无效的存储配置")
    end.

Definition _initializeAlgorithm (algorithmName : string) : result AlgorithmName :=
  match Algorithms.lookup algorithmName with
  | Some algo => Ok algo
  | None => Throw (Error ("未知算法：" +:+ algorithmName))
  end.

Record t (S : Type) : Type := mk {
  options : Options;
  store : S;
  algorithm_ : AlgorithmName;
}.
Arguments mk {S} _ _ _.
Arguments options {S} _.
Arguments store {S} _.
Arguments algorithm_ {S} _.

Definition new (ioredis : bool) (options : RawOptions) : result (t StoreInstance) :=
  match _validateOptions options with
  | Throw e => Throw e
  | Ok config =>
      match _initializeStore ioredis (store_option config) with
      | Throw e => Throw e
      | Ok store =>
          match _initializeAlgorithm (algorithm config) with
          | Throw e => Throw e
          | Ok algo => Ok (mk config store algo)
          end
      end
  end.

(** The second argument of [check]: the request, and the fields that the
    spread [...options] can put over [windowMs] and [max] or add for the
    bucket algorithms. *)
Record CheckOptions : Type := mkCheckOptions {
  req : option Req;
  o_windowMs : option Q;
  o_max : option Q;
  o_capacity : option Q;
  o_refillRate : option Q;
  o_leakRate : option Q;
}.

(** [check(key)] without a second argument: [options = {}]. *)
Definition noOptions : CheckOptions := mkCheckOptions None None None None None None.

Record RateLimitResult : Type := mkResult {
  allowed : bool;
  limit : MaxValue;
  current : Q;
  remaining : MaxValue;
  resetTime : num;
  retryAfter : num;
  error : option string;
}.

Definition keyError : exn := Error "键必须是非空字符串".

Section WithStore.
Context {S : Type} {ops : Store.Ops S}.

(** [typeof max === 'function' ? await max(options.req) : max] *)
Definition resolveMax (self : t S) (ctx : CheckOptions) : result Q :=
  match max (options self) with
  | MaxFunction f => f (req ctx)
  | MaxNumber n => Ok n
  end.

(** [{ windowMs: this.options.windowMs, max, ...options }] *)
Definition algorithmOptions (self : t S) (max : Q) (ctx : CheckOptions)
  : Algorithm.Options :=
  Algorithm.mkOptions
    (default (windowMs (options self)) (o_windowMs ctx))
    (default max (o_max ctx))
    (o_capacity ctx) (o_refillRate ctx) (o_leakRate ctx).

(** The object returned by the [catch] branch of [check]. *)
Definition failOpen (self : t S) (e : exn) (now : Q) : RateLimitResult :=
  mkResult true (max (options self)) 0 (max (options self))
    (Num (now + windowMs (options self))) (Num 0) (Some (message e)).

(** [check(key, options)]; the second argument is named [ctx] here.
    [algoNow] is what [Date.now()] returns inside the algorithm, [now]
    what it returns afterwards inside [check] itself. *)
Definition check (self : t S) (key : string) (ctx : CheckOptions)
    (algoNow now : Q) : result RateLimitResult * t S :=
  if String.eqb key "" then (Throw keyError, self)
  else
    match resolveMax self ctx with
    | Throw e => (Ok (failOpen self e now), self)
    | Ok max =>
        match Algorithms.check (algorithm_ self) key
                (algorithmOptions self max ctx) algoNow (store self) with
        | (Throw e, store') =>
            (Ok (failOpen self e now), mk (options self) store' (algorithm_ self))
        | (Ok result, store') =>
            let count := Algorithm.count result in
            (Ok (mkResult
                   (Qle_bool count max)
                   (MaxNumber max)
                   count
                   (MaxNumber (Qmax 0 (max - count)))
                   (Algorithm.resetTime result)
                   (if JS.ltb max count
                    then JS.sub (Algorithm.resetTime result) (Num now)
                    else Num 0)
                   None),
             mk (options self) store' (algorithm_ self))
        end
    end.

Definition reset (self : t S) (key : string) : result unit * t S :=
  if String.eqb key "" then (Throw keyError, self)
  else
    let '(r, store') := Store.reset key (store self) in
    (r, mk (options self) store' (algorithm_ self)).

Definition resetAll (self : t S) : result unit * t S :=
  match Store.resetAll with
  | Some resetAll =>
      let '(r, store') := resetAll (store self) in
      (r, mk (options self) store' (algorithm_ self))
  | None => (Throw (Error "存储不支持 resetAll 操作"), self)
  end.

End WithStore.
End WithRequests.

Arguments MaxValue : clear implicits.
Arguments value : clear implicits.
Arguments RawOptions : clear implicits.
Arguments Options : clear implicits.
Arguments CheckOptions : clear implicits.
Arguments RateLimitResult : clear implicits.
Arguments t : clear implicits.
Arguments mk {Req S} _ _ _.
Arguments options {Req S} _.
Arguments store {Req S} _.
Arguments algorithm_ {Req S} _.

End RateLimiter.

(** ** Statements about a call of [check] *)
Module Claims.
Section WithLimiter.
Context {Req S : Type} {ops : Store.Ops S}.

(** The [try] block of [check] throws [e]: the [max] function does, or
    the algorithm does (it has no handler of its own, so this is where
    an exception of a store method ends up). *)
Definition raises (self : RateLimiter.t Req S) (key : string)
    (ctx : RateLimiter.CheckOptions Req) (algoNow : Q) (e : exn) : Prop :=
  RateLimiter.resolveMax self ctx = Throw e
  ∨ ∃ max, RateLimiter.resolveMax self ctx = Ok max
      ∧ fst (Algorithms.check (RateLimiter.algorithm_ self) key
               (RateLimiter.algorithmOptions self max ctx) algoNow
               (RateLimiter.store self)) = Throw e.


(** The record shape an algorithm writes and expects to read back. *)
Definition fits (algo : AlgorithmName) (data : Data.t) : Prop :=
  match algo with
  | TokenBucketAlgorithm => is_Some (Data.tokens data) ∧ is_Some (Data.lastRefill data)
  | LeakyBucketAlgorithm => is_Some (Data.water data) ∧ is_Some (Data.lastLeak data)
  | _ => True
  end.

(** What the store returns for [key] was written by the limiter's own
    algorithm. *)
Definition recordFits (self : RateLimiter.t Req S) (key : string) : Prop :=
  ∀ data s', Store.get key (RateLimiter.store self) = (Ok (Some data), s') →
    fits (RateLimiter.algorithm_ self) data.


(** Every record of an in-memory store was written by [algo]. *)
Definition storeFits (algo : AlgorithmName) (s : MemoryStore.t) : Prop :=
  ∀ key data, MemoryStore.store s !! key = Some data → fits algo data.

End WithLimiter.
End Claims.

(** ** Statements about the sliding window on the in-memory store *)
Module Sliding.

(** The timestamps stored for [key]; none when the key is absent or its
    record has no [requests]. *)
Definition stored (self : MemoryStore.t) (key : string) : list Q :=
  default [] (MemoryStore.store self !! key ≫= Data.requests).

(** The timestamps of [l] inside the window that ends at [now]: those
    newer than [now - windowMs]. *)
Definition retained (l : list Q) (windowMs now : Q) : list Q :=
  List.filter (fun t => JS.ltb (now - windowMs) t) l.


End Sliding.

(** ** Statements about the token bucket *)
Module Bucket.

(** What the store holds for a key of the token bucket: nothing, or a
    record with [tokens] and [lastRefill]. *)
Inductive tokenRecord : option Data.t → option (Q * Q) → Prop :=
| tokenAbsent : tokenRecord None None
| tokenPresent (data : Data.t) (tokens lastRefill : Q) :
    Data.tokens data = Some tokens →
    Data.lastRefill data = Some lastRefill →
    tokenRecord (Some data) (Some (tokens, lastRefill)).

(** The stored tokens, refilled by [(now - lastRefill) / windowMs *
    refillRate] and capped at [capacity]; a new bucket is full. *)
Definition refilled (prior : option (Q * Q)) (capacity refillRate windowMs now : Q) : Q :=
  match prior with
  | Some (tokens, lastRefill) =>
      Qmin capacity (tokens + (now - lastRefill) / windowMs * refillRate)
  | None => capacity
  end.

End Bucket.

(** ** Statements about the constructor *)
Module Construction.
Section WithRequests.
Context {Req : Type}.

(** [{ ...defaults, ...options }], for the four validated options. *)
Definition windowMs (options : RateLimiter.RawOptions Req) : RateLimiter.value Req :=
  default (RateLimiter.Number 60000) (RateLimiter.raw_windowMs options).
Definition max (options : RateLimiter.RawOptions Req) : RateLimiter.value Req :=
  default (RateLimiter.Number 100) (RateLimiter.raw_max options).
Definition algorithm (options : RateLimiter.RawOptions Req) : RateLimiter.value Req :=
  default (RateLimiter.String_ "sliding-window") (RateLimiter.raw_algorithm options).
Definition store (options : RateLimiter.RawOptions Req) : RateLimiter.value Req :=
  default (RateLimiter.String_ "memory") (RateLimiter.raw_store options).









(** [new RateLimiter(options)] throws. *)
Definition raises (ioredis : bool) (options : RateLimiter.RawOptions Req) : Prop :=
  ∃ e, RateLimiter.new ioredis options = Throw e.

End WithRequests.
End Construction.

(** ** Histories of an in-memory store *)
Module Trace.

(** What can happen to the store: a sliding-window [check], a [reset], a
    [decrement], the expiry timer of a key firing, or a [set] by another
    user of the store. *)
Inductive event : Type :=
| Check (key : string) (options : Algorithm.Options) (now : Q)
| Reset (key : string)
| Decrement (key : string)
| TimerFires (key : string)
| Write (key : string) (value : Data.t) (ttl : option Q).

Definition step (s : MemoryStore.t) (e : event) : MemoryStore.t :=
  match e with
  | Check key options now => snd (SlidingWindow.check key options now s)
  | Reset key => snd (MemoryStore.reset key s)
  | Decrement key => snd (MemoryStore.decrement key s)
  | TimerFires key => MemoryStore.timerFires key s
  | Write key value ttl => snd (MemoryStore.set key value ttl s)
  end.

Definition run (es : list event) (s : MemoryStore.t) : MemoryStore.t :=
  fold_left step es s.

(** A history in which [key] is used by the sliding window only, and the
    clock does not go back: every [check] has a positive window and reads a
    positive time that is not before the previous reading, and no other
    user writes to [key]. *)
Fixpoint ordered (key : string) (clock : Q) (es : list event) : Prop :=
  match es with
  | [] => True
  | Check _ options now :: es =>
      0 < Algorithm.windowMs options ∧ 0 < now ∧ clock <= now ∧ ordered key now es
  | Write key' _ _ :: es => key' ≠ key ∧ ordered key clock es
  | _ :: es => ordered key clock es
  end.

(** The last clock reading of a history that started at [clock]. *)
Fixpoint clockAfter (clock : Q) (es : list event) : Q :=
  match es with
  | [] => clock
  | Check _ _ now :: es => clockAfter now es
  | _ :: es => clockAfter clock es
  end.

(** The timestamps stored for [key] are in clock order and none is after
    [clock]. *)
Definition inOrder (key : string) (clock : Q) (s : MemoryStore.t) : Prop :=
  ∀ l, MemoryStore.store s !! key ≫= Data.requests = Some l →
    StronglySorted Qle l ∧ List.Forall (λ t, t <= clock) l.

End Trace.

(** ** Limiters used as concrete inputs *)
Module Examples.

(** [new RateLimiter({ windowMs, max, algorithm })] with the default
    in-memory store. *)
Definition limiter (algorithm : string) (algo : AlgorithmName) (windowMs max : Q)
  : RateLimiter.t unit MemoryStore.t :=
  RateLimiter.mk
    (RateLimiter.mkOptions windowMs (RateLimiter.MaxNumber max) algorithm
       (RateLimiter.String_ "memory"))
    MemoryStore.new algo.

Definition sliding : RateLimiter.t unit MemoryStore.t :=
  limiter "sliding-window" SlidingWindowAlgorithm 60000 2.

(** [check] and [reset], keeping the limiter only. *)
Definition afterCheck {S : Type} {ops : Store.Ops S} (key : string) (now : Q)
    (self : RateLimiter.t unit S) : RateLimiter.t unit S :=
  snd (RateLimiter.check self key RateLimiter.noOptions now now).

Definition afterReset {S : Type} {ops : Store.Ops S} (key : string)
    (self : RateLimiter.t unit S) : RateLimiter.t unit S :=
  snd (RateLimiter.reset self key).

(** The decision of [check(key)] at a single clock reading. *)
Definition decision {S : Type} {ops : Store.Ops S} (key : string) (now : Q)
    (self : RateLimiter.t unit S) : result (RateLimiter.RateLimitResult unit) :=
  fst (RateLimiter.check self key RateLimiter.noOptions now now).

(** A store in which ["k"] holds the timestamps of two earlier checks. *)
Definition twoRequests : MemoryStore.t :=
  MemoryStore.mk (<["k" := Data.ofRequests [1000; 2000]]> ∅) ∅.

(** [{ windowMs, max }], as the limiter passes them when [check] got no
    second argument. *)
Definition options (windowMs max : Q) : Algorithm.Options :=
  Algorithm.mkOptions windowMs max None None None.

(** A store in which the bucket of ["k"] held half a token at time 1000. *)
Definition halfToken : MemoryStore.t :=
  MemoryStore.mk (<["k" := Data.ofTokens (1 # 2) 1000]> ∅) ∅.

(** A fixed-window limiter that admits one request per minute. *)
Definition fixedOne : RateLimiter.t unit MemoryStore.t :=
  limiter "fixed-window" FixedWindowAlgorithm 60000 1.

(** [new RedisStore({ client })] on an empty database, then
    [increment("k", { timestamp: 1000, windowMs: 60000 })]. *)
Definition redisSliding : RedisStore.t :=
  snd (RedisStore.increment "k" (Store.mkIncrementOptions (Some 60000) (Some 1000))
         1000 (1 # 2) (RedisStore.new ∅)).



(** A fixed-window limiter with windows of one second, after one
    [check("a")] in window 1: the counter is stored under ["a:1"]. *)
Definition fixedAfterA : RateLimiter.t unit MemoryStore.t :=
  afterCheck "a" 1500 (limiter "fixed-window" FixedWindowAlgorithm 1000 5).

(** A history of the store: two checks of ["k"], with a check, a
    decrement and a foreign write on another key in between. *)
Definition history : list Trace.event :=
  [Trace.Check "k" (options 1500 5) 1000;
   Trace.Check "j" (options 1500 5) 1200;
   Trace.Decrement "j";
   Trace.Check "k" (options 1500 5) 2000;
   Trace.Write "j" (Data.ofTokens 9 2100) (Some 15000)].

End Examples.

(** ** Repeated calls *)
Module History.

(** [n] calls of [increment(key, { windowMs })], one after the other. *)
Definition increments (n : nat) (key : string) (windowMs : option Q) (s : MemoryStore.t)
  : MemoryStore.t :=
  Nat.iter n
    (fun s => snd (MemoryStore.increment key (Store.mkIncrementOptions windowMs None) s)) s.

(** The store after the algorithm checked [key] at each of [times], in
    that order. *)
Definition after {S : Type} {ops : Store.Ops S} (algo : AlgorithmName) (key : string)
    (options : Algorithm.Options) (times : list Q) (s : S) : S :=
  fold_left (fun s now => snd (Algorithms.check algo key options now s)) times s.

(** The limiter after [check(key, ctx)] at each of [times], in that
    order; each call sees one clock reading. *)
Definition checks {Req S : Type} {ops : Store.Ops S} (key : string)
    (ctx : RateLimiter.CheckOptions Req) (times : list Q) (self : RateLimiter.t Req S)
  : RateLimiter.t Req S :=
  fold_left (fun self now => snd (RateLimiter.check self key ctx now now)) times self.

(** The earlier checks that a sliding window ending at [now] still sees. *)
Definition recent (times : list Q) (windowMs now : Q) : list Q :=
  List.filter (fun t => JS.ltb (now - windowMs) t) times.

End History.

(** ** Statements about the leaky bucket *)
Module Leaky.

(** What the store holds for a key of the leaky bucket: nothing, or a
    record with [water] and [lastLeak]. *)
Inductive waterRecord : option Data.t → option (Q * Q) → Prop :=
| waterAbsent : waterRecord None None
| waterPresent (data : Data.t) (water lastLeak : Q) :
    Data.water data = Some water →
    Data.lastLeak data = Some lastLeak →
    waterRecord (Some data) (Some (water, lastLeak)).

(** The stored level, lowered by [(now - lastLeak) / windowMs * leakRate]
    but not below zero; a new bucket is empty. *)
Definition level (prior : option (Q * Q)) (leakRate windowMs now : Q) : Q :=
  match prior with
  | Some (water, lastLeak) => Qmax 0 (water - (now - lastLeak) / windowMs * leakRate)
  | None => 0
  end.

End Leaky.

(** ** Calls against a limiter on the in-memory store *)
Module Calls.
Section WithRequests.
Context {Req : Type}.

(** What a caller, or the clock, can do between two checks of a key:
    [check], [reset], the store's [decrement], and a timer of the store
    firing. *)
Inductive call : Type :=
| CheckCall (key : string) (ctx : RateLimiter.CheckOptions Req) (algoNow now : Q)
| ResetCall (key : string)
| DecrementCall (key : string)
| ExpiryCall (key : string).

Definition keyOf (c : call) : string :=
  match c with
  | CheckCall key _ _ _ => key
  | ResetCall key => key
  | DecrementCall key => key
  | ExpiryCall key => key
  end.

Definition perform (self : RateLimiter.t Req MemoryStore.t) (c : call)
  : RateLimiter.t Req MemoryStore.t :=
  match c with
  | CheckCall key ctx algoNow now => snd (RateLimiter.check self key ctx algoNow now)
  | ResetCall key => snd (RateLimiter.reset self key)
  | DecrementCall key =>
      RateLimiter.mk (RateLimiter.options self)
        (snd (MemoryStore.decrement key (RateLimiter.store self)))
        (RateLimiter.algorithm_ self)
  | ExpiryCall key =>
      RateLimiter.mk (RateLimiter.options self)
        (MemoryStore.timerFires key (RateLimiter.store self))
        (RateLimiter.algorithm_ self)
  end.

Definition performAll (calls : list call) (self : RateLimiter.t Req MemoryStore.t)
  : RateLimiter.t Req MemoryStore.t :=
  fold_left perform calls self.

(** The limiter as the constructor leaves it: the same options and
    algorithm, on a new in-memory store. *)
Definition asNew (self : RateLimiter.t Req MemoryStore.t) : RateLimiter.t Req MemoryStore.t :=
  RateLimiter.mk (RateLimiter.options self) MemoryStore.new (RateLimiter.algorithm_ self).

End WithRequests.
End Calls.

(** ** lib/index.js: the predefined key generators

    A request is reduced to the fields the generators read; each is a
    string or missing. *)
Module KeyGenerators.

Record Request : Type := mkRequest {
  ip : option string;
  remoteAddress : option string;
  userId : option string;
}.

(** [a || b] where [a] is a string or [undefined]: the empty string is
    falsy. *)
Definition orElse (a : option string) (b : string) : string :=
  match a with
  | Some s => if String.eqb s "" then b else s
  | None => b
  end.

(** [req.ip || req.socket?.remoteAddress || 'unknown']; also the default
    [keyGenerator] of the limiter. *)
Definition byIp (req : Request) (route : option string) : string :=
  orElse (ip req) (orElse (remoteAddress req) "unknown").

Definition byUserId (req : Request) (route : option string) : string :=
  "user:" +:+ orElse (userId req) (orElse (ip req) "unknown").

Definition routeAndIp (req : Request) (route : option string) : string :=
  orElse route "unknown" +:+ ":" +:+ byIp req route.

Definition apiEndpoint (req : Request) (route : option string) : string :=
  "api:" +:+ orElse route "unknown" +:+ ":" +:+ byIp req route.

Definition userAndRoute (req : Request) (route : option string) : string :=
  "user:" +:+ orElse (userId req) (orElse (ip req) "unknown") +:+ ":"
  +:+ orElse route "unknown".

Definition all : list (Request → option string → string) :=
  [byIp; byUserId; routeAndIp; apiEndpoint; userAndRoute].

End KeyGenerators.

(** ** lib/rate-limiter.js: [middleware] and [_setHeaders]

    The response is reduced to what the middleware does to it: whether it
    has a [setHeader] function, the headers set, and what
    [status(...).json(...)] sent.  [next] is the list of the calls made to
    it, each with its argument; a missing [res] or [next] is [None].  The
    callbacks [next], [setHeader], [status] and [json] return normally. *)
Module Middleware.

(** [x.toString()]: the text of a number is represented by the number it
    spells; a [max] that is a function prints as its source text. *)
Inductive HeaderValue : Type :=
| Spells (n : num)
| SourceText.

Record Body : Type := mkBody {
  body_error : string;
  body_message : string;
  body_retryAfter : num;
}.

Record Response : Type := mkResponse {
  hasSetHeader : bool;
  sentHeaders : gmap string HeaderValue;
  status : option Z;
  json : option Body;
}.

Record Exchange : Type := mkExchange {
  res : option Response;
  next : option (list (option exn));
}.

(** [Math.ceil(x / 1000)] *)
Definition ceilSeconds (x : num) : num :=
  match x with
  | Num q => Num (inject_Z (Qceiling (q / 1000)))
  | NaN => NaN
  end.

Definition setHeader (name : string) (value : HeaderValue) (r : Response) : Response :=
  mkResponse (hasSetHeader r) (<[name := value]> (sentHeaders r)) (status r) (json r).

(** [next ? next(error) : undefined] *)
Definition callNext (error : option exn) (x : Exchange) : Exchange :=
  mkExchange (res x) ((λ calls, calls ++ [error]) <$> next x).

Definition tooMany : exn := Error "超过速率限制".

Section WithRequests.
Context {Req S : Type} {ops : Store.Ops S}.

(** The options that only the middleware reads.  [skip] and
    [keyGenerator] may throw (or reject); a [handler] works on the
    response and on [next], and may throw. *)
Record Options : Type := mkOptions {
  keyGenerator : Req → result string;
  skip : Req → result bool;
  handler : option (Req → Exchange → result unit * Exchange);
  headers : bool;
}.

Definition toString (v : RateLimiter.MaxValue Req) : HeaderValue :=
  match v with
  | RateLimiter.MaxNumber n => Spells (Num n)
  | RateLimiter.MaxFunction _ => SourceText
  end.

Definition _setHeaders (r : option Response) (result : RateLimiter.RateLimitResult Req)
  : option Response :=
  match r with
  | None => None
  | Some r =>
      if negb (hasSetHeader r) then Some r
      else
        let r := setHeader "X-RateLimit-Limit" (toString (RateLimiter.limit result)) r in
        let r := setHeader "X-RateLimit-Remaining"
                   (toString (RateLimiter.remaining result)) r in
        let r := setHeader "X-RateLimit-Reset"
                   (Spells (ceilSeconds (RateLimiter.resetTime result))) r in
        Some (if RateLimiter.allowed result then r
              else setHeader "Retry-After"
                     (Spells (ceilSeconds (RateLimiter.retryAfter result))) r)
  end.

(** [res.status(429).json({ error, message, retryAfter })] *)
Definition tooManyRequests (result : RateLimiter.RateLimitResult Req) (r : Response)
  : Response :=
  mkResponse (hasSetHeader r) (sentHeaders r) (Some 429%Z)
    (Some (mkBody "请求过多" "超过速率限制" (ceilSeconds (RateLimiter.retryAfter result)))).

(** [{ req, route }], the second argument of [check]; the algorithms do
    not read [route]. *)
Definition checkOptions (request : Req) : RateLimiter.CheckOptions Req :=
  RateLimiter.mkCheckOptions (Some request) None None None None None.

(** The function returned by [middleware()], applied to [(req, res,
    next)].  Every exception ends in the [catch], which calls [next()]. *)
Definition middleware (self : RateLimiter.t Req S) (mw : Options) (request : Req)
    (x : Exchange) (algoNow now : Q) : Exchange * RateLimiter.t Req S :=
  match skip mw request with
  | Throw _ => (callNext None x, self)
  | Ok true => (callNext None x, self)
  | Ok false =>
      match keyGenerator mw request with
      | Throw _ => (callNext None x, self)
      | Ok key =>
          match RateLimiter.check self key (checkOptions request) algoNow now with
          | (Throw _, self') => (callNext None x, self')
          | (Ok result, self') =>
              let x :=
                if headers mw then mkExchange (_setHeaders (res x) result) (next x)
                else x in
              if RateLimiter.allowed result then (callNext None x, self')
              else
                match handler mw with
                | Some handle =>
                    match handle request x with
                    | (Ok _, x') => (x', self')
                    | (Throw _, x') => (callNext None x', self')
                    end
                | None =>
                    (callNext (Some tooMany)
                       (mkExchange (tooManyRequests result <$> res x) (next x)),
                     self')
                end
          end
      end
  end.

End WithRequests.

Arguments Options : clear implicits.

(** The defaults of [_validateOptions] for these options, on the requests
    of [KeyGenerators]; [route] is [req.route?.path || req.path ||
    req.url]. *)
Definition defaults (route : KeyGenerators.Request → option string)
  : Options KeyGenerators.Request :=
  mkOptions (λ req, Ok (KeyGenerators.byIp req (route req))) (λ _, Ok false) None true.

End Middleware.

(** ** lib/stores/redis-store.js as the store of an algorithm

    [set] writes the JSON text of a record with SETEX, and [get] parses
    what GET returns.  The texts are kept beside the counters and sorted
    sets of [RedisStore]; a key holds a text, or a counter or a sorted set,
    or nothing.  The text of a record is represented by the record. *)
Module RedisBackend.

Record t : Type := mk {
  base : RedisStore.t;
  texts : gmap string (Data.t * Q);
}.

(** [new RedisStore({ client })] on a database without texts. *)
Definition new (client : gmap string Redis.Entry) : t := mk (RedisStore.new client) ∅.

Definition lift {A : Type} (c : M RedisStore.t A) : M t A :=
  fun self =>
    let '(r, base') := c (base self) in
    (r, mk base' (texts self)).

Definition notAnInteger : exn := Error "ERR value is not an integer or out of range".
Definition invalidExpire : exn := Error "ERR invalid expire time in 'setex' command".

(** [JSON.parse] of the text of a counter is a number: it has none of the
    fields of a record, and [0] is falsy like [null]. *)
Definition number (n : Z) : option Data.t :=
  if Z.eqb n 0 then None else Some (Data.mk None None None None None None).

(** The [catch] of [get] logs and returns [null]. *)
Definition get (key : string) : M t (option Data.t) :=
  fun self =>
    let fullKey := RedisStore._getKey (base self) key in
    match texts self !! fullKey with
    | Some (data, _) => (Ok (Some data), self)
    | None =>
        match Redis.get fullKey (RedisStore.client (base self)) with
        | (Ok (Some n), _) => (Ok (number n), self)
        | (Ok None, _) => (Ok None, self)
        | (Throw _, _) => (Ok None, self)
        end
    end.

(** SETEX replaces whatever the key held, and refuses an expiry that is
    not positive. *)
Definition set (key : string) (value : Data.t) (ttl : option Q) : M t unit :=
  fun self =>
    let fullKey := RedisStore._getKey (base self) key in
    let expiry :=
      if JS.truthy ttl then inject_Z (Qceiling (default 0 ttl / 1000))
      else RedisStore.defaultExpiry (base self) in
    if Qle_bool expiry 0 then (Throw invalidExpire, self)
    else
      (Ok tt,
       mk (RedisStore.mk (delete fullKey (RedisStore.client (base self)))
             (RedisStore.prefix (base self)) (RedisStore.defaultExpiry (base self)))
          (<[fullKey := (value, expiry)]> (texts self))).

(** INCR refuses a text that is not an integer, and the sorted-set
    commands refuse a text. *)
Definition increment (key : string) (options : Store.IncrementOptions) (now random : Q)
  : M t Q :=
  fun self =>
    let fullKey := RedisStore._getKey (base self) key in
    if JS.truthy (Store.timestamp options) then
      match texts self !! (fullKey +:+ ":scores"), Store.windowMs options with
      | Some _, Some _ => (Throw Redis.wrongType, self)
      | _, _ => lift (RedisStore.increment key options now random) self
      end
    else
      match texts self !! fullKey with
      | Some _ => (Throw notAnInteger, self)
      | None => lift (RedisStore.increment key options now random) self
      end.

(** TYPE of a text is [string], and [parseInt] of the text of a record is
    [NaN]: nothing is done. *)
Definition decrement (key : string) : M t unit :=
  fun self =>
    match texts self !! RedisStore._getKey (base self) key with
    | Some _ => (Ok tt, self)
    | None => lift (RedisStore.decrement key) self
    end.

Definition reset (key : string) : M t unit :=
  fun self =>
    let fullKey := RedisStore._getKey (base self) key in
    let '(r, base') := RedisStore.reset key (base self) in
    (r, mk base' (delete (fullKey +:+ ":scores") (delete fullKey (texts self)))).

(** [keys(`${prefix}*`)], then [del] of all of them. *)
Definition resetAll : M t unit :=
  fun self =>
    let prefix := RedisStore.prefix (base self) in
    (Ok tt,
     mk (RedisStore.mk
           (filter (λ kv, String.prefix prefix kv.1 = false) (RedisStore.client (base self)))
           prefix (RedisStore.defaultExpiry (base self)))
        (filter (λ kv, String.prefix prefix kv.1 = false) (texts self))).

(** The store with the readings of [Date.now()] and [Math.random()] that
    its [increment] makes. *)
Definition ops (now random : Q) : Store.Ops t := {|
  Store.get := get;
  Store.set := set;
  Store.increment := fun key options => increment key options now random;
  Store.decrement := decrement;
  Store.reset := reset;
  Store.resetAll := Some resetAll;
|}.

(** One [check] of a limiter on this store: [algoNow] and [now] are the
    clock readings of the algorithm and of [check], [storeNow] and
    [random] those of the store. *)
Record Call : Type := mkCall {
  algoNow : Q;
  now : Q;
  storeNow : Q;
  random : Q;
}.

Definition check {Req : Type} (self : RateLimiter.t Req t) (key : string)
    (ctx : RateLimiter.CheckOptions Req) (c : Call)
  : result (RateLimiter.RateLimitResult Req) * RateLimiter.t Req t :=
  @RateLimiter.check Req t (ops (storeNow c) (random c)) self key ctx (algoNow c) (now c).

(** The limiter after checks of [key], one after the other. *)
Definition checks {Req : Type} (key : string) (ctx : RateLimiter.CheckOptions Req)
    (calls : list Call) (self : RateLimiter.t Req t) : RateLimiter.t Req t :=
  fold_left (fun self c => snd (check self key ctx c)) calls self.

(** No text under the store key of [key] is a record with [requests];
    [set] is the only writer of texts. *)
Definition noRequests (self : t) (key : string) : Prop :=
  ∀ data expiry,
    texts self !! RedisStore._getKey (base self) key = Some (data, expiry) →
    Data.requests data = None.

End RedisBackend.

(** ** Statements about the counters and sorted sets of [RedisStore] *)
Module RedisCounter.

(** The counter under [prefix + key]: the integer stored there, [0] when
    there is none. *)
Definition value (self : RedisStore.t) (key : string) : Z :=
  match RedisStore.client self !! RedisStore._getKey self key with
  | Some (Redis.mkEntry (Redis.Int n) _) => n
  | _ => 0%Z
  end.

(** The expiry of [prefix + key] in seconds, if it has one. *)
Definition expiry (self : RedisStore.t) (key : string) : option Z :=
  RedisStore.client self !! RedisStore._getKey self key ≫= Redis.expiry.

(** [prefix + key] holds a counter, or nothing. *)
Definition isCounter (self : RedisStore.t) (key : string) : Prop :=
  match RedisStore.client self !! RedisStore._getKey self key with
  | Some (Redis.mkEntry (Redis.ZSet _) _) => False
  | _ => True
  end.

(** [n] calls of [increment(key, { windowMs })], one after the other. *)
Definition increments (n : nat) (key : string) (windowMs : option Q) (now random : Q)
    (self : RedisStore.t) : RedisStore.t :=
  Nat.iter n
    (fun s => snd (RedisStore.increment key (Store.mkIncrementOptions windowMs None)
                     now random s)) self.

(** The members of the sorted set under [prefix + key + ":scores"]. *)
Definition scores (self : RedisStore.t) (key : string) : option (list (Q * Redis.Member)) :=
  match RedisStore.client self !! (RedisStore._getKey self key +:+ ":scores") with
  | Some (Redis.mkEntry (Redis.ZSet members) _) => Some members
  | Some (Redis.mkEntry (Redis.Int _) _) => None
  | None => Some []
  end.

End RedisCounter.

(** ** More concrete inputs *)
Module Scenarios.

(** [new RateLimiter({ windowMs: 60000, max: 2, store: new RedisStore({
    client }) })] on an empty database. *)
Definition slidingOnRedis : RateLimiter.t unit RedisBackend.t :=
  RateLimiter.mk
    (RateLimiter.mkOptions 60000 (RateLimiter.MaxNumber 2) "sliding-window"
       (RateLimiter.Object ["get"; "set"; "increment"; "decrement"; "reset"; "resetAll"]))
    (RedisBackend.new ∅) SlidingWindowAlgorithm.

(** A call in which every clock reads [now]. *)
Definition at_ (now : Q) : RedisBackend.Call := RedisBackend.mkCall now now now (1 # 2).

(** [new RateLimiter({ max: 1 })] behind a web framework: one request a
    minute for each address. *)
Definition web : RateLimiter.t KeyGenerators.Request MemoryStore.t :=
  RateLimiter.mk
    (RateLimiter.mkOptions 60000 (RateLimiter.MaxNumber 1) "sliding-window"
       (RateLimiter.String_ "memory"))
    MemoryStore.new SlidingWindowAlgorithm.

Definition webOptions : Middleware.Options KeyGenerators.Request :=
  Middleware.defaults (λ _, None).

(** A request without an address, keyed ["unknown"]. *)
Definition anonymous : KeyGenerators.Request := KeyGenerators.mkRequest None None None.

(** A response nothing was done to yet, and a [next] that was not called. *)
Definition exchange : Middleware.Exchange :=
  Middleware.mkExchange (Some (Middleware.mkResponse true ∅ None None)) (Some []).

(** [web] after a first request without an address, at time 1000. *)
Definition webUsed : RateLimiter.t KeyGenerators.Request MemoryStore.t :=
  snd (Middleware.middleware web webOptions anonymous exchange 1000 1000).

End Scenarios.

(** * Properties *)

(** ** Comparisons *)

Lemma ltb_lt (x y : Q) : JS.ltb x y = true ↔ x < y.
Proof.
  unfold JS.ltb. rewrite negb_true_iff, <- not_true_iff_false, Qle_bool_iff.
  split; [apply Qnot_le_lt | apply Qlt_not_le].
Qed.

Lemma ltb_ge (x y : Q) : JS.ltb x y = false ↔ y <= x.
Proof.
  unfold JS.ltb. rewrite negb_false_iff. apply Qle_bool_iff.
Qed.

Lemma leb_gt (x y : Q) : Qle_bool x y = false ↔ y < x.
Proof.
  rewrite <- not_true_iff_false, Qle_bool_iff.
  split; [apply Qnot_le_lt | apply Qlt_not_le].
Qed.

Lemma truthy_pos (q : Q) : 0 < q → JS.truthy (Some q) = true.
Proof.
  intros Hq. simpl. rewrite negb_true_iff, <- not_true_iff_false, Qeq_bool_iff.
  intros Heq. rewrite Heq in Hq. exact (Qlt_irrefl 0 Hq).
Qed.

(** ** The limiter *)

(** C1. When the quota resolves to [max] and the algorithm returns
    [{count, resetTime}], [check] returns the decision with
    [allowed = (count <= max)], [limit = max], [current = count],
    [remaining = max(0, max - count)], the algorithm's [resetTime], and
    [retryAfter = resetTime - now] when [count > max], [0] otherwise; [now]
    is the clock read when the decision is built. *)
Theorem check_shapes_decision {Req S : Type} {ops : Store.Ops S}
    (self : RateLimiter.t Req S) (key : string) (ctx : RateLimiter.CheckOptions Req)
    (algoNow now max : Q) (result : Algorithm.Result) (store' : S) :
  key ≠ "" →
  RateLimiter.resolveMax self ctx = Ok max →
  Algorithms.check (RateLimiter.algorithm_ self) key
    (RateLimiter.algorithmOptions self max ctx) algoNow (RateLimiter.store self)
    = (Ok result, store') →
  ∃ d,
    RateLimiter.check self key ctx algoNow now
      = (Ok d, RateLimiter.mk (RateLimiter.options self) store' (RateLimiter.algorithm_ self))
    ∧ (RateLimiter.allowed d = true ↔ Algorithm.count result <= max)
    ∧ RateLimiter.limit d = RateLimiter.MaxNumber max
    ∧ RateLimiter.current d = Algorithm.count result
    ∧ RateLimiter.remaining d
        = RateLimiter.MaxNumber (Qmax 0 (max - Algorithm.count result))
    ∧ RateLimiter.resetTime d = Algorithm.resetTime result
    ∧ (max < Algorithm.count result →
         RateLimiter.retryAfter d = JS.sub (Algorithm.resetTime result) (Num now))
    ∧ (Algorithm.count result <= max → RateLimiter.retryAfter d = Num 0)
    ∧ RateLimiter.error d = None.
Proof.
  intros Hkey Hmax Halgo.
  unfold RateLimiter.check.
  destruct (String.eqb_spec key "") as [->|_]; [done|].
  rewrite Hmax, Halgo.
  eexists; split; [reflexivity|]. cbn.
  split; [apply Qle_bool_iff|].
  repeat split.
  - intros Hlt. apply ltb_lt in Hlt. by rewrite Hlt.
  - intros Hle. apply ltb_ge in Hle. by rewrite Hle.
Qed.

Lemma check_shapes_decision_witness :
  ∃ d,
    fst (RateLimiter.check Examples.sliding "k" RateLimiter.noOptions 1000 1001) = Ok d
    ∧ RateLimiter.limit d = RateLimiter.MaxNumber 2
    ∧ RateLimiter.current d = 1.
Proof.
  edestruct (check_shapes_decision Examples.sliding "k" RateLimiter.noOptions 1000 1001 2)
    as (d & Hcheck & _ & Hlimit & Hcurrent & _).
  - discriminate.
  - reflexivity.
  - vm_compute. reflexivity.
  - exists d. rewrite Hcheck. repeat split; [exact Hlimit | exact Hcurrent].
Defined.






(** ** Sorted lists of timestamps *)

Lemma filter_StronglySorted (f : Q → bool) (l : list Q) :
  StronglySorted Qle l → StronglySorted Qle (List.filter f l).
Proof.
  induction 1 as [|t l Hsorted IH Hall]; cbn; [constructor|].
  destruct (f t); [|exact IH].
  constructor; [exact IH|].
  apply List.Forall_forall. intros u Hu. apply List.filter_In in Hu as [Hu _].
  by apply (proj1 (List.Forall_forall _ _) Hall).
Qed.

Lemma Sorted_Qle_strongly (l : list Q) : Sorted Qle l → StronglySorted Qle l.
Proof.
  apply Sorted_StronglySorted. intros x y z. apply Qle_trans.
Qed.

Lemma app_StronglySorted (l : list Q) (t : Q) :
  StronglySorted Qle l → List.Forall (λ u, u <= t) l → StronglySorted Qle (l ++ [t]).
Proof.
  induction 1 as [|u l Hsorted IH Hall]; cbn; intros Hle.
  - repeat constructor.
  - apply List.Forall_cons_iff in Hle as [Hu Hle].
    constructor; [by apply IH|].
    apply List.Forall_app. split; [exact Hall|by repeat constructor].
Qed.

Lemma nonzero_pos (q : Q) : 0 < q → negb (Qeq_bool q 0) = true.
Proof. exact (truthy_pos q). Qed.

Lemma retained_In (l : list Q) (windowMs now t : Q) :
  In t (Sliding.retained l windowMs now) ↔ In t l ∧ now - windowMs < t.
Proof.
  unfold Sliding.retained. rewrite List.filter_In, ltb_lt. reflexivity.
Qed.




Lemma memory_set_ttl (key : string) (value : Data.t) (ttl : Q) (self : MemoryStore.t) :
  0 < ttl →
  MemoryStore.set key value (Some ttl) self
  = (Ok tt,
     MemoryStore.mk (<[key := value]> (MemoryStore.store self))
       (<[key := MemoryStore.mkTimer ttl false]>
          (alter MemoryStore.clearTimeout key (MemoryStore.timers self)))).
Proof.
  intros Httl. unfold MemoryStore.set. by rewrite (truthy_pos ttl Httl).
Qed.

(** [increment(key, { timestamp, windowMs })] in the in-memory store: the
    timestamp is appended to the list of the key, created if need be. *)
Lemma memory_increment_timestamp (key : string) (windowMs ts : Q) (self : MemoryStore.t) :
  0 < windowMs → 0 < ts →
  ∃ count,
    MemoryStore.increment key (Store.mkIncrementOptions (Some windowMs) (Some ts)) self
    = (Ok count,
       MemoryStore.mk
         (<[key := match MemoryStore.store self !! key with
                   | Some data =>
                       Data.setRequests (default [] (Data.requests data) ++ [ts]) data
                   | None => Data.ofRequests [ts]
                   end]> (MemoryStore.store self))
         (<[key := MemoryStore.mkTimer windowMs false]>
            (alter MemoryStore.clearTimeout key (MemoryStore.timers self)))).
Proof.
  intros HW Hts. unfold MemoryStore.increment, MemoryStore.incrementVia. cbn.
  rewrite (nonzero_pos ts Hts).
  destruct (MemoryStore.store self !! key) as [data|]; cbn;
    unfold mbind, M_bind; rewrite (memory_set_ttl _ _ _ _ HW); eexists; reflexivity.
Qed.



(** ** The token bucket *)

Lemma refill_refilled (data : option Data.t) (prior : option (Q * Q))
    (capacity refillRate windowMs now : Q) :
  Bucket.tokenRecord data prior →
  TokenBucket.refill data capacity refillRate windowMs now
  = Num (Bucket.refilled prior capacity refillRate windowMs now).
Proof.
  destruct 1 as [|data tokens lastRefill Htokens HlastRefill]; cbn; [done|].
  by rewrite Htokens, HlastRefill.
Qed.

Lemma refilled_le_capacity (prior : option (Q * Q)) (capacity refillRate windowMs now : Q) :
  Bucket.refilled prior capacity refillRate windowMs now <= capacity.
Proof.
  destruct prior as [[tokens lastRefill]|]; cbn; [apply Q.le_min_l|apply Qle_refl].
Qed.

(** C4. A token-bucket [check] at [now], on the in-memory store, with
    capacity [C], refill rate [r] and window [W]: the stored tokens are
    refilled by [(now - lastRefill) / W * r] and capped at [C]; with at
    least one token, [{tokens - 1, now}] is stored, [count = C - (tokens -
    1)] and [resetTime = now + (1 / r) * W]; otherwise nothing is stored,
    [count = C + 1] and [resetTime = now + ((1 - tokens) / r) * W].  The
    stored tokens never exceed [C]. *)
Theorem token_bucket_check (self : MemoryStore.t) (key : string)
    (options : Algorithm.Options) (now : Q) (prior : option (Q * Q)) :
  let C := default 10 (Algorithm.capacity options) in
  let r := default 1 (Algorithm.refillRate options) in
  let W := Algorithm.windowMs options in
  let tokens := Bucket.refilled prior C r W now in
  Bucket.tokenRecord (MemoryStore.store self !! key) prior →
  tokens <= C
  ∧ (1 <= tokens →
       ∃ self',
         TokenBucket.check key options now self
           = (Ok (Algorithm.mkResult (C - (tokens - 1)) (Num (now + (1 / r) * W))), self')
         ∧ MemoryStore.store self' !! key = Some (Data.ofTokens (tokens - 1) now)
         ∧ tokens - 1 <= C)
  ∧ (tokens < 1 →
       TokenBucket.check key options now self
         = (Ok (Algorithm.mkResult (C + 1) (Num (now + (1 - tokens) / r * W))), self)).
Proof.
  intros C r W tokens Hrecord.
  assert (Hcap : tokens <= C) by apply refilled_le_capacity.
  split; [exact Hcap|].
  unfold TokenBucket.check. fold C r W.
  unfold mbind, M_bind. cbn [Store.get MemoryStore.ops MemoryStore.get].
  rewrite (refill_refilled _ prior C r W now Hrecord). fold tokens.
  split.
  - intros Hone. apply Qle_bool_iff in Hone as ->.
    cbn [Store.set MemoryStore.ops]. unfold MemoryStore.set.
    eexists. split; [reflexivity|]. cbn.
    split; [apply lookup_insert_eq|lra].
  - intros Hless. apply leb_gt in Hless as ->. reflexivity.
Qed.

Lemma token_bucket_check_witness :
  ∃ self',
    TokenBucket.check "k" (Examples.options 1000 5) 1500 Examples.halfToken
      = (Ok (Algorithm.mkResult
               (10 - (Bucket.refilled (Some (1 # 2, 1000)) 10 1 1000 1500 - 1))
               (Num (1500 + (1 / 1) * 1000))),
         self')
    ∧ MemoryStore.store self' !! "k"
      = Some (Data.ofTokens (Bucket.refilled (Some (1 # 2, 1000)) 10 1 1000 1500 - 1) 1500).
Proof.
  destruct (token_bucket_check Examples.halfToken "k" (Examples.options 1000 5) 1500
              (Some (1 # 2, 1000))) as (_ & Hconsume & _).
  - vm_compute. by constructor.
  - destruct Hconsume as (self' & Hcheck & Hstored & _).
    + vm_compute. discriminate.
    + by exists self'.
Defined.

(** ** Reset *)

(** After [reset(key)] the in-memory store holds nothing for [key]. *)
Lemma memory_reset_lookup (key : string) (self : MemoryStore.t) :
  MemoryStore.store (snd (MemoryStore.reset key self)) !! key = None.
Proof. apply lookup_delete_eq. Qed.

(** Under the sliding window, the token bucket and the leaky bucket, the
    first [check(key)] after [reset(key)] counts one request. *)
Lemma reset_then_check_counts_one {Req : Type} (self : RateLimiter.t Req MemoryStore.t)
    (key : string) (algoNow now max : Q) :
  key ≠ "" →
  RateLimiter.algorithm_ self ≠ FixedWindowAlgorithm →
  RateLimiter.max (RateLimiter.options self) = RateLimiter.MaxNumber max →
  1 <= max →
  0 < RateLimiter.windowMs (RateLimiter.options self) →
  0 < algoNow →
  ∃ d,
    fst (RateLimiter.check (snd (RateLimiter.reset self key)) key RateLimiter.noOptions
           algoNow now) = Ok d
    ∧ RateLimiter.current d == 1
    ∧ RateLimiter.allowed d = true.
Proof.
  intros Hkey Halgo Hmax Hone HW Hnow.
  destruct self as [[W mx name opt] store algo]. cbn in Halgo, Hmax, HW. subst mx.
  unfold RateLimiter.reset, RateLimiter.check.
  destruct (String.eqb_spec key "") as [->|_]; [done|].
  cbn [Store.reset MemoryStore.ops MemoryStore.reset snd RateLimiter.options
       RateLimiter.store RateLimiter.algorithm_ RateLimiter.resolveMax RateLimiter.max].
  set (store0 := MemoryStore.mk _ _).
  assert (Hnone : MemoryStore.store store0 !! key = None) by apply lookup_delete_eq.
  clearbody store0.
  assert (Hle : ∀ c, c == 1 → Qle_bool c max = true).
  { intros c Hc. apply Qle_bool_iff. by rewrite Hc. }
  destruct algo; [|done| |]; cbn [Algorithms.check].
  - unfold SlidingWindow.check, mbind, M_bind.
    cbn [Store.get Store.increment MemoryStore.ops MemoryStore.get].
    rewrite Hnone. cbn [option_bind].
    unfold RateLimiter.algorithmOptions. cbn [RateLimiter.o_windowMs RateLimiter.noOptions
      default Algorithm.windowMs RateLimiter.options RateLimiter.windowMs].
    destruct (memory_increment_timestamp key W algoNow store0 HW Hnow) as [c ->].
    eexists. split; [reflexivity|]. cbn. split; [reflexivity|by apply Hle].
  - unfold TokenBucket.check, mbind, M_bind.
    cbn [Store.get Store.set MemoryStore.ops MemoryStore.get].
    rewrite Hnone. cbn. eexists. split; [reflexivity|]. cbn.
    split; [reflexivity|by apply Hle].
  - unfold LeakyBucket.check, mbind, M_bind.
    cbn [Store.get Store.set MemoryStore.ops MemoryStore.get].
    rewrite Hnone. cbn. eexists. split; [reflexivity|]. cbn.
    split; [reflexivity|by apply Hle].
Qed.

(** C5 fails under the fixed window: the counter lives under
    [`${key}:${windowKey}`], which [reset(key)] does not delete.  One
    [check], then [reset], then [check] again reports [current = 2], and is
    denied when [max = 1]. *)
Theorem reset_keeps_fixed_window_counter :
  ∃ d,
    Examples.decision "k" 1000
      (Examples.afterReset "k" (Examples.afterCheck "k" 1000 Examples.fixedOne)) = Ok d
    ∧ RateLimiter.current d == 2
    ∧ ¬ RateLimiter.current d == 1
    ∧ RateLimiter.allowed d = false.
Proof.
  eexists. split; [vm_compute; reflexivity|]. cbn. by repeat split.
Qed.

(** ** Decrement *)

(** In the in-memory store [decrement] lowers a counter by one, not below
    zero, and leaves an absent key absent. *)
Lemma memory_decrement_counter (key : string) (self : MemoryStore.t) (data : Data.t) (c : Q) :
  MemoryStore.store self !! key = Some data →
  Data.count data = Some c →
  MemoryStore.decrement key self
  = (Ok tt,
     MemoryStore.mk (<[key := Data.setCount (Qmax 0 (c - 1)) data]> (MemoryStore.store self))
       (MemoryStore.timers self))
  ∧ 0 <= Qmax 0 (c - 1)
  ∧ (1 <= c → Qmax 0 (c - 1) == c - 1)
  ∧ (c == 0 → Qmax 0 (c - 1) == 0).
Proof.
  intros Hdata Hcount. unfold MemoryStore.decrement. rewrite Hdata, Hcount.
  split; [reflexivity|]. split; [apply Q.le_max_l|]. split.
  - intros Hc. apply Q.max_r. lra.
  - intros Hc. apply Q.max_l. lra.
Qed.

Lemma memory_decrement_absent (key : string) (self : MemoryStore.t) :
  MemoryStore.store self !! key = None → MemoryStore.decrement key self = (Ok tt, self).
Proof.
  intros Hdata. unfold MemoryStore.decrement. by rewrite Hdata.
Qed.

(** In sliding-window mode it removes the timestamp stored last. *)
Lemma memory_decrement_requests (key : string) (self : MemoryStore.t) (data : Data.t)
    (l : list Q) (t : Q) :
  MemoryStore.store self !! key = Some data →
  Data.count data = None →
  Data.requests data = Some (l ++ [t]) →
  MemoryStore.decrement key self
  = (Ok tt,
     MemoryStore.mk (<[key := Data.setRequests l data]> (MemoryStore.store self))
       (MemoryStore.timers self)).
Proof.
  intros Hdata Hcount Hrequests. unfold MemoryStore.decrement.
  rewrite Hdata, Hcount, Hrequests.
  assert (Hpop : removelast (l ++ [t]) = l) by apply removelast_last.
  destruct (l ++ [t]) as [|u l'] eqn:Happ; [by destruct l|].
  by rewrite Hpop.
Qed.

(** C6 fails in the remote store: [decrement] asks for the type of
    [prefix + key], but the sorted set of the sliding window is kept under
    [prefix + key + ":scores"].  After one [increment] with a timestamp,
    [decrement] returns without touching the set, which still holds the
    timestamp. *)
Theorem redis_decrement_keeps_timestamp :
  fst (RedisStore.decrement "k" Examples.redisSliding) = Ok tt
  ∧ snd (RedisStore.decrement "k" Examples.redisSliding) = Examples.redisSliding
  ∧ RedisStore.client Examples.redisSliding !! "rl:k:scores"
    = Some (Redis.mkEntry (Redis.ZSet [(1000, (1000, 1 # 2))]) (Some 61%Z))
  ∧ RedisStore.client Examples.redisSliding !! "rl:k" = None.
Proof.
  vm_compute. done.
Qed.

(** ** Construction *)









(** ** [retryAfter] *)


(** The end of the current fixed window lies after [now]. *)
Lemma window_end_after_now (now windowMs : Q) :
  0 < windowMs → now < (inject_Z (FixedWindow.windowKey now windowMs) + 1) * windowMs.
Proof.
  intros HW. unfold FixedWindow.windowKey.
  pose proof (Qlt_floor (now / windowMs)) as Hfloor.
  rewrite inject_Z_plus in Hfloor.
  assert (Hnow : now == now / windowMs * windowMs) by (field; lra).
  rewrite Hnow at 1. apply Qmult_lt_r; [exact HW|exact Hfloor].
Qed.







(** The shape of the records is kept by the limiter itself: a new
    in-memory store fits, and [check], [reset] and an expiry keep it so. *)
Lemma new_store_fits (algo : AlgorithmName) : Claims.storeFits algo MemoryStore.new.
Proof. intros key data. cbn. by rewrite lookup_empty. Qed.

Lemma algorithm_keeps_fit (algo : AlgorithmName) (key : string)
    (options : Algorithm.Options) (now : Q) (s : MemoryStore.t) :
  Claims.storeFits algo s →
  Claims.storeFits algo (snd (Algorithms.check algo key options now s)).
Proof.
  intros Hs. destruct algo; try (intros key' data _; exact I); cbn [Algorithms.check].
  - unfold TokenBucket.check, mbind, M_bind.
    cbn [Store.get Store.set MemoryStore.ops MemoryStore.get].
    destruct (TokenBucket.refill _ _ _ _ _) as [|tokens]; [exact Hs|].
    destruct (Qle_bool 1 tokens); [|exact Hs].
    intros key' data. unfold MemoryStore.set. cbn.
    destruct (decide (key = key')) as [<-|Hne].
    + rewrite lookup_insert_eq. intros [= <-]. cbn. by split; eexists.
    + rewrite lookup_insert_ne by done. apply Hs.
  - unfold LeakyBucket.check, mbind, M_bind.
    cbn [Store.get Store.set MemoryStore.ops MemoryStore.get].
    destruct (LeakyBucket.leak _ _ _ _) as [|water]; [exact Hs|].
    destruct (JS.ltb water _); [|exact Hs].
    intros key' data. unfold MemoryStore.set. cbn.
    destruct (decide (key = key')) as [<-|Hne].
    + rewrite lookup_insert_eq. intros [= <-]. cbn. by split; eexists.
    + rewrite lookup_insert_ne by done. apply Hs.
Qed.

Lemma check_keeps_fit {Req : Type} (self : RateLimiter.t Req MemoryStore.t) (key : string)
    (ctx : RateLimiter.CheckOptions Req) (algoNow now : Q) :
  Claims.storeFits (RateLimiter.algorithm_ self) (RateLimiter.store self) →
  Claims.storeFits (RateLimiter.algorithm_ self)
    (RateLimiter.store (snd (RateLimiter.check self key ctx algoNow now)))
  ∧ Claims.recordFits self key.
Proof.
  intros Hs. split.
  - unfold RateLimiter.check. destruct (String.eqb key ""); [exact Hs|].
    destruct (RateLimiter.resolveMax self ctx) as [max|e]; [|exact Hs].
    pose proof (algorithm_keeps_fit (RateLimiter.algorithm_ self) key
                  (RateLimiter.algorithmOptions self max ctx) algoNow
                  (RateLimiter.store self) Hs) as Hkept.
    by destruct (Algorithms.check _ _ _ _ _) as [[?|?] ?].
  - intros data s'. cbn. intros [= Hdata _]. by apply (Hs key).
Qed.

Lemma reset_keeps_fit (algo : AlgorithmName) (key : string) (s : MemoryStore.t) :
  Claims.storeFits algo s →
  Claims.storeFits algo (snd (MemoryStore.reset key s))
  ∧ Claims.storeFits algo (MemoryStore.timerFires key s).
Proof.
  intros Hs.
  assert (Hdelete : Claims.storeFits algo
            (MemoryStore.mk (delete key (MemoryStore.store s))
               (delete key (MemoryStore.timers s)))).
  { intros key' data. cbn. destruct (decide (key = key')) as [<-|Hne].
    - by rewrite lookup_delete_eq.
    - rewrite lookup_delete_ne by done. apply Hs. }
  split; [exact Hdelete|].
  unfold MemoryStore.timerFires.
  by destruct (MemoryStore.timers s !! key) as [[delay [|]]|].
Qed.



(** ** Keys *)

(** The operations of the in-memory store touch the record and the timer
    of their own key only. *)
Lemma memory_set_frame (k1 k2 : string) (value : Data.t) (ttl : option Q)
    (s : MemoryStore.t) :
  k1 ≠ k2 →
  MemoryStore.store (snd (MemoryStore.set k1 value ttl s)) !! k2 = MemoryStore.store s !! k2
  ∧ MemoryStore.timers (snd (MemoryStore.set k1 value ttl s)) !! k2
    = MemoryStore.timers s !! k2.
Proof.
  intros Hne. unfold MemoryStore.set. cbn [snd MemoryStore.store MemoryStore.timers].
  split; [by rewrite lookup_insert_ne|].
  destruct ttl as [d|]; [destruct (JS.truthy (Some d))|];
    rewrite ?lookup_insert_ne, ?lookup_alter_ne by done; reflexivity.
Qed.

Lemma memory_increment_frame (k1 k2 : string) (options : Store.IncrementOptions)
    (s : MemoryStore.t) :
  k1 ≠ k2 →
  MemoryStore.store (snd (MemoryStore.increment k1 options s)) !! k2
    = MemoryStore.store s !! k2
  ∧ MemoryStore.timers (snd (MemoryStore.increment k1 options s)) !! k2
    = MemoryStore.timers s !! k2.
Proof.
  intros Hne. unfold MemoryStore.increment, MemoryStore.incrementVia, mbind, M_bind.
  destruct (MemoryStore.store s !! k1) as [data|];
    destruct (Store.timestamp options) as [ts|];
    try destruct (JS.truthy (Some ts));
    match goal with
    | |- context [MemoryStore.set k1 ?v ?ttl s] =>
        pose proof (memory_set_frame k1 k2 v ttl s Hne) as Hframe;
        destruct (MemoryStore.set k1 v ttl s) as [[[]|e] s']; exact Hframe
    end.
Qed.

Lemma memory_decrement_frame (k1 k2 : string) (s : MemoryStore.t) :
  k1 ≠ k2 →
  MemoryStore.store (snd (MemoryStore.decrement k1 s)) !! k2 = MemoryStore.store s !! k2
  ∧ MemoryStore.timers (snd (MemoryStore.decrement k1 s)) !! k2
    = MemoryStore.timers s !! k2.
Proof.
  intros Hne. unfold MemoryStore.decrement.
  destruct (MemoryStore.store s !! k1) as [data|]; [|done].
  destruct (Data.count data) as [c|]; cbn; [by rewrite lookup_insert_ne|].
  destruct (Data.requests data) as [[|t l]|]; cbn; rewrite ?lookup_insert_ne by done; done.
Qed.

Lemma memory_reset_frame (k1 k2 : string) (s : MemoryStore.t) :
  k1 ≠ k2 →
  MemoryStore.store (snd (MemoryStore.reset k1 s)) !! k2 = MemoryStore.store s !! k2
  ∧ MemoryStore.timers (snd (MemoryStore.reset k1 s)) !! k2 = MemoryStore.timers s !! k2.
Proof.
  intros Hne. unfold MemoryStore.reset. cbn. by rewrite !lookup_delete_ne.
Qed.

(** Under the sliding window and the two buckets, a [check] of one key
    leaves the record of every other key as it was. *)
Lemma algorithm_frame (algo : AlgorithmName) (k1 k2 : string) (options : Algorithm.Options)
    (now : Q) (s : MemoryStore.t) :
  algo ≠ FixedWindowAlgorithm →
  k1 ≠ k2 →
  MemoryStore.store (snd (Algorithms.check algo k1 options now s)) !! k2
  = MemoryStore.store s !! k2.
Proof.
  intros Halgo Hne. destruct algo; [|done| |]; cbn [Algorithms.check].
  - unfold SlidingWindow.check, mbind, M_bind.
    cbn [Store.get Store.set Store.increment MemoryStore.ops MemoryStore.get].
    destruct (option_bind _ _ Data.requests (MemoryStore.store s !! k1)) as [requests|].
    + match goal with
      | |- context [MemoryStore.set k1 ?v ?ttl s] =>
          destruct (memory_set_frame k1 k2 v ttl s Hne) as [Hframe _];
          destruct (MemoryStore.set k1 v ttl s) as [[[]|e] s']; exact Hframe
      end.
    + match goal with
      | |- context [MemoryStore.increment k1 ?o s] =>
          destruct (memory_increment_frame k1 k2 o s Hne) as [Hframe _];
          destruct (MemoryStore.increment k1 o s) as [[c|e] s']; exact Hframe
      end.
  - unfold TokenBucket.check, mbind, M_bind.
    cbn [Store.get Store.set MemoryStore.ops MemoryStore.get].
    destruct (TokenBucket.refill _ _ _ _ _) as [|tokens]; [done|].
    destruct (Qle_bool 1 tokens); [|done].
    match goal with
    | |- context [MemoryStore.set k1 ?v ?ttl s] =>
        destruct (memory_set_frame k1 k2 v ttl s Hne) as [Hframe _];
        destruct (MemoryStore.set k1 v ttl s) as [[[]|e] s']; exact Hframe
    end.
  - unfold LeakyBucket.check, mbind, M_bind.
    cbn [Store.get Store.set MemoryStore.ops MemoryStore.get].
    destruct (LeakyBucket.leak _ _ _ _) as [|water]; [done|].
    destruct (JS.ltb water _); [|done].
    match goal with
    | |- context [MemoryStore.set k1 ?v ?ttl s] =>
        destruct (memory_set_frame k1 k2 v ttl s Hne) as [Hframe _];
        destruct (MemoryStore.set k1 v ttl s) as [[[]|e] s']; exact Hframe
    end.
Qed.

(** Under the same three algorithms, the result of a [check] of a key
    depends on the store through the record of that key only. *)
Lemma algorithm_reads_own_record (algo : AlgorithmName) (key : string)
    (options : Algorithm.Options) (now : Q) (s s' : MemoryStore.t) :
  algo ≠ FixedWindowAlgorithm →
  MemoryStore.store s !! key = MemoryStore.store s' !! key →
  fst (Algorithms.check algo key options now s)
  = fst (Algorithms.check algo key options now s').
Proof.
  intros Halgo Hsame. destruct algo; [|done| |]; cbn [Algorithms.check].
  - unfold SlidingWindow.check, mbind, M_bind.
    cbn [Store.get Store.set Store.increment MemoryStore.ops MemoryStore.get].
    rewrite Hsame.
    destruct (option_bind _ _ Data.requests (MemoryStore.store s' !! key)) as [requests|].
    + reflexivity.
    + unfold MemoryStore.increment, MemoryStore.incrementVia, mbind, M_bind.
      rewrite Hsame.
      destruct (MemoryStore.store s' !! key) as [data|]; cbn;
        by destruct (negb (Qeq_bool now 0)).
  - unfold TokenBucket.check, mbind, M_bind.
    cbn [Store.get Store.set MemoryStore.ops MemoryStore.get].
    rewrite Hsame.
    destruct (TokenBucket.refill _ _ _ _ _) as [|tokens]; [done|].
    by destruct (Qle_bool 1 tokens).
  - unfold LeakyBucket.check, mbind, M_bind.
    cbn [Store.get Store.set MemoryStore.ops MemoryStore.get].
    rewrite Hsame.
    destruct (LeakyBucket.leak _ _ _ _) as [|water]; [done|].
    by destruct (JS.ltb water _).
Qed.

Lemma check_reads_own_record {Req : Type} (self self' : RateLimiter.t Req MemoryStore.t)
    (key : string) (ctx : RateLimiter.CheckOptions Req) (algoNow now : Q) :
  RateLimiter.algorithm_ self ≠ FixedWindowAlgorithm →
  RateLimiter.options self' = RateLimiter.options self →
  RateLimiter.algorithm_ self' = RateLimiter.algorithm_ self →
  MemoryStore.store (RateLimiter.store self') !! key
    = MemoryStore.store (RateLimiter.store self) !! key →
  fst (RateLimiter.check self' key ctx algoNow now)
  = fst (RateLimiter.check self key ctx algoNow now).
Proof.
  intros Halgo Hoptions Hname Hsame.
  destruct self as [options store algo], self' as [options' store' algo'].
  cbn in Halgo, Hoptions, Hname, Hsame. subst options' algo'.
  unfold RateLimiter.check, RateLimiter.resolveMax, RateLimiter.algorithmOptions,
    RateLimiter.failOpen.
  cbn [RateLimiter.options RateLimiter.store RateLimiter.algorithm_].
  destruct (String.eqb key ""); [reflexivity|].
  destruct (match RateLimiter.max options with
            | RateLimiter.MaxNumber n => Ok n
            | RateLimiter.MaxFunction f => f (RateLimiter.req ctx)
            end) as [max|e]; [|reflexivity].
  pose proof (algorithm_reads_own_record algo key
                (Algorithm.mkOptions
                   (default (RateLimiter.windowMs options) (RateLimiter.o_windowMs ctx))
                   (default max (RateLimiter.o_max ctx))
                   (RateLimiter.o_capacity ctx) (RateLimiter.o_refillRate ctx)
                   (RateLimiter.o_leakRate ctx))
                algoNow store' store Halgo Hsame) as Hresult.
  destruct (Algorithms.check algo key _ algoNow store') as [r1 s1].
  destruct (Algorithms.check algo key _ algoNow store) as [r2 s2].
  cbn in Hresult. subst r2. by destruct r1.
Qed.

(** Key independence under the sliding window and the two buckets, on the
    in-memory store: a [check], a [reset] or a [decrement] against [k1]
    does not change the decision of a later [check] of another key [k2]. *)
Lemma check_ignores_other_keys {Req : Type} (self : RateLimiter.t Req MemoryStore.t)
    (k1 k2 : string) (ctx1 ctx2 : RateLimiter.CheckOptions Req)
    (algoNow1 now1 algoNow2 now2 : Q) :
  RateLimiter.algorithm_ self ≠ FixedWindowAlgorithm →
  k1 ≠ k2 →
  fst (RateLimiter.check (snd (RateLimiter.check self k1 ctx1 algoNow1 now1)) k2 ctx2
         algoNow2 now2)
  = fst (RateLimiter.check self k2 ctx2 algoNow2 now2)
  ∧ fst (RateLimiter.check (snd (RateLimiter.reset self k1)) k2 ctx2 algoNow2 now2)
    = fst (RateLimiter.check self k2 ctx2 algoNow2 now2)
  ∧ fst (RateLimiter.check
           (RateLimiter.mk (RateLimiter.options self)
              (snd (MemoryStore.decrement k1 (RateLimiter.store self)))
              (RateLimiter.algorithm_ self)) k2 ctx2 algoNow2 now2)
    = fst (RateLimiter.check self k2 ctx2 algoNow2 now2).
Proof.
  intros Halgo Hne. repeat split.
  - apply check_reads_own_record; try exact Halgo.
    + unfold RateLimiter.check. destruct (String.eqb k1 ""); [done|].
      destruct (RateLimiter.resolveMax self ctx1); [|done].
      by destruct (Algorithms.check _ _ _ _ _) as [[?|?] ?].
    + unfold RateLimiter.check. destruct (String.eqb k1 ""); [done|].
      destruct (RateLimiter.resolveMax self ctx1); [|done].
      by destruct (Algorithms.check _ _ _ _ _) as [[?|?] ?].
    + unfold RateLimiter.check. destruct (String.eqb k1 ""); [done|].
      destruct (RateLimiter.resolveMax self ctx1) as [max|e]; [|done].
      pose proof (algorithm_frame (RateLimiter.algorithm_ self) k1 k2
                    (RateLimiter.algorithmOptions self max ctx1) algoNow1
                    (RateLimiter.store self) Halgo Hne) as Hframe.
      by destruct (Algorithms.check _ _ _ _ _) as [[?|?] ?].
  - apply check_reads_own_record; try exact Halgo.
    + unfold RateLimiter.reset. by destruct (String.eqb k1 "").
    + unfold RateLimiter.reset. by destruct (String.eqb k1 "").
    + unfold RateLimiter.reset. destruct (String.eqb k1 ""); [done|].
      cbn. by rewrite lookup_delete_ne.
  - apply check_reads_own_record; try exact Halgo; try reflexivity.
    by apply memory_decrement_frame.
Qed.

(** C9 fails under the fixed window: the counter of key ["a"] in window 1
    is the store record ["a:1"], so [reset("a:1")], a call against another
    key, deletes it.  The next [check("a")] reports [current = 1] where it
    reports [current = 2] without the call. *)
Theorem reset_of_other_key_changes_count :
  "a:1" ≠ "a"
  ∧ ∃ d d',
      Examples.decision "a" 1600 Examples.fixedAfterA = Ok d
      ∧ Examples.decision "a" 1600 (Examples.afterReset "a:1" Examples.fixedAfterA) = Ok d'
      ∧ RateLimiter.current d == 2
      ∧ RateLimiter.current d' == 1
      ∧ ¬ RateLimiter.remaining d = RateLimiter.remaining d'.
Proof.
  split; [discriminate|].
  eexists _, _. split; [vm_compute; reflexivity|]. split; [vm_compute; reflexivity|].
  cbn. repeat split; discriminate.
Qed.

(** ** The stored timestamps along a history *)

(** What a sliding-window [check] leaves in the in-memory store. *)
Lemma sliding_check_store (key : string) (options : Algorithm.Options) (now : Q)
    (s : MemoryStore.t) :
  0 < Algorithm.windowMs options →
  0 < now →
  ∃ data,
    MemoryStore.store (snd (SlidingWindow.check key options now s))
    = <[key := data]> (MemoryStore.store s)
    ∧ Data.requests data
      = Some (Sliding.retained (Sliding.stored s key) (Algorithm.windowMs options) now
              ++ [now]).
Proof.
  intros HW Hnow.
  unfold SlidingWindow.check, Sliding.stored, mbind, M_bind.
  cbn [Store.get Store.set Store.increment MemoryStore.ops MemoryStore.get].
  destruct (MemoryStore.store s !! key) as [data|] eqn:Hdata; cbn [option_bind].
  - destruct (Data.requests data) as [requests|] eqn:Hrequests; cbn [default].
    + rewrite (memory_set_ttl _ _ _ _ HW). cbn. eexists. split; reflexivity.
    + destruct (memory_increment_timestamp key _ now s HW Hnow) as [c ->].
      rewrite Hdata. cbn. eexists. split; [reflexivity|]. cbn. by rewrite Hrequests.
  - destruct (memory_increment_timestamp key _ now s HW Hnow) as [c ->].
    rewrite Hdata. cbn. eexists. split; reflexivity.
Qed.

Lemma removelast_In {A : Type} (l : list A) (x : A) : In x (removelast l) → In x l.
Proof.
  induction l as [|y l IH]; cbn; [done|].
  destruct l as [|z l]; [done|]. intros [->|Hx]; [by left|right; by apply IH].
Qed.

Lemma removelast_StronglySorted (l : list Q) :
  StronglySorted Qle l → StronglySorted Qle (removelast l).
Proof.
  induction 1 as [|t l Hsorted IH Hall]; cbn; [constructor|].
  destruct l as [|u l]; [constructor|].
  constructor; [exact IH|].
  apply List.Forall_forall. intros x Hx. apply removelast_In in Hx.
  by apply (proj1 (List.Forall_forall _ _) Hall).
Qed.

Lemma removelast_Forall (P : Q → Prop) (l : list Q) :
  List.Forall P l → List.Forall P (removelast l).
Proof.
  rewrite !List.Forall_forall. intros Hall x Hx. apply Hall. by apply removelast_In.
Qed.

Lemma inOrder_later (key : string) (clock clock' : Q) (s : MemoryStore.t) :
  clock <= clock' → Trace.inOrder key clock s → Trace.inOrder key clock' s.
Proof.
  intros Hle Hs l Hl. destruct (Hs l Hl) as [Hsorted Hall].
  split; [exact Hsorted|].
  apply (List.Forall_impl _ (P := λ t, t <= clock)); [|exact Hall].
  intros t Ht. by apply Qle_trans with clock.
Qed.

(** The list written by a [check] at [now] is in order again. *)
Lemma retained_inOrder (l : list Q) (windowMs clock now : Q) :
  clock <= now →
  StronglySorted Qle l →
  List.Forall (λ t, t <= clock) l →
  StronglySorted Qle (Sliding.retained l windowMs now ++ [now])
  ∧ List.Forall (λ t, t <= now) (Sliding.retained l windowMs now ++ [now]).
Proof.
  intros Hle Hsorted Hall.
  assert (Hkept : List.Forall (λ t, t <= now) (Sliding.retained l windowMs now)).
  { apply List.Forall_forall. intros t Ht. apply retained_In in Ht as [Ht _].
    apply Qle_trans with clock; [|exact Hle].
    by apply (proj1 (List.Forall_forall _ _) Hall). }
  split.
  - apply app_StronglySorted; [by apply filter_StronglySorted|exact Hkept].
  - apply List.Forall_app. split; [exact Hkept|]. repeat constructor. apply Qle_refl.
Qed.

Lemma stored_inOrder (key : string) (clock : Q) (s : MemoryStore.t) :
  Trace.inOrder key clock s →
  StronglySorted Qle (Sliding.stored s key)
  ∧ List.Forall (λ t, t <= clock) (Sliding.stored s key).
Proof.
  intros Hs. unfold Sliding.stored.
  destruct (MemoryStore.store s !! key ≫= Data.requests) as [l|] eqn:Hl; cbn.
  - by apply Hs.
  - split; constructor.
Qed.

(** A store whose record of [key] is left as it was keeps it in order. *)
Lemma inOrder_frame (key : string) (clock : Q) (s s' : MemoryStore.t) :
  MemoryStore.store s' !! key = MemoryStore.store s !! key →
  Trace.inOrder key clock s → Trace.inOrder key clock s'.
Proof.
  intros Hsame Hs l. rewrite Hsame. apply Hs.
Qed.

Lemma step_inOrder (key : string) (clock : Q) (s : MemoryStore.t) (e : Trace.event) :
  Trace.inOrder key clock s →
  Trace.ordered key clock [e] →
  Trace.inOrder key (Trace.clockAfter clock [e]) (Trace.step s e).
Proof.
  intros Hs Hordered.
  destruct e as [key' options now|key'|key'|key'|key' value ttl];
    cbn [Trace.step Trace.clockAfter Trace.ordered] in *.
  - destruct Hordered as (HW & Hnow & Hle & _).
    destruct (sliding_check_store key' options now s HW Hnow) as (data & Hstore & Hdata).
    destruct (decide (key' = key)) as [->|Hne].
    + intros l. rewrite Hstore, lookup_insert_eq. cbn. rewrite Hdata. intros [= <-].
      destruct (stored_inOrder key clock s Hs) as [Hsorted Hall].
      by apply (retained_inOrder _ _ clock).
    + apply (inOrder_later key clock now _ Hle).
      apply (inOrder_frame key clock s); [|exact Hs].
      by rewrite Hstore, lookup_insert_ne.
  - unfold MemoryStore.reset. cbn [snd]. intros l. cbn [MemoryStore.store].
    destruct (decide (key' = key)) as [->|Hne].
    + by rewrite lookup_delete_eq.
    + rewrite lookup_delete_ne by done. apply Hs.
  - unfold MemoryStore.decrement.
    destruct (MemoryStore.store s !! key') as [data|] eqn:Hdata; [|exact Hs].
    destruct (Data.count data) as [c|].
    + intros l. cbn. destruct (decide (key' = key)) as [->|Hne].
      * rewrite lookup_insert_eq. cbn. intros Hl. apply Hs. by rewrite Hdata.
      * rewrite lookup_insert_ne by done. apply Hs.
    + destruct (Data.requests data) as [[|t requests]|] eqn:Hrequests; try exact Hs.
      intros l. cbn [snd MemoryStore.store].
      destruct (decide (key' = key)) as [->|Hne].
      * rewrite lookup_insert_eq. cbn [option_bind mbind option_bind Data.setRequests
          Data.requests]. intros [= <-].
        destruct (Hs (t :: requests)) as [Hsorted Hall]; [by rewrite Hdata|].
        split; [by apply (removelast_StronglySorted (t :: requests))
               |by apply (removelast_Forall _ (t :: requests))].
      * rewrite lookup_insert_ne by done. apply Hs.
  - unfold MemoryStore.timerFires.
    destruct (MemoryStore.timers s !! key') as [[delay [|]]|]; try exact Hs.
    intros l. cbn. destruct (decide (key' = key)) as [->|Hne].
    + by rewrite lookup_delete_eq.
    + rewrite lookup_delete_ne by done. apply Hs.
  - destruct Hordered as [Hne _].
    apply (inOrder_frame key clock s); [|exact Hs].
    unfold MemoryStore.set. cbn. by rewrite lookup_insert_ne.
Qed.

Lemma ordered_cons (key : string) (clock : Q) (e : Trace.event) (es : list Trace.event) :
  Trace.ordered key clock (e :: es) ↔
  Trace.ordered key clock [e] ∧ Trace.ordered key (Trace.clockAfter clock [e]) es.
Proof.
  destruct e; cbn; tauto.
Qed.

Lemma clockAfter_cons (clock : Q) (e : Trace.event) (es : list Trace.event) :
  Trace.clockAfter clock (e :: es) = Trace.clockAfter (Trace.clockAfter clock [e]) es.
Proof. by destruct e. Qed.

Lemma run_inOrder (key : string) (es : list Trace.event) :
  ∀ clock s,
    Trace.inOrder key clock s →
    Trace.ordered key clock es →
    Trace.inOrder key (Trace.clockAfter clock es) (Trace.run es s).
Proof.
  induction es as [|e es IH]; intros clock s Hs Hordered; [exact Hs|].
  apply ordered_cons in Hordered as [He Hes].
  change (Trace.run (e :: es) s) with (Trace.run es (Trace.step s e)).
  rewrite clockAfter_cons.
  apply IH; [by apply step_inOrder|exact Hes].
Qed.

Lemma ordered_app (key : string) (es es' : list Trace.event) :
  ∀ clock,
    Trace.ordered key clock (es ++ es') →
    Trace.ordered key clock es ∧ Trace.ordered key (Trace.clockAfter clock es) es'.
Proof.
  induction es as [|e es IH]; intros clock; [by cbn|].
  cbn [app]. intros Hordered. apply ordered_cons in Hordered as [He Hes].
  destruct (IH _ Hes) as [Hes1 Hes2].
  split; [by apply ordered_cons|]. by rewrite clockAfter_cons.
Qed.

(** C10. In an in-memory store where [key] is used by the sliding window
    only and the clock does not go back, the timestamps stored for [key]
    right after a [check] at [now] are a non-empty list that ends with
    [now], is sorted, and holds only [t] with [now - windowMs < t <= now]. *)
Theorem sliding_window_history (key : string) (es : list Trace.event)
    (options : Algorithm.Options) (now : Q) :
  Trace.ordered key 0 (es ++ [Trace.Check key options now]) →
  ∃ older,
    MemoryStore.store (Trace.run (es ++ [Trace.Check key options now]) MemoryStore.new)
      !! key ≫= Data.requests = Some (older ++ [now])
    ∧ older ++ [now] ≠ []
    ∧ Sorted Qle (older ++ [now])
    ∧ ∀ t, In t (older ++ [now]) → now - Algorithm.windowMs options < t ∧ t <= now.
Proof.
  intros Hordered. apply ordered_app in Hordered as [Hes Hcheck].
  assert (Hnew : Trace.inOrder key 0 MemoryStore.new).
  { intros l. cbn [MemoryStore.new MemoryStore.store]. by rewrite lookup_empty. }
  pose proof (run_inOrder key es 0 MemoryStore.new Hnew Hes) as Hs.
  unfold Trace.run. rewrite fold_left_app. fold (Trace.run es MemoryStore.new).
  set (s := Trace.run es MemoryStore.new) in *.
  set (clock := Trace.clockAfter 0 es) in *.
  cbn [fold_left Trace.step]. destruct Hcheck as (HW & Hnow & Hle & _).
  destruct (sliding_check_store key options now s HW Hnow) as (data & Hstore & Hdata).
  rewrite Hstore, lookup_insert_eq. cbn. rewrite Hdata.
  destruct (stored_inOrder key clock s Hs) as [Hsorted Hall].
  destruct (retained_inOrder (Sliding.stored s key) (Algorithm.windowMs options)
              clock now Hle Hsorted Hall) as [Hsorted' Hall'].
  eexists. split; [reflexivity|]. split; [by destruct (Sliding.retained _ _ _)|].
  split; [by apply StronglySorted_Sorted|].
  intros t Ht. split; [|by apply (proj1 (List.Forall_forall _ _) Hall')].
  apply List.in_app_iff in Ht as [Ht|[<-|[]]]; [|lra].
  by apply retained_In in Ht as [_ Ht].
Qed.

Lemma sliding_window_history_witness :
  ∃ older,
    MemoryStore.store
      (Trace.run (Examples.history ++ [Trace.Check "k" (Examples.options 1500 5) 2600])
         MemoryStore.new) !! "k" ≫= Data.requests = Some (older ++ [2600])
    ∧ Sorted Qle (older ++ [2600]).
Proof.
  destruct (sliding_window_history "k" Examples.history (Examples.options 1500 5) 2600)
    as (older & Hstored & _ & Hsorted & _).
  - vm_compute. repeat split; discriminate.
  - by exists older.
Defined.

(** * Further properties of the code *)

(** ** The in-memory store: values and timers *)

(** X1. [set(key, value, ttl)] with a positive [ttl] makes [get(key)]
    return [value]; when the timer of the key fires, the key is gone, no
    timer is left for it, and the other keys are as before the [set]. *)
Theorem memory_set_expires (key : string) (value : Data.t) (ttl : Q) (s : MemoryStore.t) :
  0 < ttl →
  let s1 := snd (MemoryStore.set key value (Some ttl) s) in
  fst (MemoryStore.get key s1) = Ok (Some value)
  ∧ fst (MemoryStore.get key (MemoryStore.timerFires key s1)) = Ok None
  ∧ MemoryStore.timers (MemoryStore.timerFires key s1) !! key = None
  ∧ ∀ other, other ≠ key →
      MemoryStore.store (MemoryStore.timerFires key s1) !! other
      = MemoryStore.store s !! other.
Proof.
  intros Httl s1. subst s1. rewrite (memory_set_ttl key value ttl s Httl).
  unfold MemoryStore.get, MemoryStore.timerFires. cbn.
  rewrite !lookup_insert_eq. cbn. rewrite !lookup_delete_eq.
  repeat split. intros other Hne.
  by rewrite lookup_delete_ne, lookup_insert_ne.
Qed.

Lemma memory_set_expires_witness :
  fst (MemoryStore.get "k"
         (MemoryStore.timerFires "k"
            (snd (MemoryStore.set "k" (Data.ofCount 3) (Some 5000) MemoryStore.new))))
  = Ok None.
Proof.
  apply (memory_set_expires "k" (Data.ofCount 3) 5000 MemoryStore.new). reflexivity.
Defined.

(** X2. A [set] cancels the timer that an earlier [set] of the same key
    scheduled: after [set(key, v1, ttl1)] and then [set(key, v2)] without a
    [ttl] (or with [ttl = 0]), no timer removes the key any more, and
    [get(key)] returns [v2]. *)
Theorem memory_set_cancels_timer (key : string) (v1 v2 : Data.t) (ttl1 ttl2 : option Q)
    (s : MemoryStore.t) :
  JS.truthy ttl2 = false →
  let s2 := snd (MemoryStore.set key v2 ttl2 (snd (MemoryStore.set key v1 ttl1 s))) in
  MemoryStore.timerFires key s2 = s2
  ∧ fst (MemoryStore.get key s2) = Ok (Some v2).
Proof.
  intros Hfalsy s2. subst s2. unfold MemoryStore.set, MemoryStore.timerFires, MemoryStore.get.
  cbn [snd fst MemoryStore.store MemoryStore.timers].
  split; [|by rewrite lookup_insert_eq].
  assert (Hcleared : ∀ timers : gmap string MemoryStore.Timer,
            match alter MemoryStore.clearTimeout key timers !! key with
            | Some tm => MemoryStore.cleared tm = true
            | None => True
            end).
  { intros timers. rewrite lookup_alter_eq. by destruct (timers !! key). }
  destruct ttl2 as [d|]; [rewrite Hfalsy|].
  - specialize (Hcleared
      (match ttl1 with
       | Some d1 =>
           if JS.truthy ttl1
           then <[key:=MemoryStore.mkTimer d1 false]>
                  (alter MemoryStore.clearTimeout key (MemoryStore.timers s))
           else alter MemoryStore.clearTimeout key (MemoryStore.timers s)
       | None => alter MemoryStore.clearTimeout key (MemoryStore.timers s)
       end)).
    destruct (alter MemoryStore.clearTimeout key _ !! key) as [tm|]; [|done].
    by rewrite Hcleared.
  - specialize (Hcleared
      (match ttl1 with
       | Some d1 =>
           if JS.truthy ttl1
           then <[key:=MemoryStore.mkTimer d1 false]>
                  (alter MemoryStore.clearTimeout key (MemoryStore.timers s))
           else alter MemoryStore.clearTimeout key (MemoryStore.timers s)
       | None => alter MemoryStore.clearTimeout key (MemoryStore.timers s)
       end)).
    destruct (alter MemoryStore.clearTimeout key _ !! key) as [tm|]; [|done].
    by rewrite Hcleared.
Qed.

Lemma memory_set_cancels_timer_witness :
  fst (MemoryStore.get "k"
         (MemoryStore.timerFires "k"
            (snd (MemoryStore.set "k" (Data.ofCount 2) None
                    (snd (MemoryStore.set "k" (Data.ofCount 1) (Some 5000)
                            MemoryStore.new))))))
  = Ok (Some (Data.ofCount 2)).
Proof.
  destruct (memory_set_cancels_timer "k" (Data.ofCount 1) (Data.ofCount 2) (Some 5000) None
              MemoryStore.new) as [Hfires Hget].
  - reflexivity.
  - by rewrite Hfires.
Defined.

(** Every key with a timer has a record. *)
Lemma set_keeps_timers_in_store (key : string) (value : Data.t) (ttl : option Q)
    (s : MemoryStore.t) :
  (∀ k, is_Some (MemoryStore.timers s !! k) → is_Some (MemoryStore.store s !! k)) →
  ∀ k, is_Some (MemoryStore.timers (snd (MemoryStore.set key value ttl s)) !! k) →
       is_Some (MemoryStore.store (snd (MemoryStore.set key value ttl s)) !! k).
Proof.
  intros Hs k. destruct (decide (key = k)) as [<-|Hne].
  - intros _. unfold MemoryStore.set. cbn. rewrite lookup_insert_eq. by eexists.
  - destruct (memory_set_frame key k value ttl s Hne) as [-> ->]. apply Hs.
Qed.

Lemma increment_keeps_timers_in_store (key : string) (options : Store.IncrementOptions)
    (s : MemoryStore.t) :
  (∀ k, is_Some (MemoryStore.timers s !! k) → is_Some (MemoryStore.store s !! k)) →
  ∀ k, is_Some (MemoryStore.timers (snd (MemoryStore.increment key options s)) !! k) →
       is_Some (MemoryStore.store (snd (MemoryStore.increment key options s)) !! k).
Proof.
  intros Hs. unfold MemoryStore.increment, MemoryStore.incrementVia, mbind, M_bind.
  destruct (MemoryStore.store s !! key) as [data|];
    destruct (Store.timestamp options) as [ts|];
    try destruct (JS.truthy (Some ts));
    match goal with
    | |- context [MemoryStore.set key ?v ?ttl s] =>
        pose proof (set_keeps_timers_in_store key v ttl s Hs) as Hkept;
        destruct (MemoryStore.set key v ttl s) as [[[]|e] s']; exact Hkept
    end.
Qed.

(** X3. In every history of an in-memory store that starts empty (checks
    of the sliding window, resets, decrements, timers firing, writes), a
    key that has a timer also has a record: no timer is left behind for a
    key that was reset or has expired. *)
Theorem timers_have_records (es : list Trace.event) (key : string) :
  is_Some (MemoryStore.timers (Trace.run es MemoryStore.new) !! key) →
  is_Some (MemoryStore.store (Trace.run es MemoryStore.new) !! key).
Proof.
  revert key. unfold Trace.run.
  assert (Hnew : ∀ k, is_Some (MemoryStore.timers MemoryStore.new !! k) →
                      is_Some (MemoryStore.store MemoryStore.new !! k)).
  { intros k. cbn. rewrite lookup_empty. by intros [? ?]. }
  revert Hnew. generalize MemoryStore.new as s.
  induction es as [|e es IH]; intros s Hs; [exact Hs|].
  cbn [fold_left]. apply IH. clear IH.
  destruct e as [key options now|key|key|key|key value ttl]; cbn [Trace.step].
  - unfold SlidingWindow.check, mbind, M_bind.
    cbn [Store.get Store.set Store.increment MemoryStore.ops MemoryStore.get].
    destruct (option_bind _ _ Data.requests (MemoryStore.store s !! key)) as [requests|].
    + match goal with
      | |- context [MemoryStore.set key ?v ?ttl s] =>
          pose proof (set_keeps_timers_in_store key v ttl s Hs) as Hkept;
          destruct (MemoryStore.set key v ttl s) as [[[]|e] s']; exact Hkept
      end.
    + match goal with
      | |- context [MemoryStore.increment key ?o s] =>
          pose proof (increment_keeps_timers_in_store key o s Hs) as Hkept;
          destruct (MemoryStore.increment key o s) as [[c|e] s']; exact Hkept
      end.
  - intros k. unfold MemoryStore.reset. cbn.
    destruct (decide (key = k)) as [<-|Hne].
    + rewrite lookup_delete_eq. by intros [? ?].
    + rewrite !lookup_delete_ne by done. apply Hs.
  - assert (Hinsert : ∀ data' k,
              is_Some (MemoryStore.timers s !! k) →
              is_Some (<[key := data']> (MemoryStore.store s) !! k)).
    { intros data' k Hk. apply lookup_insert_is_Some'. right. by apply Hs. }
    unfold MemoryStore.decrement.
    destruct (MemoryStore.store s !! key) as [data|]; [|exact Hs].
    destruct (Data.count data) as [c|]; [intros k; apply Hinsert|].
    destruct (Data.requests data) as [[|t l]|]; try exact Hs.
    intros k. apply Hinsert.
  - intros k. unfold MemoryStore.timerFires.
    destruct (MemoryStore.timers s !! key) as [[delay [|]]|]; try apply Hs.
    cbn. destruct (decide (key = k)) as [<-|Hne].
    + rewrite lookup_delete_eq. by intros [? ?].
    + rewrite !lookup_delete_ne by done. apply Hs.
  - by apply set_keeps_timers_in_store.
Qed.

Lemma timers_have_records_witness :
  let es := [Trace.Write "a" (Data.ofCount 1) (Some 1000);
             Trace.Check "b" (Examples.options 60000 2) 1000;
             Trace.Reset "a";
             Trace.Check "b" (Examples.options 60000 2) 2000] in
  is_Some (MemoryStore.timers (Trace.run es MemoryStore.new) !! "b")
  ∧ is_Some (MemoryStore.store (Trace.run es MemoryStore.new) !! "b").
Proof.
  intros es.
  assert (Htimer : is_Some (MemoryStore.timers (Trace.run es MemoryStore.new) !! "b")).
  { eexists. vm_compute. reflexivity. }
  split; [exact Htimer|]. exact (timers_have_records es "b" Htimer).
Defined.

(** X4. [reset(key)] forgets the key and its timer: [get(key)] returns
    nothing and a timer firing for the key changes nothing.  [resetAll()]
    does so for every key, and leaves [size() = 0]. *)
Theorem memory_reset_forgets (key : string) (s : MemoryStore.t) :
  (fst (MemoryStore.get key (snd (MemoryStore.reset key s))) = Ok None
   ∧ MemoryStore.timerFires key (snd (MemoryStore.reset key s))
     = snd (MemoryStore.reset key s))
  ∧ (fst (MemoryStore.get key (snd (MemoryStore.resetAll s))) = Ok None
     ∧ MemoryStore.timerFires key (snd (MemoryStore.resetAll s))
       = snd (MemoryStore.resetAll s)
     ∧ MemoryStore.size (snd (MemoryStore.resetAll s)) = 0%nat).
Proof.
  unfold MemoryStore.get, MemoryStore.reset, MemoryStore.resetAll, MemoryStore.timerFires,
    MemoryStore.size.
  cbn. rewrite !lookup_delete_eq, !lookup_empty. repeat split.
Qed.

(** ** The in-memory store: counters *)

(** [increment(key, { windowMs })] on a key that holds the counter [c]. *)
Lemma memory_increment_counter (key : string) (windowMs : option Q) (data : Data.t)
    (s : MemoryStore.t) :
  MemoryStore.store s !! key = Some data →
  let c := (if JS.truthy (Data.count data) then default 0 (Data.count data) else 0) + 1 in
  fst (MemoryStore.increment key (Store.mkIncrementOptions windowMs None) s) = Ok c
  ∧ MemoryStore.store (snd (MemoryStore.increment key (Store.mkIncrementOptions windowMs None) s))
      !! key = Some (Data.setCount c data).
Proof.
  intros Hdata c. unfold MemoryStore.increment, MemoryStore.incrementVia, mbind, M_bind.
  rewrite Hdata. cbn. by rewrite lookup_insert_eq.
Qed.

Lemma memory_increment_first (key : string) (windowMs : option Q) (s : MemoryStore.t) :
  MemoryStore.store s !! key = None →
  fst (MemoryStore.increment key (Store.mkIncrementOptions windowMs None) s) = Ok 1
  ∧ MemoryStore.store (snd (MemoryStore.increment key (Store.mkIncrementOptions windowMs None) s))
      !! key = Some (Data.ofCount 1).
Proof.
  intros Hdata. unfold MemoryStore.increment, MemoryStore.incrementVia, mbind, M_bind.
  rewrite Hdata. cbn. by rewrite lookup_insert_eq.
Qed.

(** [(data.count || 0) + 1] is the counter plus one. *)
Lemma count_or_zero (c : Q) : (if JS.truthy (Some c) then c else 0) + 1 == c + 1.
Proof.
  cbn. destruct (Qeq_bool c 0) eqn:Hc; cbn; [|reflexivity].
  apply Qeq_bool_iff in Hc. by rewrite Hc.
Qed.

Lemma inject_succ (n : nat) : inject_Z (Z.of_nat n) + 1 == inject_Z (Z.of_nat (S n)).
Proof.
  rewrite Nat2Z.inj_succ. unfold Z.succ. by rewrite inject_Z_plus.
Qed.

Lemma increments_count (key : string) (windowMs : option Q) (s : MemoryStore.t) (n : nat) :
  MemoryStore.store s !! key = None →
  ∃ data c,
    MemoryStore.store (History.increments (S n) key windowMs s) !! key = Some data
    ∧ Data.count data = Some c
    ∧ c == inject_Z (Z.of_nat (S n)).
Proof.
  intros Hnone. induction n as [|n (data & c & Hdata & Hcount & Hc)].
  - destruct (memory_increment_first key windowMs s Hnone) as [_ Hstore].
    exists (Data.ofCount 1), 1. done.
  - change (History.increments (S (S n)) key windowMs s)
      with (snd (MemoryStore.increment key (Store.mkIncrementOptions windowMs None)
                   (History.increments (S n) key windowMs s))).
    destruct (memory_increment_counter key windowMs data _ Hdata) as [_ Hstore].
    eexists _, _. split; [exact Hstore|]. split; [reflexivity|].
    rewrite Hcount. cbn [default]. rewrite count_or_zero, Hc. apply inject_succ.
Qed.

(** X5. Counting in the in-memory store: on a key that is absent, the
    [n]-th call of [increment(key, { windowMs })] returns [n], so
    consecutive calls return 1, 2, 3, and so on. *)
Theorem memory_increment_counts (key : string) (windowMs : option Q) (s : MemoryStore.t)
    (n : nat) :
  MemoryStore.store s !! key = None →
  ∃ c,
    fst (MemoryStore.increment key (Store.mkIncrementOptions windowMs None)
           (History.increments n key windowMs s)) = Ok c
    ∧ c == inject_Z (Z.of_nat (S n)).
Proof.
  intros Hnone. destruct n as [|n].
  - destruct (memory_increment_first key windowMs s Hnone) as [Hfirst _].
    exists 1. done.
  - destruct (increments_count key windowMs s n Hnone) as (data & c & Hdata & Hcount & Hc).
    destruct (memory_increment_counter key windowMs data _ Hdata) as [Hnext _].
    eexists. split; [exact Hnext|].
    rewrite Hcount. cbn [default]. rewrite count_or_zero, Hc. apply inject_succ.
Qed.

Lemma memory_increment_counts_witness :
  ∃ c,
    fst (MemoryStore.increment "counter" (Store.mkIncrementOptions (Some 60000) None)
           (History.increments 2 "counter" (Some 60000) MemoryStore.new)) = Ok c
    ∧ c == 3.
Proof.
  apply (memory_increment_counts "counter" (Some 60000) MemoryStore.new 2). reflexivity.
Defined.

(** X6. [decrement] undoes one [increment] of a counter: after
    [increment(key, { windowMs })] and then [decrement(key)], the key holds
    the count it had before, zero if it had none (the key exists afterwards
    even if it was absent), and the timer that [increment] scheduled is
    still the one in place.  The counter is not negative. *)
Theorem memory_decrement_undoes_increment (key : string) (windowMs : option Q)
    (s : MemoryStore.t) :
  let before := default 0 (MemoryStore.store s !! key ≫= Data.count) in
  let s1 := snd (MemoryStore.increment key (Store.mkIncrementOptions windowMs None) s) in
  let s2 := snd (MemoryStore.decrement key s1) in
  0 <= before →
  (∃ data c, MemoryStore.store s2 !! key = Some data
     ∧ Data.count data = Some c
     ∧ c == before)
  ∧ MemoryStore.timers s2 = MemoryStore.timers s1.
Proof.
  intros before s1 s2 Hbefore. subst s1 s2 before.
  destruct (MemoryStore.store s !! key) as [data|] eqn:Hdata.
  - destruct (memory_increment_counter key windowMs data s Hdata) as [_ Hstore].
    cbn [default mbind option_bind] in Hbefore |- *.
    destruct (memory_decrement_counter key _ _ _ Hstore eq_refl) as (-> & _ & Hpos & _).
    cbn [snd MemoryStore.store MemoryStore.timers]. split; [|reflexivity].
    rewrite lookup_insert_eq. eexists _, _. split; [reflexivity|]. split; [reflexivity|].
    rewrite Hpos.
    + destruct (Data.count data) as [c|]; cbn [default]; [rewrite count_or_zero|]; cbn; lra.
    + destruct (Data.count data) as [c|]; cbn [default] in *; [rewrite count_or_zero|];
        cbn in *; lra.
  - destruct (memory_increment_first key windowMs s Hdata) as [_ Hstore].
    destruct (memory_decrement_counter key _ _ _ Hstore eq_refl) as (-> & _ & Hpos & _).
    cbn [snd MemoryStore.store MemoryStore.timers]. split; [|reflexivity].
    rewrite lookup_insert_eq. eexists _, _. split; [reflexivity|]. split; [reflexivity|].
    rewrite Hpos; cbn; lra.
Qed.

Lemma memory_decrement_undoes_increment_witness :
  ∃ data c,
    MemoryStore.store
      (snd (MemoryStore.decrement "k"
              (snd (MemoryStore.increment "k" (Store.mkIncrementOptions (Some 60000) None)
                      (History.increments 2 "k" (Some 60000) MemoryStore.new)))))
      !! "k" = Some data
    ∧ Data.count data = Some c
    ∧ c == 2.
Proof.
  destruct (memory_decrement_undoes_increment "k" (Some 60000)
              (History.increments 2 "k" (Some 60000) MemoryStore.new))
    as [(data & c & Hdata & Hcount & Hc) _].
  - vm_compute. discriminate.
  - exists data, c. split; [exact Hdata|]. split; [exact Hcount|]. exact Hc.
Defined.

(** X7. In sliding-window mode [decrement] removes the timestamp that the
    last [increment(key, { timestamp, windowMs })] appended: the list of
    the key is the one it had before, empty if it had none.  The key holds
    no counter, and the timestamp is not zero. *)
Theorem memory_decrement_removes_timestamp (key : string) (windowMs : option Q) (ts : Q)
    (s : MemoryStore.t) :
  let s1 := snd (MemoryStore.increment key (Store.mkIncrementOptions windowMs (Some ts)) s) in
  let s2 := snd (MemoryStore.decrement key s1) in
  MemoryStore.store s !! key ≫= Data.count = None →
  ¬ ts == 0 →
  Sliding.stored s1 key = Sliding.stored s key ++ [ts]
  ∧ MemoryStore.store s2 !! key ≫= Data.requests = Some (Sliding.stored s key).
Proof.
  intros s1 s2 Hcount Hts. subst s1 s2.
  assert (Htruthy : negb (Qeq_bool ts 0) = true).
  { apply negb_true_iff, not_true_iff_false. by rewrite Qeq_bool_iff. }
  unfold Sliding.stored, MemoryStore.increment, MemoryStore.incrementVia, mbind, M_bind.
  cbn [Store.timestamp Store.windowMs JS.truthy]. rewrite Htruthy.
  destruct (MemoryStore.store s !! key) as [data|] eqn:Hdata; cbn in Hcount |- *.
  - rewrite lookup_insert_eq. cbn. split; [reflexivity|].
    unfold MemoryStore.decrement. cbn. rewrite lookup_insert_eq. cbn. rewrite Hcount.
    destruct (default [] (Data.requests data) ++ [ts]) as [|t l] eqn:Happ.
    + by destruct (default [] (Data.requests data)).
    + cbn [snd MemoryStore.store]. rewrite lookup_insert_eq. cbn [mbind option_bind
        Data.requests Data.setRequests]. f_equal. rewrite <- Happ. apply removelast_last.
  - rewrite lookup_insert_eq. cbn. split; [reflexivity|].
    unfold MemoryStore.decrement. cbn. rewrite lookup_insert_eq. cbn.
    by rewrite lookup_insert_eq.
Qed.

Lemma memory_decrement_removes_timestamp_witness :
  MemoryStore.store
    (snd (MemoryStore.decrement "k"
            (snd (MemoryStore.increment "k" (Store.mkIncrementOptions (Some 60000) (Some 3000))
                    Examples.twoRequests))))
    !! "k" ≫= Data.requests = Some [1000; 2000].
Proof.
  destruct (memory_decrement_removes_timestamp "k" (Some 60000) 3000 Examples.twoRequests)
    as [_ Hafter].
  - reflexivity.
  - discriminate.
  - exact Hafter.
Defined.

(** ** The fixed window *)

(** X8. A fixed-window [check] that returns does one [increment] of the
    store key [`${key}:${windowKey}`] and reports its count; [resetTime] is
    the end of the window that contains [now]: [resetTime - windowMs <= now
    < resetTime].  The window is positive. *)
Theorem fixed_window_check {S : Type} {ops : Store.Ops S} (key : string)
    (options : Algorithm.Options) (now : Q) (s s' : S) (r : Algorithm.Result) :
  let windowMs := Algorithm.windowMs options in
  0 < windowMs →
  FixedWindow.check key options now s = (Ok r, s') →
  Store.increment (FixedWindow.fullKey key now windowMs)
    (Store.mkIncrementOptions (Some windowMs) None) s = (Ok (Algorithm.count r), s')
  ∧ ∃ resetTime,
      Algorithm.resetTime r = Num resetTime
      ∧ resetTime == (inject_Z (FixedWindow.windowKey now windowMs) + 1) * windowMs
      ∧ resetTime - windowMs <= now
      ∧ now < resetTime.
Proof.
  intros windowMs HW. unfold FixedWindow.check, mbind, M_bind. fold windowMs.
  destruct (Store.increment _ _ s) as [[c|e] s1]; [|discriminate].
  intros [= <- <-]. split; [reflexivity|].
  eexists. split; [reflexivity|]. split; [reflexivity|].
  split; [|by apply window_end_after_now].
  unfold FixedWindow.windowKey.
  pose proof (Qfloor_le (now / windowMs)) as Hfloor.
  assert (Hnow : now == now / windowMs * windowMs) by (field; lra).
  assert (Hle : inject_Z (Qfloor (now / windowMs)) * windowMs <= now / windowMs * windowMs).
  { apply Qmult_le_r; [exact HW|exact Hfloor]. }
  lra.
Qed.

Lemma fixed_window_check_witness :
  ∃ resetTime,
    Algorithm.resetTime
      (Algorithm.mkResult 1 (Num ((inject_Z (FixedWindow.windowKey 1500 1000) + 1) * 1000)))
    = Num resetTime
    ∧ resetTime - 1000 <= 1500
    ∧ 1500 < resetTime.
Proof.
  destruct (fixed_window_check (ops := MemoryStore.ops) "a" (Examples.options 1000 5) 1500
              MemoryStore.new
              (snd (FixedWindow.check "a" (Examples.options 1000 5) 1500 MemoryStore.new))
              (Algorithm.mkResult 1
                 (Num ((inject_Z (FixedWindow.windowKey 1500 1000) + 1) * 1000))))
    as (_ & resetTime & Hreset & _ & Hfrom & Hto).
  - reflexivity.
  - vm_compute. reflexivity.
  - by exists resetTime.
Defined.

(** On the in-memory store a fixed-window [check] is an [increment] of the
    key of its window. *)
Lemma fixed_check_increments (key : string) (options : Algorithm.Options) (now : Q)
    (s : MemoryStore.t) :
  let fullKey := FixedWindow.fullKey key now (Algorithm.windowMs options) in
  let inc := Store.mkIncrementOptions (Some (Algorithm.windowMs options)) None in
  snd (FixedWindow.check key options now s) = snd (MemoryStore.increment fullKey inc s)
  ∧ ∀ c, fst (MemoryStore.increment fullKey inc s) = Ok c →
         ∃ r, fst (FixedWindow.check key options now s) = Ok r ∧ Algorithm.count r = c.
Proof.
  intros fullKey inc. unfold FixedWindow.check, mbind, M_bind.
  cbn [Store.increment MemoryStore.ops]. fold fullKey inc.
  destruct (MemoryStore.increment fullKey inc s) as [[c|e] s1]; cbn.
  - split; [reflexivity|]. intros c' [= <-]. by eexists.
  - split; [reflexivity|]. discriminate.
Qed.

Lemma after_cons {S : Type} {ops : Store.Ops S} (algo : AlgorithmName) (key : string)
    (options : Algorithm.Options) (t : Q) (times : list Q) (s : S) :
  History.after algo key options (t :: times) s
  = History.after algo key options times (snd (Algorithms.check algo key options t s)).
Proof. reflexivity. Qed.

Lemma after_fixed_in_window (key : string) (options : Algorithm.Options) (w : Z)
    (times : list Q) (s : MemoryStore.t) :
  List.Forall (λ t, FixedWindow.windowKey t (Algorithm.windowMs options) = w) times →
  History.after FixedWindowAlgorithm key options times s
  = History.increments (List.length times) (key +:+ ":" +:+ pretty w)
      (Some (Algorithm.windowMs options)) s.
Proof.
  revert s. induction times as [|t times IH]; intros s Hall; [reflexivity|].
  apply List.Forall_cons_iff in Hall as [Ht Hall].
  rewrite after_cons. cbn [Algorithms.check].
  destruct (fixed_check_increments key options t s) as [-> _].
  unfold FixedWindow.fullKey. rewrite Ht.
  rewrite IH by exact Hall.
  unfold History.increments. cbn [List.length]. by rewrite Nat.iter_succ_r.
Qed.

(** X9. Counting in one fixed window, on the in-memory store: when no
    counter exists yet for the window, the [check] that follows [n] checks
    of the same key in that window reports [count = n + 1]. *)
Theorem fixed_window_counts (key : string) (options : Algorithm.Options) (times : list Q)
    (now : Q) (s : MemoryStore.t) :
  let windowMs := Algorithm.windowMs options in
  List.Forall (λ t, FixedWindow.windowKey t windowMs = FixedWindow.windowKey now windowMs)
    times →
  MemoryStore.store s !! FixedWindow.fullKey key now windowMs = None →
  ∃ r,
    fst (FixedWindow.check key options now
           (History.after FixedWindowAlgorithm key options times s)) = Ok r
    ∧ Algorithm.count r == inject_Z (Z.of_nat (S (List.length times))).
Proof.
  intros windowMs Hall Hnone.
  rewrite (after_fixed_in_window key options _ times s Hall).
  set (n := List.length times).
  destruct (fixed_check_increments key options now
              (History.increments n (key +:+ ":" +:+ pretty (FixedWindow.windowKey now windowMs))
                 (Some windowMs) s)) as [_ Hcount].
  fold windowMs in Hcount.
  change (key +:+ ":" +:+ pretty (FixedWindow.windowKey now windowMs))
    with (FixedWindow.fullKey key now windowMs) in *.
  destruct n as [|n].
  - destruct (memory_increment_first _ (Some windowMs) s Hnone) as [Hfirst _].
    destruct (Hcount 1 Hfirst) as (r & Hr & Hc). exists r. split; [exact Hr|by rewrite Hc].
  - destruct (increments_count _ (Some windowMs) s n Hnone)
      as (data & c & Hdata & Hdatacount & Hc).
    destruct (memory_increment_counter _ (Some windowMs) data _ Hdata) as [Hnext _].
    destruct (Hcount _ Hnext) as (r & Hr & Hrc). exists r. split; [exact Hr|].
    rewrite Hrc, Hdatacount. cbn [default]. rewrite count_or_zero, Hc. apply inject_succ.
Qed.

Lemma fixed_window_counts_witness :
  ∃ r,
    fst (FixedWindow.check "a" (Examples.options 1000 5) 1900
           (History.after FixedWindowAlgorithm "a" (Examples.options 1000 5) [1100; 1500]
              MemoryStore.new)) = Ok r
    ∧ Algorithm.count r == 3.
Proof.
  apply (fixed_window_counts "a" (Examples.options 1000 5) [1100; 1500] 1900 MemoryStore.new).
  - repeat constructor.
  - reflexivity.
Defined.

(** Different windows of one key have different store keys. *)
Lemma fullKey_window (key : string) (t1 t2 windowMs : Q) :
  FixedWindow.fullKey key t1 windowMs = FixedWindow.fullKey key t2 windowMs →
  FixedWindow.windowKey t1 windowMs = FixedWindow.windowKey t2 windowMs.
Proof.
  unfold FixedWindow.fullKey. intros Heq.
  apply (inj (String.app key)) in Heq. apply (inj (String.app ":")) in Heq.
  by apply (inj pretty) in Heq.
Qed.

(** X10. Every fixed window is a fresh counter, on the in-memory store:
    checks of the key in other windows do not reach the counter of the
    window of [now], so when that counter does not exist yet the [check] at
    [now] reports [count = 1]. *)
Theorem fixed_window_starts_fresh (key : string) (options : Algorithm.Options)
    (times : list Q) (now : Q) (s : MemoryStore.t) :
  let windowMs := Algorithm.windowMs options in
  List.Forall (λ t, FixedWindow.windowKey t windowMs ≠ FixedWindow.windowKey now windowMs)
    times →
  MemoryStore.store s !! FixedWindow.fullKey key now windowMs = None →
  ∃ r,
    fst (FixedWindow.check key options now
           (History.after FixedWindowAlgorithm key options times s)) = Ok r
    ∧ Algorithm.count r = 1.
Proof.
  intros windowMs Hall Hnone. subst windowMs.
  set (windowMs := Algorithm.windowMs options) in *.
  assert (Hframe : MemoryStore.store (History.after FixedWindowAlgorithm key options times s)
                     !! FixedWindow.fullKey key now windowMs = None).
  { revert s Hnone. induction times as [|t times IH]; intros s Hnone; [exact Hnone|].
    apply List.Forall_cons_iff in Hall as [Ht Hall].
    rewrite after_cons. apply IH; [exact Hall|]. cbn [Algorithms.check].
    destruct (fixed_check_increments key options t s) as [-> _]. fold windowMs.
    destruct (memory_increment_frame (FixedWindow.fullKey key t windowMs)
                (FixedWindow.fullKey key now windowMs)
                (Store.mkIncrementOptions (Some windowMs) None) s) as [-> _]; [|exact Hnone].
    intros Heq. by apply Ht, (fullKey_window key). }
  destruct (fixed_check_increments key options now
              (History.after FixedWindowAlgorithm key options times s)) as [_ Hcount].
  destruct (memory_increment_first _ (Some windowMs) _ Hframe) as [Hfirst _].
  exact (Hcount 1 Hfirst).
Qed.

Lemma fixed_window_starts_fresh_witness :
  ∃ r,
    fst (FixedWindow.check "a" (Examples.options 1000 5) 2100
           (History.after FixedWindowAlgorithm "a" (Examples.options 1000 5) [1100; 1500]
              MemoryStore.new)) = Ok r
    ∧ Algorithm.count r = 1.
Proof.
  apply (fixed_window_starts_fresh "a" (Examples.options 1000 5) [1100; 1500] 2100
           MemoryStore.new).
  - repeat constructor; discriminate.
  - reflexivity.
Defined.

(** ** The leaky bucket *)

Lemma leak_level (data : option Data.t) (prior : option (Q * Q)) (leakRate windowMs now : Q) :
  Leaky.waterRecord data prior →
  LeakyBucket.leak data leakRate windowMs now = Num (Leaky.level prior leakRate windowMs now).
Proof.
  destruct 1 as [|data water lastLeak Hwater HlastLeak]; cbn; [done|].
  by rewrite Hwater, HlastLeak.
Qed.

(** X11. A leaky-bucket [check] at [now], on the in-memory store, with
    capacity [C], leak rate [r] and window [W]: the stored level is lowered
    by [(now - lastLeak) / W * r], not below zero.  Below [C], one unit is
    added, [{water + 1, now}] is stored, [count = water + 1] (at least 1
    and less than [C + 1]) and [resetTime = now + (water + 1) / r * W];
    otherwise nothing is stored, [count = C + 1] and [resetTime = now +
    (water - C + 1) / r * W]. *)
Theorem leaky_bucket_check (self : MemoryStore.t) (key : string)
    (options : Algorithm.Options) (now : Q) (prior : option (Q * Q)) :
  let C := default 10 (Algorithm.capacity options) in
  let r := default 1 (Algorithm.leakRate options) in
  let W := Algorithm.windowMs options in
  let water := Leaky.level prior r W now in
  Leaky.waterRecord (MemoryStore.store self !! key) prior →
  0 <= water
  ∧ (water < C →
       ∃ self',
         LeakyBucket.check key options now self
           = (Ok (Algorithm.mkResult (water + 1) (Num (now + (water + 1) / r * W))), self')
         ∧ MemoryStore.store self' !! key = Some (Data.ofWater (water + 1) now)
         ∧ 1 <= water + 1 ∧ water + 1 < C + 1)
  ∧ (C <= water →
       LeakyBucket.check key options now self
         = (Ok (Algorithm.mkResult (C + 1) (Num (now + (water - C + 1) / r * W))), self)).
Proof.
  intros C r W water Hrecord.
  assert (Hpos : 0 <= water).
  { subst water. destruct prior as [[w l]|]; cbn; [apply Q.le_max_l|apply Qle_refl]. }
  split; [exact Hpos|].
  unfold LeakyBucket.check. fold C r W.
  unfold mbind, M_bind. cbn [Store.get MemoryStore.ops MemoryStore.get].
  rewrite (leak_level _ prior r W now Hrecord). fold water.
  split.
  - intros Hroom. apply ltb_lt in Hroom as Hb. rewrite Hb.
    cbn [Store.set MemoryStore.ops]. unfold MemoryStore.set.
    eexists. split; [reflexivity|]. cbn.
    split; [apply lookup_insert_eq|]. split; lra.
  - intros Hfull. apply ltb_ge in Hfull as ->. reflexivity.
Qed.

Lemma leaky_bucket_check_witness :
  ∃ self',
    LeakyBucket.check "k" (Examples.options 1000 5) 1500 MemoryStore.new
      = (Ok (Algorithm.mkResult (Leaky.level None 1 1000 1500 + 1)
               (Num (1500 + (Leaky.level None 1 1000 1500 + 1) / 1 * 1000))), self')
    ∧ MemoryStore.store self' !! "k"
      = Some (Data.ofWater (Leaky.level None 1 1000 1500 + 1) 1500).
Proof.
  destruct (leaky_bucket_check MemoryStore.new "k" (Examples.options 1000 5) 1500 None)
    as (_ & Hadd & _).
  - vm_compute. constructor.
  - destruct Hadd as (self' & Hcheck & Hstored & _); [reflexivity|].
    by exists self'.
Defined.

(** ** The token bucket under a burst *)

(** A token-bucket [check] at the instant of the last refill. *)
Lemma token_check_instant (key : string) (options : Algorithm.Options) (now tokens : Q)
    (s : MemoryStore.t) :
  let C := default 10 (Algorithm.capacity options) in
  0 < Algorithm.windowMs options →
  MemoryStore.store s !! key = Some (Data.ofTokens tokens now) →
  tokens <= C →
  (1 <= tokens →
     ∃ tokens' r,
       TokenBucket.check key options now s
       = (Ok r, MemoryStore.mk (<[key := Data.ofTokens tokens' now]> (MemoryStore.store s))
                  (MemoryStore.timers (snd (TokenBucket.check key options now s))))
       ∧ tokens' == tokens - 1
       ∧ Algorithm.count r == C - tokens + 1)
  ∧ (tokens < 1 →
       ∃ r, TokenBucket.check key options now s = (Ok r, s) ∧ Algorithm.count r = C + 1).
Proof.
  intros C HW Hstored Hcap.
  set (r := default 1 (Algorithm.refillRate options)).
  set (W := Algorithm.windowMs options) in *.
  set (x := Bucket.refilled (Some (tokens, now)) C r W now).
  assert (Hx : x == tokens).
  { subst x. cbn. rewrite Q.min_r.
    - field. lra.
    - assert ((now - now) / W * r == 0) as -> by (field; lra). lra. }
  unfold TokenBucket.check. fold C r W.
  unfold mbind, M_bind. cbn [Store.get Store.set MemoryStore.ops MemoryStore.get].
  rewrite Hstored.
  rewrite (refill_refilled _ (Some (tokens, now)) C r W now) by (by constructor).
  fold x. clearbody x. split.
  - intros Hone.
    assert (Hb : Qle_bool 1 x = true) by (apply Qle_bool_iff; by rewrite Hx).
    rewrite Hb. unfold MemoryStore.set. cbn.
    eexists _, _. split; [reflexivity|]. cbn. split; [by rewrite Hx|].
    rewrite Hx. ring.
  - intros Hless.
    assert (Hb : Qle_bool 1 x = false) by (apply leb_gt; by rewrite Hx).
    rewrite Hb. by eexists.
Qed.

Lemma after_snoc {S : Type} {ops : Store.Ops S} (algo : AlgorithmName) (key : string)
    (options : Algorithm.Options) (t : Q) (times : list Q) (s : S) :
  History.after algo key options (times ++ [t]) s
  = snd (Algorithms.check algo key options t (History.after algo key options times s)).
Proof. unfold History.after. by rewrite fold_left_app. Qed.

Lemma inject_nat_le (a b : nat) : (a <= b)%nat → inject_Z (Z.of_nat a) <= inject_Z (Z.of_nat b).
Proof. intros Hle. rewrite <- Zle_Qle. lia. Qed.

Lemma inject_nat_sub (a b : nat) :
  (b <= a)%nat → inject_Z (Z.of_nat (a - b)) == inject_Z (Z.of_nat a) - inject_Z (Z.of_nat b).
Proof.
  intros Hle. rewrite Nat2Z.inj_sub by exact Hle.
  unfold Z.sub. by rewrite inject_Z_plus, inject_Z_opp.
Qed.

(** The bucket after [k + 1] checks at one instant holds [n - (k + 1)]
    tokens, none once [k + 1] reaches [n]. *)
Lemma burst_tokens (key : string) (options : Algorithm.Options) (now : Q) (n : nat)
    (s : MemoryStore.t) (k : nat) :
  0 < Algorithm.windowMs options →
  default 10 (Algorithm.capacity options) == inject_Z (Z.of_nat n) →
  (0 < n)%nat →
  MemoryStore.store s !! key = None →
  ∃ tokens,
    MemoryStore.store
      (History.after TokenBucketAlgorithm key options (repeat now (S k)) s) !! key
    = Some (Data.ofTokens tokens now)
    ∧ tokens == inject_Z (Z.of_nat (n - S k)).
Proof.
  intros HW HC Hn Hnone.
  pose proof (inject_nat_le 1 n Hn) as Hone. cbn in Hone.
  induction k as [|k (tokens & Hstored & Htokens)].
  - cbn [repeat]. rewrite after_cons. cbn [History.after fold_left Algorithms.check].
    unfold TokenBucket.check, mbind, M_bind.
    cbn [Store.get Store.set MemoryStore.ops MemoryStore.get].
    rewrite Hnone. cbn [TokenBucket.refill].
    assert (Hb : Qle_bool 1 (default 10 (Algorithm.capacity options)) = true).
    { apply Qle_bool_iff. rewrite HC. exact Hone. }
    rewrite Hb. unfold MemoryStore.set. cbn. rewrite lookup_insert_eq.
    eexists. split; [reflexivity|].
    rewrite HC, (inject_nat_sub n 1) by lia. reflexivity.
  - change (repeat now (S (S k))) with (now :: repeat now (S k)).
    rewrite repeat_cons, after_snoc. cbn [Algorithms.check].
    assert (Hcap : tokens <= default 10 (Algorithm.capacity options)).
    { rewrite Htokens, HC. apply inject_nat_le. lia. }
    destruct (token_check_instant key options now tokens _ HW Hstored Hcap)
      as [Hconsume Hdeny].
    destruct (Nat.lt_ge_cases (S k) n) as [Hlt|Hge].
    + destruct Hconsume as (tokens' & r & -> & Htokens' & _).
      { rewrite Htokens. apply (inject_nat_le 1 (n - S k)). lia. }
      cbn. rewrite lookup_insert_eq. exists tokens'. split; [reflexivity|].
      rewrite Htokens', Htokens.
      replace (n - S (S k))%nat with (n - S k - 1)%nat by lia.
      rewrite (inject_nat_sub (n - S k) 1) by lia. reflexivity.
    + assert (Hzero : tokens == 0).
      { rewrite Htokens. replace (n - S k)%nat with 0%nat by lia. reflexivity. }
      destruct Hdeny as (r & -> & _); [lra|].
      exists tokens. split; [exact Hstored|].
      rewrite Hzero. replace (n - S (S k))%nat with 0%nat by lia. reflexivity.
Qed.

(** X12. A burst against the token bucket, on the in-memory store: with a
    whole capacity of [n >= 1] tokens and a key that is absent, the checks
    made at one instant report [count = 1, 2, ..., n], and every further
    one reports the over-limit value [n + 1].  The window is positive. *)
Theorem token_bucket_burst (key : string) (options : Algorithm.Options) (now : Q)
    (n k : nat) (s : MemoryStore.t) :
  0 < Algorithm.windowMs options →
  default 10 (Algorithm.capacity options) == inject_Z (Z.of_nat n) →
  (0 < n)%nat →
  MemoryStore.store s !! key = None →
  ∃ r,
    fst (TokenBucket.check key options now
           (History.after TokenBucketAlgorithm key options (repeat now k) s)) = Ok r
    ∧ Algorithm.count r == inject_Z (Z.of_nat (S (Nat.min k n))).
Proof.
  intros HW HC Hn Hnone. destruct k as [|k].
  - cbn [repeat History.after fold_left].
    unfold TokenBucket.check, mbind, M_bind.
    cbn [Store.get Store.set MemoryStore.ops MemoryStore.get].
    rewrite Hnone. cbn [TokenBucket.refill].
    assert (Hb : Qle_bool 1 (default 10 (Algorithm.capacity options)) = true).
    { apply Qle_bool_iff. rewrite HC. apply (inject_nat_le 1 n). lia. }
    rewrite Hb. unfold MemoryStore.set. cbn. eexists. split; [reflexivity|]. cbn. ring.
  - destruct (burst_tokens key options now n s k HW HC Hn Hnone)
      as (tokens & Hstored & Htokens).
    assert (Hcap : tokens <= default 10 (Algorithm.capacity options)).
    { rewrite Htokens, HC. apply inject_nat_le. lia. }
    destruct (token_check_instant key options now tokens _ HW Hstored Hcap)
      as [Hconsume Hdeny].
    destruct (Nat.lt_ge_cases (S k) n) as [Hlt|Hge].
    + destruct Hconsume as (tokens' & r & -> & _ & Hcount).
      { rewrite Htokens. apply (inject_nat_le 1 (n - S k)). lia. }
      exists r. split; [reflexivity|].
      rewrite Hcount, HC, Htokens, (inject_nat_sub n (S k)) by lia.
      rewrite Nat.min_l by lia. rewrite <- (inject_succ (S k)). ring.
    + assert (Hzero : tokens == 0).
      { rewrite Htokens. replace (n - S k)%nat with 0%nat by lia. reflexivity. }
      destruct Hdeny as (r & -> & Hcount); [lra|].
      exists r. split; [reflexivity|].
      rewrite Hcount, HC, Nat.min_r by lia. apply inject_succ.
Qed.

Lemma token_bucket_burst_witness :
  ∃ r,
    fst (TokenBucket.check "k" (Examples.options 1000 10) 5000
           (History.after TokenBucketAlgorithm "k" (Examples.options 1000 10)
              (repeat 5000 10) MemoryStore.new)) = Ok r
    ∧ Algorithm.count r == 11.
Proof.
  apply (token_bucket_burst "k" (Examples.options 1000 10) 5000 10 10 MemoryStore.new).
  - reflexivity.
  - reflexivity.
  - lia.
  - reflexivity.
Defined.

(** ** The buckets behind the limiter *)

(** X13. The over-limit convention of the token bucket: when the quota
    that [check] resolved is the capacity in use, a decision is allowed
    exactly when the refilled bucket held at least one token (which the
    call then consumed), on the in-memory store. *)
Theorem token_bucket_allows_iff_token {Req : Type} (self : RateLimiter.t Req MemoryStore.t)
    (key : string) (ctx : RateLimiter.CheckOptions Req) (algoNow now max : Q)
    (prior : option (Q * Q)) (d : RateLimiter.RateLimitResult Req) :
  let C := default 10 (RateLimiter.o_capacity ctx) in
  let r := default 1 (RateLimiter.o_refillRate ctx) in
  let W := default (RateLimiter.windowMs (RateLimiter.options self))
             (RateLimiter.o_windowMs ctx) in
  RateLimiter.algorithm_ self = TokenBucketAlgorithm →
  RateLimiter.resolveMax self ctx = Ok max →
  C == max →
  Bucket.tokenRecord (MemoryStore.store (RateLimiter.store self) !! key) prior →
  fst (RateLimiter.check self key ctx algoNow now) = Ok d →
  (RateLimiter.allowed d = true ↔ 1 <= Bucket.refilled prior C r W algoNow).
Proof.
  intros C r W Halgo Hmax HC Hrecord. unfold RateLimiter.check.
  destruct (String.eqb key ""); [discriminate|].
  rewrite Hmax, Halgo. cbn [Algorithms.check].
  unfold TokenBucket.check, mbind, M_bind.
  cbn [Store.get Store.set MemoryStore.ops MemoryStore.get RateLimiter.algorithmOptions
       Algorithm.capacity Algorithm.refillRate Algorithm.windowMs].
  fold C r W.
  rewrite (refill_refilled _ prior C r W algoNow Hrecord).
  pose proof (refilled_le_capacity prior C r W algoNow) as Hcap.
  set (tokens := Bucket.refilled prior C r W algoNow) in *. clearbody tokens.
  destruct (Qle_bool 1 tokens) eqn:Hone.
  - unfold MemoryStore.set. cbn. intros [= <-]. cbn.
    apply Qle_bool_iff in Hone. split; [done|]. intros _.
    apply Qle_bool_iff. rewrite <- HC. lra.
  - cbn. intros [= <-]. cbn. apply leb_gt in Hone. split.
    + intros Hallowed. apply Qle_bool_iff in Hallowed. rewrite <- HC in Hallowed. lra.
    + intros Hle. lra.
Qed.

Lemma token_bucket_allows_iff_token_witness :
  ∃ d,
    Examples.decision "k" 1000 (Examples.limiter "token-bucket" TokenBucketAlgorithm 1000 10)
    = Ok d
    ∧ (RateLimiter.allowed d = true ↔ 1 <= Bucket.refilled None 10 1 1000 1000).
Proof.
  eexists. split; [vm_compute; reflexivity|].
  eapply (token_bucket_allows_iff_token
            (Examples.limiter "token-bucket" TokenBucketAlgorithm 1000 10) "k"
            RateLimiter.noOptions 1000 1000 10 None).
  - reflexivity.
  - reflexivity.
  - reflexivity.
  - vm_compute. constructor.
  - vm_compute. reflexivity.
Defined.

(** X14. The quota is not the capacity of a bucket: [check] hands [max]
    to the algorithm but no [capacity], so unless the caller of [check]
    passes one the buckets hold 10 and report at most 11.  With [max >= 11]
    no token-bucket or leaky-bucket decision is ever denied, whatever the
    store holds. *)
Theorem bucket_never_denies_large_max {Req S : Type} {ops : Store.Ops S}
    (self : RateLimiter.t Req S) (key : string) (ctx : RateLimiter.CheckOptions Req)
    (algoNow now max : Q) (d : RateLimiter.RateLimitResult Req) :
  RateLimiter.algorithm_ self = TokenBucketAlgorithm
  ∨ RateLimiter.algorithm_ self = LeakyBucketAlgorithm →
  RateLimiter.o_capacity ctx = None →
  RateLimiter.resolveMax self ctx = Ok max →
  11 <= max →
  fst (RateLimiter.check self key ctx algoNow now) = Ok d →
  RateLimiter.allowed d = true ∧ RateLimiter.current d <= 11.
Proof.
  intros Halgo Hcapacity Hmax Hlarge. unfold RateLimiter.check.
  destruct (String.eqb key ""); [discriminate|].
  rewrite Hmax.
  assert (Hcount : ∀ r s',
            Algorithms.check (RateLimiter.algorithm_ self) key
              (RateLimiter.algorithmOptions self max ctx) algoNow (RateLimiter.store self)
            = (Ok r, s') → Algorithm.count r <= 11).
  { intros r s'. unfold RateLimiter.algorithmOptions. rewrite Hcapacity.
    destruct Halgo as [-> | ->]; cbn [Algorithms.check].
    - unfold TokenBucket.check, mbind, M_bind. cbn [Algorithm.capacity default].
      destruct (Store.get key _) as [[data|e] s1]; [|discriminate].
      destruct (TokenBucket.refill _ _ _ _ _) as [|tokens]; [intros [= <- _]; cbn; lra|].
      destruct (Qle_bool 1 tokens) eqn:Hone.
      + destruct (Store.set _ _ _ s1) as [[[]|e] s2]; [|discriminate].
        intros [= <- _]. cbn. apply Qle_bool_iff in Hone. lra.
      + intros [= <- _]. cbn. lra.
    - unfold LeakyBucket.check, mbind, M_bind. cbn [Algorithm.capacity default].
      destruct (Store.get key _) as [[data|e] s1]; [|discriminate].
      destruct (LeakyBucket.leak _ _ _ _) as [|water]; [intros [= <- _]; cbn; lra|].
      destruct (JS.ltb water 10) eqn:Hroom.
      + destruct (Store.set _ _ _ s1) as [[[]|e] s2]; [|discriminate].
        intros [= <- _]. cbn. apply ltb_lt in Hroom. lra.
      + intros [= <- _]. cbn. lra. }
  destruct (Algorithms.check _ _ _ _ _) as [[r|e] store'].
  - intros [= <-]. cbn. specialize (Hcount r store' eq_refl).
    split; [|exact Hcount]. apply Qle_bool_iff. lra.
  - intros [= <-]. cbn. split; [reflexivity|discriminate].
Qed.

Lemma bucket_never_denies_large_max_witness :
  ∃ d,
    fst (RateLimiter.check
           (History.checks "k" RateLimiter.noOptions (repeat 1000 20)
              (Examples.limiter "token-bucket" TokenBucketAlgorithm 1000 100))
           "k" RateLimiter.noOptions 1000 1000) = Ok d
    ∧ RateLimiter.allowed d = true.
Proof.
  eexists. split; [vm_compute; reflexivity|].
  eapply (bucket_never_denies_large_max
            (History.checks "k" RateLimiter.noOptions (repeat 1000 20)
               (Examples.limiter "token-bucket" TokenBucketAlgorithm 1000 100))
            "k" RateLimiter.noOptions 1000 1000 100).
  - by left.
  - reflexivity.
  - reflexivity.
  - discriminate.
  - vm_compute. reflexivity.
Defined.

(** ** The sliding window over a history of checks *)

Lemma retained_app (l1 l2 : list Q) (windowMs now : Q) :
  Sliding.retained (l1 ++ l2) windowMs now
  = Sliding.retained l1 windowMs now ++ Sliding.retained l2 windowMs now.
Proof. apply List.filter_app. Qed.

(** A later window keeps nothing that an earlier one dropped. *)
Lemma retained_retained (l : list Q) (windowMs t now : Q) :
  t <= now →
  Sliding.retained (Sliding.retained l windowMs t) windowMs now
  = Sliding.retained l windowMs now.
Proof.
  intros Hle. unfold Sliding.retained.
  induction l as [|u l IH]; [reflexivity|]. cbn.
  destruct (JS.ltb (t - windowMs) u) eqn:Hearly; cbn; rewrite IH; [reflexivity|].
  destruct (JS.ltb (now - windowMs) u) eqn:Hlate; [|reflexivity].
  apply ltb_lt in Hlate. apply ltb_ge in Hearly. lra.
Qed.

Lemma stored_after_check (key : string) (options : Algorithm.Options) (now : Q)
    (s : MemoryStore.t) :
  0 < Algorithm.windowMs options →
  0 < now →
  Sliding.stored (snd (SlidingWindow.check key options now s)) key
  = Sliding.retained (Sliding.stored s key) (Algorithm.windowMs options) now ++ [now].
Proof.
  intros HW Hnow.
  destruct (sliding_check_store key options now s HW Hnow) as (data & Hstore & Hdata).
  unfold Sliding.stored at 1. rewrite Hstore, lookup_insert_eq. cbn. by rewrite Hdata.
Qed.

(** The count that a sliding-window [check] reports. *)
Lemma sliding_check_count (key : string) (options : Algorithm.Options) (now : Q)
    (s : MemoryStore.t) :
  0 < Algorithm.windowMs options →
  0 < now →
  ∃ r,
    fst (SlidingWindow.check key options now s) = Ok r
    ∧ Algorithm.count r
      == JS.length (Sliding.retained (Sliding.stored s key) (Algorithm.windowMs options) now)
         + 1.
Proof.
  intros HW Hnow.
  unfold SlidingWindow.check, Sliding.stored, Sliding.retained, mbind, M_bind.
  cbn [Store.get Store.set Store.increment MemoryStore.ops MemoryStore.get].
  destruct (MemoryStore.store s !! key) as [data|]; cbn [option_bind].
  - destruct (Data.requests data) as [requests|]; cbn [default].
    + rewrite (memory_set_ttl _ _ _ _ HW). cbn. eexists. split; reflexivity.
    + destruct (memory_increment_timestamp key _ now s HW Hnow) as [c ->].
      cbn. eexists. split; reflexivity.
  - destruct (memory_increment_timestamp key _ now s HW Hnow) as [c ->].
    cbn. eexists. split; reflexivity.
Qed.

(** After checks at [times] and then at [t], the key holds the checks of
    the window that ends at [t]. *)
Lemma stored_after_history (key : string) (options : Algorithm.Options) (s : MemoryStore.t)
    (times : list Q) :
  0 < Algorithm.windowMs options →
  MemoryStore.store s !! key = None →
  ∀ t,
    StronglySorted Qle (times ++ [t]) →
    List.Forall (λ u, 0 < u) (times ++ [t]) →
    Sliding.stored (History.after SlidingWindowAlgorithm key options (times ++ [t]) s) key
    = Sliding.retained times (Algorithm.windowMs options) t ++ [t].
Proof.
  intros HW Hnone.
  induction times as [|t' times IH] using rev_ind; intros t Hsorted Hpos.
  - cbn [app History.after fold_left Algorithms.check].
    rewrite stored_after_check; [|exact HW|by inversion Hpos].
    unfold Sliding.stored. by rewrite Hnone.
  - rewrite after_snoc. cbn [Algorithms.check].
    apply List.Forall_app in Hpos as [Hpos Ht].
    assert (Hle : t' <= t).
    { clear -Hsorted. induction times as [|u times IH]; cbn in Hsorted.
      - inversion Hsorted as [|? ? _ Hall]; subst. by inversion Hall.
      - inversion Hsorted; subst. by apply IH. }
    assert (Hprefix : StronglySorted Qle (times ++ [t'])).
    { clear -Hsorted. revert Hsorted. generalize (times ++ [t']) as l.
      induction l as [|u l IH]; cbn; intros Hsorted; [constructor|].
      inversion Hsorted as [|? ? Htail Hall]; subst.
      constructor; [by apply IH|].
      apply List.Forall_app in Hall as [Hall _]. exact Hall. }
    rewrite stored_after_check; [|exact HW|by inversion Ht].
    rewrite (IH t' Hprefix Hpos), !retained_app, (retained_retained _ _ t' t Hle).
    reflexivity.
Qed.

(** With a fixed quota, the store of a limiter after a history of checks
    is the store after the same history of its algorithm. *)
Lemma checks_store {Req S : Type} {ops : Store.Ops S} (self : RateLimiter.t Req S)
    (key : string) (ctx : RateLimiter.CheckOptions Req) (max : Q) (times : list Q) :
  key ≠ "" →
  RateLimiter.max (RateLimiter.options self) = RateLimiter.MaxNumber max →
  History.checks key ctx times self
  = RateLimiter.mk (RateLimiter.options self)
      (History.after (RateLimiter.algorithm_ self) key
         (RateLimiter.algorithmOptions self max ctx) times (RateLimiter.store self))
      (RateLimiter.algorithm_ self).
Proof.
  intros Hkey Hmax. unfold History.checks, History.after. revert self Hmax.
  induction times as [|t times IH]; intros self Hmax; [by destruct self|].
  cbn [fold_left].
  assert (Hstep : snd (RateLimiter.check self key ctx t t)
                  = RateLimiter.mk (RateLimiter.options self)
                      (snd (Algorithms.check (RateLimiter.algorithm_ self) key
                              (RateLimiter.algorithmOptions self max ctx) t
                              (RateLimiter.store self)))
                      (RateLimiter.algorithm_ self)).
  { unfold RateLimiter.check, RateLimiter.resolveMax.
    destruct (String.eqb_spec key "") as [->|_]; [done|]. rewrite Hmax.
    by destruct (Algorithms.check _ _ _ _ _) as [[r|e] store']. }
  rewrite Hstep. by rewrite IH.
Qed.

(** X15. Exact counting by the sliding window, on the in-memory store and
    with a fixed quota: after checks of a key at [times] (clock readings,
    positive and in order, the key being absent before), the [check] at
    [now] reports as [current] the number of those checks that are newer
    than [now - windowMs], plus one, and allows the request exactly when
    that number is within the quota. *)
Theorem sliding_window_counts_recent {Req : Type} (self : RateLimiter.t Req MemoryStore.t)
    (key : string) (ctx : RateLimiter.CheckOptions Req) (times : list Q) (now max : Q) :
  let W := default (RateLimiter.windowMs (RateLimiter.options self))
             (RateLimiter.o_windowMs ctx) in
  RateLimiter.algorithm_ self = SlidingWindowAlgorithm →
  RateLimiter.max (RateLimiter.options self) = RateLimiter.MaxNumber max →
  key ≠ "" →
  0 < W →
  Sorted Qle (times ++ [now]) →
  List.Forall (λ t, 0 < t) (times ++ [now]) →
  MemoryStore.store (RateLimiter.store self) !! key = None →
  ∃ d,
    fst (RateLimiter.check (History.checks key ctx times self) key ctx now now) = Ok d
    ∧ RateLimiter.current d == JS.length (History.recent times W now) + 1
    ∧ (RateLimiter.allowed d = true ↔ JS.length (History.recent times W now) + 1 <= max).
Proof.
  intros W Halgo Hmax Hkey HW Hsorted Hpos Hnone.
  rewrite (checks_store self key ctx max times Hkey Hmax), Halgo.
  set (options := RateLimiter.algorithmOptions self max ctx).
  set (s := History.after SlidingWindowAlgorithm key options times (RateLimiter.store self)).
  assert (Hnow : 0 < now).
  { apply List.Forall_app in Hpos as [_ Hpos]. by inversion Hpos. }
  assert (Hstored : Sliding.retained (Sliding.stored s key) W now = History.recent times W now).
  { subst s. destruct times as [|t times] using rev_ind.
    - unfold Sliding.stored. cbn. by rewrite Hnone.
    - apply Sorted_Qle_strongly in Hsorted.
      assert (Hle : t <= now).
      { clear -Hsorted. induction times as [|u times IH]; cbn in Hsorted.
        - inversion Hsorted as [|? ? _ Hall]; subst. by inversion Hall.
        - inversion Hsorted; subst. by apply IH. }
      assert (Hprefix : StronglySorted Qle (times ++ [t])).
      { clear -Hsorted. revert Hsorted. generalize (times ++ [t]) as l.
        induction l as [|u l IH]; cbn; intros Hsorted; [constructor|].
        inversion Hsorted as [|? ? Htail Hall]; subst.
        constructor; [by apply IH|].
        apply List.Forall_app in Hall as [Hall _]. exact Hall. }
      apply List.Forall_app in Hpos as [Hpos _].
      rewrite (stored_after_history key options (RateLimiter.store self) times HW Hnone t
                 Hprefix Hpos).
      rewrite retained_app, (retained_retained _ _ t now Hle), <- retained_app.
      reflexivity. }
  destruct (sliding_check_count key options now s HW Hnow) as (r & Hr & Hcount).
  change (Algorithm.windowMs options) with W in Hcount. rewrite Hstored in Hcount.
  unfold RateLimiter.check, RateLimiter.resolveMax.
  destruct (String.eqb_spec key "") as [->|_]; [done|].
  cbn [RateLimiter.options RateLimiter.store RateLimiter.algorithm_ Algorithms.check].
  rewrite Hmax. change (RateLimiter.algorithmOptions _ max ctx) with options.
  destruct (SlidingWindow.check key options now s) as [r' s'].
  cbn in Hr. subst r'. eexists. split; [reflexivity|]. cbn.
  split; [exact Hcount|]. rewrite Qle_bool_iff. by rewrite Hcount.
Qed.

Lemma sliding_window_counts_recent_witness :
  ∃ d,
    fst (RateLimiter.check
           (History.checks "k" RateLimiter.noOptions [1000; 30000; 50000; 61500]
              Examples.sliding)
           "k" RateLimiter.noOptions 62000 62000) = Ok d
    ∧ RateLimiter.current d == 4
    ∧ RateLimiter.allowed d = false.
Proof.
  destruct (sliding_window_counts_recent Examples.sliding "k" RateLimiter.noOptions
              [1000; 30000; 50000; 61500] 62000 2)
    as (d & Hd & Hcurrent & Hallowed).
  - reflexivity.
  - reflexivity.
  - discriminate.
  - reflexivity.
  - repeat constructor; discriminate.
  - repeat constructor.
  - reflexivity.
  - exists d. split; [exact Hd|]. split; [exact Hcurrent|].
    destruct (RateLimiter.allowed d); [|reflexivity].
    destruct Hallowed as [Hallowed _]. specialize (Hallowed eq_refl).
    vm_compute in Hallowed. by destruct Hallowed.
Defined.

(** ** Calls against other keys, and resets *)

Lemma perform_keeps_configuration {Req : Type} (self : RateLimiter.t Req MemoryStore.t)
    (c : Calls.call) :
  RateLimiter.options (Calls.perform self c) = RateLimiter.options self
  ∧ RateLimiter.algorithm_ (Calls.perform self c) = RateLimiter.algorithm_ self.
Proof.
  destruct c as [key ctx algoNow now|key|key|key]; cbn [Calls.perform]; try done.
  - unfold RateLimiter.check. destruct (String.eqb key ""); [done|].
    destruct (RateLimiter.resolveMax self ctx); [|done].
    by destruct (Algorithms.check _ _ _ _ _) as [[?|?] ?].
  - unfold RateLimiter.reset. by destruct (String.eqb key "").
Qed.

Lemma timerFires_frame (k1 k2 : string) (s : MemoryStore.t) :
  k1 ≠ k2 →
  MemoryStore.store (MemoryStore.timerFires k1 s) !! k2 = MemoryStore.store s !! k2.
Proof.
  intros Hne. unfold MemoryStore.timerFires.
  destruct (MemoryStore.timers s !! k1) as [[delay [|]]|]; cbn; try done.
  by rewrite lookup_delete_ne.
Qed.

Lemma perform_frame {Req : Type} (self : RateLimiter.t Req MemoryStore.t)
    (c : Calls.call) (key : string) :
  RateLimiter.algorithm_ self ≠ FixedWindowAlgorithm →
  Calls.keyOf c ≠ key →
  MemoryStore.store (RateLimiter.store (Calls.perform self c)) !! key
  = MemoryStore.store (RateLimiter.store self) !! key.
Proof.
  intros Halgo Hne.
  destruct c as [k ctx algoNow now|k|k|k]; cbn [Calls.perform Calls.keyOf] in *.
  - unfold RateLimiter.check. destruct (String.eqb k ""); [done|].
    destruct (RateLimiter.resolveMax self ctx) as [max|e]; [|done].
    pose proof (algorithm_frame (RateLimiter.algorithm_ self) k key
                  (RateLimiter.algorithmOptions self max ctx) algoNow
                  (RateLimiter.store self) Halgo Hne) as Hframe.
    by destruct (Algorithms.check _ _ _ _ _) as [[?|?] ?].
  - unfold RateLimiter.reset. destruct (String.eqb k ""); [done|].
    cbn. by rewrite lookup_delete_ne.
  - by apply memory_decrement_frame.
  - by apply timerFires_frame.
Qed.

(** X16. Key independence under the sliding window and the two buckets,
    on the in-memory store: whatever checks, resets, decrements and
    expiries happen to other keys, in any number and order, the next
    [check] of [key] returns the decision it would have returned without
    them. *)
Theorem calls_on_other_keys_are_invisible {Req : Type}
    (self : RateLimiter.t Req MemoryStore.t) (calls : list Calls.call) (key : string)
    (ctx : RateLimiter.CheckOptions Req) (algoNow now : Q) :
  RateLimiter.algorithm_ self ≠ FixedWindowAlgorithm →
  List.Forall (λ c, Calls.keyOf c ≠ key) calls →
  fst (RateLimiter.check (Calls.performAll calls self) key ctx algoNow now)
  = fst (RateLimiter.check self key ctx algoNow now).
Proof.
  intros Halgo Hcalls. unfold Calls.performAll.
  revert self Halgo. induction Hcalls as [|c calls Hc _ IH]; intros self Halgo; [done|].
  cbn [fold_left].
  destruct (perform_keeps_configuration self c) as [Hoptions Hname].
  rewrite IH by (by rewrite Hname).
  apply check_reads_own_record; try done.
  by apply perform_frame.
Qed.

Lemma calls_on_other_keys_are_invisible_witness :
  fst (RateLimiter.check
         (Calls.performAll
            [Calls.CheckCall "j" RateLimiter.noOptions 1500 1500;
             Calls.DecrementCall "j";
             Calls.CheckCall "i" RateLimiter.noOptions 1600 1600;
             Calls.ExpiryCall "i";
             Calls.ResetCall "k:0"]
            (Examples.afterCheck "k" 1000 Examples.sliding))
         "k" RateLimiter.noOptions 2000 2000)
  = fst (RateLimiter.check (Examples.afterCheck "k" 1000 Examples.sliding)
           "k" RateLimiter.noOptions 2000 2000).
Proof.
  apply calls_on_other_keys_are_invisible.
  - discriminate.
  - repeat constructor; discriminate.
Defined.

(** X17. On the in-memory store, [resetAll()] under each of the four
    algorithms, and [reset(key)] under the sliding window and the two
    buckets, make the next [check] of [key] return what it returns on a
    limiter that was just constructed. *)
Theorem reset_makes_key_new {Req : Type} (self : RateLimiter.t Req MemoryStore.t)
    (key : string) (ctx : RateLimiter.CheckOptions Req) (algoNow now : Q) :
  fst (RateLimiter.check (snd (RateLimiter.resetAll self)) key ctx algoNow now)
  = fst (RateLimiter.check (Calls.asNew self) key ctx algoNow now)
  ∧ (RateLimiter.algorithm_ self ≠ FixedWindowAlgorithm →
     fst (RateLimiter.check (snd (RateLimiter.reset self key)) key ctx algoNow now)
     = fst (RateLimiter.check (Calls.asNew self) key ctx algoNow now)).
Proof.
  split; [reflexivity|]. intros Halgo.
  destruct (String.eqb_spec key "") as [->|Hkey]; [reflexivity|].
  apply check_reads_own_record; try exact Halgo.
  - unfold RateLimiter.reset. by destruct (String.eqb key "").
  - unfold RateLimiter.reset. by destruct (String.eqb key "").
  - unfold RateLimiter.reset. destruct (String.eqb_spec key "") as [->|_]; [done|].
    cbn. by rewrite lookup_delete_eq, lookup_empty.
Qed.

Lemma reset_makes_key_new_witness :
  let used :=
    Examples.afterCheck "k" 1001
      (Examples.afterCheck "k" 1000
         (Examples.limiter "token-bucket" TokenBucketAlgorithm 1000 3)) in
  RateLimiter.algorithm_ used ≠ FixedWindowAlgorithm
  ∧ fst (RateLimiter.check (snd (RateLimiter.reset used "k")) "k" RateLimiter.noOptions
           1002 1002)
    = fst (RateLimiter.check (Calls.asNew used) "k" RateLimiter.noOptions 1002 1002).
Proof.
  intros used.
  assert (Halgo : RateLimiter.algorithm_ used ≠ FixedWindowAlgorithm) by discriminate.
  split; [exact Halgo|].
  exact (proj2 (reset_makes_key_new used "k" RateLimiter.noOptions 1002 1002) Halgo).
Defined.

(** ** Expiry of a record *)

(** The decision of [check] is made from what the algorithm returns. *)
Lemma check_follows_algorithm {Req S : Type} {ops : Store.Ops S}
    (self self' : RateLimiter.t Req S) (key : string) (ctx : RateLimiter.CheckOptions Req)
    (algoNow now : Q) :
  RateLimiter.options self' = RateLimiter.options self →
  RateLimiter.algorithm_ self' = RateLimiter.algorithm_ self →
  (∀ max,
     fst (Algorithms.check (RateLimiter.algorithm_ self) key
            (RateLimiter.algorithmOptions self max ctx) algoNow (RateLimiter.store self'))
     = fst (Algorithms.check (RateLimiter.algorithm_ self) key
              (RateLimiter.algorithmOptions self max ctx) algoNow (RateLimiter.store self))) →
  fst (RateLimiter.check self' key ctx algoNow now)
  = fst (RateLimiter.check self key ctx algoNow now).
Proof.
  intros Hoptions Hname Hsame.
  destruct self as [options store algo], self' as [options' store' algo'].
  cbn in Hoptions, Hname, Hsame. subst options' algo'.
  unfold RateLimiter.check, RateLimiter.resolveMax, RateLimiter.failOpen.
  cbn [RateLimiter.options RateLimiter.store RateLimiter.algorithm_].
  destruct (String.eqb key ""); [reflexivity|].
  destruct (match RateLimiter.max options with
            | RateLimiter.MaxNumber n => Ok n
            | RateLimiter.MaxFunction f => f (RateLimiter.req ctx)
            end) as [max|e]; [|reflexivity].
  specialize (Hsame max). unfold RateLimiter.algorithmOptions in *.
  cbn [RateLimiter.options] in *.
  destruct (Algorithms.check algo key _ algoNow store') as [r1 s1].
  destruct (Algorithms.check algo key _ algoNow store) as [r2 s2].
  cbn in Hsame. subst r2. by destruct r1.
Qed.

Lemma retained_none (l : list Q) (windowMs now : Q) :
  List.Forall (λ t, t <= now - windowMs) l → Sliding.retained l windowMs now = [].
Proof.
  induction 1 as [|t l Ht _ IH]; [reflexivity|].
  unfold Sliding.retained in *. cbn [List.filter].
  by rewrite (proj2 (ltb_ge _ _) Ht).
Qed.

Lemma memory_increment_returns (key : string) (options : Store.IncrementOptions)
    (s : MemoryStore.t) :
  ∃ count, fst (MemoryStore.increment key options s) = Ok count.
Proof.
  unfold MemoryStore.increment, MemoryStore.incrementVia, mbind, M_bind.
  destruct (MemoryStore.store s !! key) as [data|];
    destruct (Store.timestamp options) as [ts|];
    try destruct (JS.truthy (Some ts)); cbn; eexists; reflexivity.
Qed.

(** The sliding window does not see whether a record went away whose
    timestamps were all out of the window. *)
Lemma sliding_check_after_expiry (key : string) (options : Algorithm.Options) (now : Q)
    (s : MemoryStore.t) :
  List.Forall (λ t, t <= now - Algorithm.windowMs options) (Sliding.stored s key) →
  fst (SlidingWindow.check key options now (MemoryStore.timerFires key s))
  = fst (SlidingWindow.check key options now s).
Proof.
  intros Hold. unfold MemoryStore.timerFires.
  destruct (MemoryStore.timers s !! key) as [[delay [|]]|]; try reflexivity.
  cbn [MemoryStore.cleared].
  unfold SlidingWindow.check, mbind, M_bind.
  cbn [Store.get Store.set Store.increment MemoryStore.ops MemoryStore.get
       MemoryStore.store].
  rewrite lookup_delete_eq. cbn [option_bind].
  match goal with
  | |- context [MemoryStore.increment key ?o ?s0] =>
      destruct (memory_increment_returns key o s0) as [c Hc];
      destruct (MemoryStore.increment key o s0) as [r0 s0']
  end.
  cbn in Hc. subst r0. cbn [fst mret M_ret].
  unfold Sliding.stored in Hold.
  destruct (MemoryStore.store s !! key) as [data|]; cbn [option_bind mbind] in *.
  - destruct (Data.requests data) as [requests|]; cbn in Hold.
    + apply retained_none in Hold. unfold Sliding.retained in Hold. rewrite Hold.
      cbn. by destruct (negb (Qeq_bool now 0)).
    + match goal with
      | |- context [MemoryStore.increment key ?o s] =>
          destruct (memory_increment_returns key o s) as [c' Hc'];
          destruct (MemoryStore.increment key o s) as [r0 s0'']
      end.
      cbn in Hc'. by subst r0.
  - match goal with
    | |- context [MemoryStore.increment key ?o s] =>
        destruct (memory_increment_returns key o s) as [c' Hc'];
        destruct (MemoryStore.increment key o s) as [r0 s0'']
    end.
    cbn in Hc'. by subst r0.
Qed.

(** X18. Under the sliding window on the in-memory store, the expiry of
    a record does not show in the decisions: once every stored timestamp
    of [key] is at least [windowMs] old, which is when the timer set with
    the record may fire, [check] returns the same decision whether the
    timer has fired or not. *)
Theorem sliding_expiry_is_invisible {Req : Type} (self : RateLimiter.t Req MemoryStore.t)
    (key : string) (ctx : RateLimiter.CheckOptions Req) (algoNow now : Q) :
  let W := default (RateLimiter.windowMs (RateLimiter.options self))
             (RateLimiter.o_windowMs ctx) in
  RateLimiter.algorithm_ self = SlidingWindowAlgorithm →
  List.Forall (λ t, t <= algoNow - W) (Sliding.stored (RateLimiter.store self) key) →
  fst (RateLimiter.check (Calls.perform self (Calls.ExpiryCall key)) key ctx algoNow now)
  = fst (RateLimiter.check self key ctx algoNow now).
Proof.
  intros W Halgo Hold. apply check_follows_algorithm; try reflexivity.
  intros max. rewrite Halgo. cbn [Algorithms.check Calls.perform RateLimiter.store].
  by apply sliding_check_after_expiry.
Qed.

Lemma sliding_expiry_is_invisible_witness :
  let used := Examples.afterCheck "k" 2000 (Examples.afterCheck "k" 1000 Examples.sliding) in
  MemoryStore.store (RateLimiter.store (Calls.perform used (Calls.ExpiryCall "k"))) !! "k"
    = None
  ∧ fst (RateLimiter.check (Calls.perform used (Calls.ExpiryCall "k")) "k"
           RateLimiter.noOptions 62000 62000)
    = fst (RateLimiter.check used "k" RateLimiter.noOptions 62000 62000).
Proof.
  intros used. split; [vm_compute; reflexivity|].
  apply (sliding_expiry_is_invisible used "k" RateLimiter.noOptions 62000 62000).
  - reflexivity.
  - repeat constructor; discriminate.
Defined.

Lemma Qmin_left (x y : Q) : x <= y → Qmin x y = x.
Proof.
  intros Hle. unfold Qmin, GenericMinMax.gmin.
  destruct (x ?= y) eqn:Hcompare; try reflexivity.
  apply Qgt_alt in Hcompare. lra.
Qed.

(** A bucket that was idle for [windowMs * capacity] is full again when
    it refills by at least one token a window. *)
Lemma token_check_after_expiry (key : string) (options : Algorithm.Options) (now : Q)
    (s : MemoryStore.t) (tokens lastRefill : Q) :
  let capacity := default 10 (Algorithm.capacity options) in
  let refillRate := default 1 (Algorithm.refillRate options) in
  let windowMs := Algorithm.windowMs options in
  0 < windowMs → 0 < capacity → 1 <= refillRate →
  Bucket.tokenRecord (MemoryStore.store s !! key) (Some (tokens, lastRefill)) →
  0 <= tokens →
  lastRefill + windowMs * capacity <= now →
  fst (TokenBucket.check key options now (MemoryStore.timerFires key s))
  = fst (TokenBucket.check key options now s).
Proof.
  intros capacity refillRate windowMs HW HC Hrate Hrecord Htokens Hidle.
  unfold MemoryStore.timerFires.
  destruct (MemoryStore.timers s !! key) as [[delay [|]]|]; try reflexivity.
  cbn [MemoryStore.cleared].
  unfold TokenBucket.check, mbind, M_bind.
  cbn [Store.get Store.set MemoryStore.ops MemoryStore.get MemoryStore.store].
  rewrite lookup_delete_eq.
  fold capacity refillRate windowMs.
  inversion Hrecord as [|data tokens' lastRefill' Htok Hlast Hdata Hprior]; subst.
  unfold TokenBucket.refill. rewrite Htok, Hlast.
  cbn [JS.toNum JS.sub JS.div JS.mul JS.add JS.min JS.lift2].
  assert (Hfull : capacity <= tokens + (now - lastRefill) / windowMs * refillRate).
  { assert (Hwindows : capacity <= (now - lastRefill) / windowMs).
    { apply Qle_shift_div_l; [exact HW|]. lra. }
    set (x := (now - lastRefill) / windowMs) in *. clearbody x. nra. }
  rewrite (Qmin_left _ _ Hfull).
  destruct (Qle_bool 1 capacity); reflexivity.
Qed.

(** X19. Under the token bucket on the in-memory store, with a refill of
    at least one token a window (the default), the expiry of a record does
    not show in the decisions: once the bucket of [key] was idle for
    [windowMs * capacity], the delay of the timer set with its record,
    [check] returns the same decision whether the timer has fired or
    not. *)
Theorem token_expiry_is_invisible {Req : Type} (self : RateLimiter.t Req MemoryStore.t)
    (key : string) (ctx : RateLimiter.CheckOptions Req) (algoNow now tokens lastRefill : Q) :
  let W := default (RateLimiter.windowMs (RateLimiter.options self))
             (RateLimiter.o_windowMs ctx) in
  let capacity := default 10 (RateLimiter.o_capacity ctx) in
  RateLimiter.algorithm_ self = TokenBucketAlgorithm →
  0 < W → 0 < capacity → 1 <= default 1 (RateLimiter.o_refillRate ctx) →
  Bucket.tokenRecord (MemoryStore.store (RateLimiter.store self) !! key)
    (Some (tokens, lastRefill)) →
  0 <= tokens →
  lastRefill + W * capacity <= algoNow →
  fst (RateLimiter.check (Calls.perform self (Calls.ExpiryCall key)) key ctx algoNow now)
  = fst (RateLimiter.check self key ctx algoNow now).
Proof.
  intros W capacity Halgo HW HC Hrate Hrecord Htokens Hidle.
  apply check_follows_algorithm; try reflexivity.
  intros max. rewrite Halgo. cbn [Algorithms.check Calls.perform RateLimiter.store].
  by apply (token_check_after_expiry key _ algoNow _ tokens lastRefill).
Qed.

Lemma token_expiry_is_invisible_witness :
  let used :=
    Examples.afterCheck "k" 1000
      (Examples.limiter "token-bucket" TokenBucketAlgorithm 1000 3) in
  MemoryStore.store (RateLimiter.store (Calls.perform used (Calls.ExpiryCall "k"))) !! "k"
    = None
  ∧ fst (RateLimiter.check (Calls.perform used (Calls.ExpiryCall "k")) "k"
           RateLimiter.noOptions 11000 11000)
    = fst (RateLimiter.check used "k" RateLimiter.noOptions 11000 11000).
Proof.
  intros used. split; [vm_compute; reflexivity|].
  apply (token_expiry_is_invisible used "k" RateLimiter.noOptions 11000 11000 9 1000).
  - reflexivity.
  - reflexivity.
  - reflexivity.
  - discriminate.
  - vm_compute. by constructor.
  - discriminate.
  - discriminate.
Defined.

(** ** A denied request and its [resetTime] *)




(** ** The sliding window on the Redis store *)

Lemma call_prefix {A : Type} (command : M (gmap string Redis.Entry) A) (s : RedisStore.t) :
  RedisStore.prefix (snd (RedisStore.call command s)) = RedisStore.prefix s.
Proof. unfold RedisStore.call. by destruct (command (RedisStore.client s)). Qed.

Lemma bind_prefix {A B : Type} (c : M RedisStore.t A) (k : A → M RedisStore.t B)
    (s : RedisStore.t) :
  (∀ s, RedisStore.prefix (snd (c s)) = RedisStore.prefix s) →
  (∀ a s, RedisStore.prefix (snd (k a s)) = RedisStore.prefix s) →
  RedisStore.prefix (snd ((c ≫= k) s)) = RedisStore.prefix s.
Proof.
  intros Hc Hk. unfold mbind, M_bind. specialize (Hc s).
  destruct (c s) as [[a|e] s']; cbn in *; [|exact Hc].
  by rewrite Hk.
Qed.

Lemma redis_increment_prefix (key : string) (options : Store.IncrementOptions)
    (now random : Q) (s : RedisStore.t) :
  RedisStore.prefix (snd (RedisStore.increment key options now random s))
  = RedisStore.prefix s.
Proof.
  unfold RedisStore.increment.
  destruct (Store.timestamp options) as [ts|]; [destruct (JS.truthy (Some ts))|].
  - destruct (Store.windowMs options) as [windowMs|]; [|reflexivity].
    repeat (apply bind_prefix; [intros; apply call_prefix|intros]).
    apply call_prefix.
  - apply bind_prefix; [intros; apply call_prefix|intros count s1].
    apply bind_prefix; [|reflexivity].
    intros s2. destruct (_ && _); [apply call_prefix|reflexivity].
  - apply bind_prefix; [intros; apply call_prefix|intros count s1].
    apply bind_prefix; [|reflexivity].
    intros s2. destruct (_ && _); [apply call_prefix|reflexivity].
Qed.

Lemma redis_get_no_requests (key : string) (s : RedisBackend.t) :
  RedisBackend.noRequests s key →
  ∃ data, RedisBackend.get key s = (Ok data, s) ∧ data ≫= Data.requests = None.
Proof.
  intros Hnone. unfold RedisBackend.get. unfold RedisBackend.noRequests in Hnone.
  destruct (RedisBackend.texts s !! RedisStore._getKey (RedisBackend.base s) key)
    as [[data expiry]|].
  - exists (Some data). split; [reflexivity|]. exact (Hnone data expiry eq_refl).
  - unfold Redis.get.
    destruct (RedisStore.client (RedisBackend.base s) !! _) as [[[n|members] expiry]|]; cbn.
    + exists (RedisBackend.number n). split; [reflexivity|].
      unfold RedisBackend.number. by destruct (Z.eqb n 0).
    + by exists None.
    + by exists None.
Qed.

Lemma redis_backend_increment_frame (key : string) (options : Store.IncrementOptions)
    (now random : Q) (s : RedisBackend.t) :
  RedisBackend.texts (snd (RedisBackend.increment key options now random s))
  = RedisBackend.texts s
  ∧ RedisStore.prefix (RedisBackend.base (snd (RedisBackend.increment key options now random s)))
    = RedisStore.prefix (RedisBackend.base s).
Proof.
  assert (Hlift : RedisBackend.texts
                    (snd (RedisBackend.lift (RedisStore.increment key options now random) s))
                  = RedisBackend.texts s
                  ∧ RedisStore.prefix
                      (RedisBackend.base
                         (snd (RedisBackend.lift
                                 (RedisStore.increment key options now random) s)))
                    = RedisStore.prefix (RedisBackend.base s)).
  { unfold RedisBackend.lift.
    pose proof (redis_increment_prefix key options now random (RedisBackend.base s)) as Hp.
    by destruct (RedisStore.increment key options now random (RedisBackend.base s)). }
  unfold RedisBackend.increment.
  destruct (JS.truthy (Store.timestamp options)).
  - destruct (RedisBackend.texts s !! _) as [text|]; [|exact Hlift].
    destruct (Store.windowMs options); [done|exact Hlift].
  - destruct (RedisBackend.texts s !! _) as [text|]; [done|exact Hlift].
Qed.

(** On the Redis store the sliding window never reads back what
    [increment] wrote: [get] looks at [prefix + key], the timestamps are
    in the sorted set [prefix + key + ":scores"]. *)
Lemma redis_sliding_check (key : string) (options : Algorithm.Options)
    (now storeNow random : Q) (s : RedisBackend.t) :
  RedisBackend.noRequests s key →
  ∃ r s',
    @SlidingWindow.check _ (RedisBackend.ops storeNow random) key options now s = (r, s')
    ∧ RedisBackend.noRequests s' key
    ∧ ∀ res, r = Ok res → Algorithm.count res = 1.
Proof.
  intros Hnone. unfold SlidingWindow.check, mbind, M_bind.
  cbn [Store.get Store.increment RedisBackend.ops].
  destruct (redis_get_no_requests key s Hnone) as (data & -> & Hrequests).
  unfold mbind in Hrequests. rewrite Hrequests.
  destruct (redis_backend_increment_frame key
              (Store.mkIncrementOptions (Some (Algorithm.windowMs options)) (Some now))
              storeNow random s) as [Htexts Hprefix].
  destruct (RedisBackend.increment key _ storeNow random s) as [[c|e] s']; cbn in *.
  - eexists _, _. split; [reflexivity|]. split.
    + unfold RedisBackend.noRequests, RedisStore._getKey in *. by rewrite Htexts, Hprefix.
    + by intros res [= <-].
  - eexists _, _. split; [reflexivity|]. split; [|done].
    unfold RedisBackend.noRequests, RedisStore._getKey in *. by rewrite Htexts, Hprefix.
Qed.

(** X21. With the Redis store the sliding window never denies: its [get]
    reads [prefix + key], where [increment] writes nothing, so every
    [check] takes the branch of a first request.  After any number of
    checks of a key, [check] reports [current <= 1] and allows the
    request, for a quota of at least one; no text with [requests] was put
    under the key from outside. *)
Theorem redis_sliding_window_never_denies {Req : Type}
    (self : RateLimiter.t Req RedisBackend.t) (key : string)
    (ctx : RateLimiter.CheckOptions Req) (calls : list RedisBackend.Call)
    (c : RedisBackend.Call) (max : Q) (d : RateLimiter.RateLimitResult Req) :
  RateLimiter.algorithm_ self = SlidingWindowAlgorithm →
  RateLimiter.max (RateLimiter.options self) = RateLimiter.MaxNumber max →
  1 <= max →
  RedisBackend.noRequests (RateLimiter.store self) key →
  fst (RedisBackend.check (RedisBackend.checks key ctx calls self) key ctx c) = Ok d →
  RateLimiter.allowed d = true ∧ RateLimiter.current d <= 1.
Proof.
  intros Halgo Hmax Hone Hnone. unfold RedisBackend.checks.
  revert self Halgo Hmax Hnone.
  induction calls as [|c0 calls IH]; intros self Halgo Hmax Hnone; cbn [fold_left].
  - unfold RedisBackend.check, RateLimiter.check, RateLimiter.resolveMax.
    destruct (String.eqb key ""); [discriminate|].
    rewrite Hmax, Halgo. cbn [Algorithms.check].
    destruct (redis_sliding_check key (RateLimiter.algorithmOptions self max ctx)
                (RedisBackend.algoNow c) (RedisBackend.storeNow c) (RedisBackend.random c)
                (RateLimiter.store self) Hnone) as (r & s' & -> & _ & Hcount).
    destruct r as [res|e]; cbn; intros [= <-]; cbn.
    + rewrite (Hcount res eq_refl). split; [by apply Qle_bool_iff|apply Qle_refl].
    + split; [reflexivity|discriminate].
  - apply IH.
    + unfold RedisBackend.check, RateLimiter.check.
      destruct (String.eqb key ""); [done|].
      destruct (RateLimiter.resolveMax self ctx); [|done].
      by destruct (Algorithms.check _ _ _ _ _) as [[?|?] ?].
    + unfold RedisBackend.check, RateLimiter.check.
      destruct (String.eqb key ""); [done|].
      destruct (RateLimiter.resolveMax self ctx); [|done].
      by destruct (Algorithms.check _ _ _ _ _) as [[?|?] ?].
    + unfold RedisBackend.check, RateLimiter.check, RateLimiter.resolveMax.
      destruct (String.eqb key ""); [done|].
      rewrite Hmax, Halgo. cbn [Algorithms.check].
      destruct (redis_sliding_check key (RateLimiter.algorithmOptions self max ctx)
                  (RedisBackend.algoNow c0) (RedisBackend.storeNow c0)
                  (RedisBackend.random c0) (RateLimiter.store self) Hnone)
        as (r & s' & -> & Hnone' & _).
      by destruct r.
Qed.

Lemma redis_sliding_window_never_denies_witness :
  ∃ d,
    fst (RedisBackend.check
           (RedisBackend.checks "k" RateLimiter.noOptions
              [Scenarios.at_ 1000; Scenarios.at_ 1001; Scenarios.at_ 1002]
              Scenarios.slidingOnRedis)
           "k" RateLimiter.noOptions (Scenarios.at_ 1003)) = Ok d
    ∧ RateLimiter.allowed d = true
    ∧ RateLimiter.current d <= 1.
Proof.
  eexists. split; [vm_compute; reflexivity|].
  eapply (redis_sliding_window_never_denies Scenarios.slidingOnRedis "k"
            RateLimiter.noOptions
            [Scenarios.at_ 1000; Scenarios.at_ 1001; Scenarios.at_ 1002]
            (Scenarios.at_ 1003) 2).
  - reflexivity.
  - reflexivity.
  - discriminate.
  - intros data expiry Htext. discriminate Htext.
  - vm_compute. reflexivity.
Defined.

(** ** The counters of the Redis store *)

(** One [increment(key, { windowMs })] of the Redis store on a counter:
    INCR, and EXPIRE when the count became one. *)
Lemma redis_increment_counter (key : string) (windowMs now random : Q) (s : RedisStore.t) :
  0 < windowMs →
  RedisCounter.isCounter s key →
  let s' := snd (RedisStore.increment key (Store.mkIncrementOptions (Some windowMs) None)
                   now random s) in
  fst (RedisStore.increment key (Store.mkIncrementOptions (Some windowMs) None) now random s)
  = Ok (inject_Z (RedisCounter.value s key + 1))
  ∧ RedisCounter.value s' key = (RedisCounter.value s key + 1)%Z
  ∧ RedisCounter.isCounter s' key
  ∧ RedisCounter.expiry s' key
    = (if Z.eqb (RedisCounter.value s key + 1) 1 then Some (Qceiling (windowMs / 1000))
       else RedisCounter.expiry s key)
  ∧ RedisStore.prefix s' = RedisStore.prefix s.
Proof.
  intros HW Hcounter s'. subst s'.
  unfold RedisCounter.isCounter, RedisCounter.value, RedisCounter.expiry in *.
  unfold RedisStore.increment. cbn [Store.timestamp Store.windowMs].
  unfold mbind, M_bind, RedisStore.call, Redis.incr, Redis.step, Redis.expire.
  pose proof (truthy_pos windowMs HW) as Htruthy.
  set (fullKey := RedisStore._getKey s key) in *.
  assert (Hkey : ∀ client expiry,
            RedisStore._getKey (RedisStore.mk client (RedisStore.prefix s) expiry) key
            = fullKey) by reflexivity.
  clearbody fullKey.
  destruct (RedisStore.client s !! fullKey) as [[[n|members] expiry]|] eqn:Hentry; [|done|].
  - cbn [Redis.value Redis.expiry fst snd RedisStore.client].
    rewrite Htruthy, andb_true_r. destruct (Z.eqb (n + 1) 1) eqn:Hfirst.
    + cbn. rewrite ?Hkey, ?lookup_insert_eq. cbn. rewrite ?Hkey, ?lookup_insert_eq. done.
    + cbn. rewrite ?Hkey, ?lookup_insert_eq. cbn. done.
  - cbn [Redis.value Redis.expiry fst snd RedisStore.client].
    rewrite Htruthy. cbn. rewrite ?Hkey, ?lookup_insert_eq. cbn.
    rewrite ?Hkey, ?lookup_insert_eq. done.
Qed.




(** [decrement(key)] of the Redis store on a counter: DECR when the
    counter is positive, nothing otherwise. *)
Lemma redis_decrement_value (key : string) (s : RedisStore.t) :
  RedisCounter.isCounter s key →
  (0 <= RedisCounter.value s key)%Z →
  fst (RedisStore.decrement key s) = Ok tt
  ∧ RedisCounter.value (snd (RedisStore.decrement key s)) key
    = Z.max 0 (RedisCounter.value s key - 1)
  ∧ RedisCounter.expiry (snd (RedisStore.decrement key s)) key = RedisCounter.expiry s key.
Proof.
  intros Hcounter Hvalue.
  unfold RedisCounter.isCounter, RedisCounter.value, RedisCounter.expiry in *.
  unfold RedisStore.decrement, RedisStore.swallow, mbind, M_bind, RedisStore.call,
    Redis.type, Redis.get, Redis.decr, Redis.step.
  set (fullKey := RedisStore._getKey s key) in *.
  assert (Hkey : ∀ client expiry,
            RedisStore._getKey (RedisStore.mk client (RedisStore.prefix s) expiry) key
            = fullKey) by reflexivity.
  clearbody fullKey.
  destruct (RedisStore.client s !! fullKey) as [[[n|members] expiry]|] eqn:Hentry; [|done|].
  - cbn [Redis.value Redis.expiry fst snd RedisStore.client]. rewrite Hentry.
    cbn [Redis.value Redis.expiry fst snd RedisStore.client].
    destruct (Z.ltb_spec 0 n) as [Hpos|Hzero].
    + cbn. rewrite Hentry. cbn. rewrite ?Hkey, ?lookup_insert_eq. cbn.
      repeat split. lia.
    + cbn. rewrite ?Hkey, Hentry. cbn. repeat split.
      assert (n = 0%Z) as -> by lia. reflexivity.
  - cbn. rewrite Hentry. cbn. rewrite ?Hkey, Hentry. done.
Qed.

(** X23. On a counter of the Redis store, [decrement(key)] undoes one
    [increment(key, { windowMs })] and never goes below zero: after an
    increment the decrement brings the count back to what it was, and on a
    count of zero, or on a key the database does not hold, it changes
    nothing.  The expiry of the key is left as it is. *)
Theorem redis_decrement_undoes_increment (key : string) (windowMs now random : Q)
    (s : RedisStore.t) :
  0 < windowMs →
  RedisCounter.isCounter s key →
  (0 <= RedisCounter.value s key)%Z →
  let incremented :=
    snd (RedisStore.increment key (Store.mkIncrementOptions (Some windowMs) None)
           now random s) in
  RedisCounter.value (snd (RedisStore.decrement key incremented)) key
  = RedisCounter.value s key
  ∧ RedisCounter.expiry (snd (RedisStore.decrement key incremented)) key
    = RedisCounter.expiry incremented key
  ∧ (0 <= RedisCounter.value (snd (RedisStore.decrement key s)) key)%Z
  ∧ (RedisCounter.value s key = 0%Z →
     RedisCounter.value (snd (RedisStore.decrement key s)) key = 0%Z).
Proof.
  intros HW Hcounter Hvalue incremented.
  destruct (redis_increment_counter key windowMs now random s HW Hcounter)
    as (_ & Hnext & Hcounter' & _ & _). fold incremented in Hnext, Hcounter'.
  destruct (redis_decrement_value key incremented Hcounter') as (_ & Hback & Hexpiry);
    [lia|].
  destruct (redis_decrement_value key s Hcounter Hvalue) as (_ & Hdown & _).
  split; [rewrite Hback, Hnext; lia|]. split; [exact Hexpiry|].
  split; [rewrite Hdown; lia|]. intros Hzero. rewrite Hdown, Hzero. reflexivity.
Qed.

Lemma redis_decrement_undoes_increment_witness :
  let s := RedisCounter.increments 2 "k:0" (Some 60000) 1000 (1 # 2) (RedisStore.new ∅) in
  let incremented :=
    snd (RedisStore.increment "k:0" (Store.mkIncrementOptions (Some 60000) None)
           1000 (1 # 2) s) in
  RedisCounter.value incremented "k:0" = 3%Z
  ∧ RedisCounter.value (snd (RedisStore.decrement "k:0" incremented)) "k:0" = 2%Z.
Proof.
  intros s incremented. split; [vm_compute; reflexivity|].
  destruct (redis_decrement_undoes_increment "k:0" 60000 1000 (1 # 2) s) as (Hback & _).
  - reflexivity.
  - vm_compute. exact I.
  - vm_compute. discriminate.
  - fold incremented in Hback. rewrite Hback. vm_compute. reflexivity.
Defined.

(** ** Reset and the sorted sets of the Redis store *)

Lemma scores_key_differs (fullKey : string) : fullKey +:+ ":scores" ≠ fullKey.
Proof.
  induction fullKey as [|a fullKey IH]; [discriminate|].
  cbn. intros [= Hsame]. by apply IH.
Qed.

(** X24. [reset(key)] of the Redis store removes the counter and the
    sorted set of the key, whatever the database held: the next
    [increment] returns 1, with a timestamp and without one. *)
Theorem redis_reset_then_increment (key : string) (windowMs ts now random : Q)
    (timestamp : option Q) (s : RedisStore.t) :
  0 < windowMs →
  timestamp = None ∨ (timestamp = Some ts ∧ 0 < ts) →
  let s' := snd (RedisStore.reset key s) in
  fst (RedisStore.reset key s) = Ok tt
  ∧ RedisStore.client s' !! RedisStore._getKey s key = None
  ∧ RedisStore.client s' !! (RedisStore._getKey s key +:+ ":scores") = None
  ∧ fst (RedisStore.increment key (Store.mkIncrementOptions (Some windowMs) timestamp)
           now random s') = Ok 1.
Proof.
  intros HW Hts s'. subst s'.
  unfold RedisStore.reset, mbind, M_bind, RedisStore.call, Redis.del.
  set (fullKey := RedisStore._getKey s key) in *.
  assert (Hkey : ∀ client expiry,
            RedisStore._getKey (RedisStore.mk client (RedisStore.prefix s) expiry) key
            = fullKey) by reflexivity.
  clearbody fullKey. cbn [fst snd RedisStore.client RedisStore.prefix].
  pose proof (scores_key_differs fullKey) as Hne.
  split; [reflexivity|].
  split; [by rewrite lookup_delete_ne, lookup_delete_eq|].
  split; [by rewrite lookup_delete_eq|].
  unfold RedisStore.increment. cbn [Store.timestamp Store.windowMs]. rewrite Hkey.
  pose proof (truthy_pos windowMs HW) as Htruthy.
  destruct Hts as [->|[-> Hpos]].
  - unfold mbind, M_bind, RedisStore.call, Redis.incr, Redis.step, Redis.expire.
    cbn [RedisStore.client].
    rewrite lookup_delete_ne, lookup_delete_eq by done. cbn [fst snd RedisStore.client].
    rewrite Htruthy. cbn. by rewrite lookup_insert_eq.
  - rewrite (truthy_pos ts Hpos).
    unfold mbind, M_bind, RedisStore.call, Redis.zremrangebyscore, Redis.zadd, Redis.expire,
      Redis.zcard.
    cbn [RedisStore.client]. rewrite lookup_delete_eq. cbn [fst snd RedisStore.client].
    rewrite lookup_delete_eq. cbn [fst snd RedisStore.client].
    rewrite lookup_insert_eq. cbn [fst snd RedisStore.client Redis.value].
    rewrite lookup_insert_eq. reflexivity.
Qed.

Lemma redis_reset_then_increment_witness :
  fst (RedisStore.increment "k" (Store.mkIncrementOptions (Some 60000) (Some 2000))
         2000 (1 # 3) (snd (RedisStore.reset "k" Examples.redisSliding))) = Ok 1.
Proof.
  apply (redis_reset_then_increment "k" 60000 2000 2000 (1 # 3) (Some 2000)
           Examples.redisSliding).
  - reflexivity.
  - right. split; reflexivity.
Defined.

Lemma filter_fresh (members : list (Q * Redis.Member)) (member : Redis.Member) :
  List.Forall (λ m, Redis.sameMember (snd m) member = false) members →
  List.filter (λ m, negb (Redis.sameMember (snd m) member)) members = members.
Proof.
  induction 1 as [|m members Hm _ IH]; [reflexivity|].
  cbn [List.filter]. by rewrite Hm, IH.
Qed.

Lemma length_snoc {A : Type} (l : list A) (x : A) : JS.length (l ++ [x]) == JS.length l + 1.
Proof.
  unfold JS.length. rewrite List.length_app. cbn [List.length].
  rewrite Nat2Z.inj_add, inject_Z_plus. reflexivity.
Qed.

(** X25. [increment(key, { timestamp, windowMs })] of the Redis store
    counts the sorted set of the key: the members with a score of at most
    [now - windowMs] are removed, the new member is added with the
    timestamp as its score, the set expires [ceil(windowMs / 1000) + 1]
    seconds later, and the call returns the number of members kept plus
    one.  [now] is the clock of the store; the new member is not in the
    set yet. *)
Theorem redis_sliding_increment (key : string) (windowMs ts now random : Q)
    (s : RedisStore.t) (members : list (Q * Redis.Member)) :
  0 < windowMs → 0 < ts →
  RedisCounter.scores s key = Some members →
  List.Forall (λ m, Redis.sameMember (snd m) (ts, random) = false) members →
  let kept := List.filter (λ m, JS.ltb (now - windowMs) (fst m)) members in
  let call := RedisStore.increment key (Store.mkIncrementOptions (Some windowMs) (Some ts))
                now random s in
  ∃ count,
    fst call = Ok count
    ∧ count == JS.length kept + 1
    ∧ RedisCounter.scores (snd call) key = Some (kept ++ [(ts, (ts, random))])
    ∧ RedisStore.client (snd call) !! (RedisStore._getKey s key +:+ ":scores")
        ≫= Redis.expiry = Some (Qceiling (windowMs / 1000) + 1)%Z.
Proof.
  intros HW Hts Hscores Hfresh kept call. subst call.
  unfold RedisCounter.scores in *.
  unfold RedisStore.increment. cbn [Store.timestamp Store.windowMs].
  rewrite (truthy_pos ts Hts).
  set (scoreKey := RedisStore._getKey s key +:+ ":scores") in *.
  assert (Hkey : ∀ client expiry,
            RedisStore._getKey (RedisStore.mk client (RedisStore.prefix s) expiry) key
            +:+ ":scores" = scoreKey) by reflexivity.
  clearbody scoreKey.
  assert (Hkept : List.Forall (λ m, Redis.sameMember (snd m) (ts, random) = false) kept).
  { subst kept. apply List.Forall_forall. intros m Hm.
    apply List.filter_In in Hm as [Hm _].
    by apply (proj1 (List.Forall_forall _ _) Hfresh). }
  unfold mbind, M_bind, RedisStore.call, Redis.zremrangebyscore, Redis.zadd, Redis.expire,
    Redis.zcard, Redis.putZSet.
  cbn [RedisStore.client].
  destruct (RedisStore.client s !! scoreKey) as [[[n|stored] expiry]|] eqn:Hentry;
    [done| |].
  - injection Hscores as ->. cbn [Redis.value Redis.expiry fst snd RedisStore.client].
    fold kept. destruct kept as [|m kept'] eqn:Hempty.
    + cbn [fst snd RedisStore.client]. rewrite lookup_delete_eq.
      cbn [fst snd RedisStore.client]. rewrite lookup_insert_eq.
      cbn [fst snd RedisStore.client Redis.value]. rewrite lookup_insert_eq.
      cbn [fst snd RedisStore.client Redis.value]. rewrite Hkey, lookup_insert_eq.
      eexists. split; [reflexivity|]. split; [reflexivity|]. done.
    + cbn [fst snd RedisStore.client]. rewrite lookup_insert_eq.
      cbn [fst snd RedisStore.client Redis.value Redis.expiry]. rewrite lookup_insert_eq.
      cbn [fst snd RedisStore.client Redis.value Redis.expiry]. rewrite lookup_insert_eq.
      cbn [fst snd RedisStore.client Redis.value]. rewrite Hkey, lookup_insert_eq.
      rewrite (filter_fresh _ _ Hkept).
      eexists. split; [reflexivity|]. split; [apply length_snoc|]. done.
  - injection Hscores as <-. cbn [fst snd RedisStore.client]. rewrite Hentry.
    cbn [fst snd RedisStore.client]. rewrite lookup_insert_eq.
    cbn [fst snd RedisStore.client Redis.value]. rewrite lookup_insert_eq.
    cbn [fst snd RedisStore.client Redis.value]. rewrite Hkey, lookup_insert_eq.
    eexists. split; [reflexivity|]. split; [reflexivity|]. done.
Qed.

Lemma redis_sliding_increment_witness :
  ∃ count,
    fst (RedisStore.increment "k" (Store.mkIncrementOptions (Some 60000) (Some 2000))
           2000 (1 # 3) Examples.redisSliding) = Ok count
    ∧ count == 2.
Proof.
  destruct (redis_sliding_increment "k" 60000 2000 2000 (1 # 3) Examples.redisSliding
              [(1000, (1000, 1 # 2))]) as (count & Hcall & Hcount & _).
  - reflexivity.
  - reflexivity.
  - vm_compute. reflexivity.
  - repeat constructor.
  - exists count. split; [exact Hcall|]. rewrite Hcount. vm_compute. reflexivity.
Defined.

(** ** Keys made by the predefined generators *)

Lemma orElse_nonempty (a : option string) (b : string) :
  b ≠ "" → KeyGenerators.orElse a b ≠ "".
Proof.
  intros Hb. unfold KeyGenerators.orElse. destruct a as [s|]; [|exact Hb].
  by destruct (String.eqb_spec s "").
Qed.

Lemma append_nonempty (s1 s2 : string) : s1 ≠ "" → s1 +:+ s2 ≠ "".
Proof. destruct s1; [done|discriminate]. Qed.

(** A [check] with a key that is not empty returns a decision. *)
Lemma check_returns {Req S : Type} {ops : Store.Ops S} (self : RateLimiter.t Req S)
    (key : string) (ctx : RateLimiter.CheckOptions Req) (algoNow now : Q) :
  key ≠ "" → ∃ d, fst (RateLimiter.check self key ctx algoNow now) = Ok d.
Proof.
  intros Hkey. unfold RateLimiter.check.
  destruct (String.eqb_spec key "") as [->|_]; [done|].
  destruct (RateLimiter.resolveMax self ctx); [|by eexists].
  destruct (Algorithms.check _ _ _ _ _) as [[?|?] ?]; by eexists.
Qed.

(** X26. The five predefined key generators ([ip], [userId],
    [routeAndIp], [apiEndpoint], [userAndRoute]) never make an empty key,
    whatever fields the request lacks; a [check] with such a key returns a
    decision and does not throw the key error. *)
Theorem predefined_keys_are_checked {Req S : Type} {ops : Store.Ops S}
    (self : RateLimiter.t Req S) (ctx : RateLimiter.CheckOptions Req) (algoNow now : Q)
    (generator : KeyGenerators.Request → option string → string)
    (req : KeyGenerators.Request) (route : option string) :
  In generator KeyGenerators.all →
  generator req route ≠ ""
  ∧ ∃ d, fst (RateLimiter.check self (generator req route) ctx algoNow now) = Ok d.
Proof.
  intros Hgenerator.
  assert (Hkey : generator req route ≠ "").
  { assert (Hip : KeyGenerators.byIp req route ≠ "").
    { unfold KeyGenerators.byIp. by do 2 apply orElse_nonempty. }
    cbn in Hgenerator.
    destruct Hgenerator as [<-|[<-|[<-|[<-|[<-|[]]]]]]; try exact Hip; try discriminate.
    unfold KeyGenerators.routeAndIp. by apply append_nonempty, orElse_nonempty. }
  split; [exact Hkey|]. by apply check_returns.
Qed.

Lemma predefined_keys_are_checked_witness :
  KeyGenerators.byIp (KeyGenerators.mkRequest (Some "") None None) None = "unknown"
  ∧ ∃ d,
      fst (RateLimiter.check Examples.sliding
             (KeyGenerators.byIp (KeyGenerators.mkRequest (Some "") None None) None)
             RateLimiter.noOptions 1000 1000) = Ok d.
Proof.
  split; [reflexivity|].
  apply (predefined_keys_are_checked Examples.sliding RateLimiter.noOptions 1000 1000
           KeyGenerators.byIp (KeyGenerators.mkRequest (Some "") None None) None).
  left. reflexivity.
Defined.

(** ** The middleware *)

Lemma setHeaders_keeps_answer {Req : Type} (r : option Middleware.Response)
    (result : RateLimiter.RateLimitResult Req) :
  Middleware.status <$> Middleware._setHeaders r result = Middleware.status <$> r
  ∧ Middleware.json <$> Middleware._setHeaders r result = Middleware.json <$> r
  ∧ Middleware.hasSetHeader <$> Middleware._setHeaders r result
    = Middleware.hasSetHeader <$> r.
Proof.
  destruct r as [r|]; [|done]. unfold Middleware._setHeaders.
  destruct (Middleware.hasSetHeader r) eqn:Hset; cbn; [|by rewrite Hset].
  by destruct (RateLimiter.allowed result).
Qed.





(** X28. With the default handler the middleware calls [next] exactly
    once, whatever the request, the options, the store and the clock, and
    also when [skip], the key generator, the quota function or the store
    throws.  It passes an error to [next] only together with the answer
    429; when it passes none, the status and the body of the response are
    as they were. *)
Theorem middleware_calls_next_once {Req S : Type} {ops : Store.Ops S}
    (self : RateLimiter.t Req S) (mw : Middleware.Options Req) (request : Req)
    (x : Middleware.Exchange) (algoNow now : Q) :
  Middleware.handler mw = None →
  let x' := fst (Middleware.middleware self mw request x algoNow now) in
  ∃ error,
    Middleware.next x' = (λ calls, calls ++ [error]) <$> Middleware.next x
    ∧ (error = None →
       Middleware.status <$> Middleware.res x' = Middleware.status <$> Middleware.res x
       ∧ Middleware.json <$> Middleware.res x' = Middleware.json <$> Middleware.res x)
    ∧ (error ≠ None →
       error = Some Middleware.tooMany
       ∧ Middleware.status <$> Middleware.res x'
         = (λ _, Some 429%Z) <$> Middleware.res x).
Proof.
  intros Hhandler x'. subst x'. unfold Middleware.middleware.
  assert (Hpass : ∀ self' : RateLimiter.t Req S,
            ∃ error,
              Middleware.next (fst (Middleware.callNext None x, self'))
              = (λ calls, calls ++ [error]) <$> Middleware.next x
              ∧ (error = None →
                 Middleware.status <$> Middleware.res (fst (Middleware.callNext None x, self'))
                 = Middleware.status <$> Middleware.res x
                 ∧ Middleware.json <$> Middleware.res (fst (Middleware.callNext None x, self'))
                   = Middleware.json <$> Middleware.res x)
              ∧ (error ≠ None →
                 error = Some Middleware.tooMany
                 ∧ Middleware.status
                     <$> Middleware.res (fst (Middleware.callNext None x, self'))
                   = (λ _, Some 429%Z) <$> Middleware.res x)).
  { intros self'. exists None. by repeat split. }
  destruct (Middleware.skip mw request) as [[|]|e]; [apply Hpass| |apply Hpass].
  destruct (Middleware.keyGenerator mw request) as [key|e]; [|apply Hpass].
  destruct (RateLimiter.check self key _ algoNow now) as [[d|e] self']; [|apply Hpass].
  rewrite Hhandler.
  assert (Hsame : Middleware.status
                    <$> Middleware.res
                          (if Middleware.headers mw
                           then Middleware.mkExchange
                                  (Middleware._setHeaders (Middleware.res x) d)
                                  (Middleware.next x)
                           else x)
                  = Middleware.status <$> Middleware.res x
                  ∧ Middleware.json
                      <$> Middleware.res
                            (if Middleware.headers mw
                             then Middleware.mkExchange
                                    (Middleware._setHeaders (Middleware.res x) d)
                                    (Middleware.next x)
                             else x)
                    = Middleware.json <$> Middleware.res x
                  ∧ Middleware.next
                      (if Middleware.headers mw
                       then Middleware.mkExchange
                              (Middleware._setHeaders (Middleware.res x) d)
                              (Middleware.next x)
                       else x)
                    = Middleware.next x).
  { destruct (Middleware.headers mw); [|done]. cbn.
    destruct (setHeaders_keeps_answer (Middleware.res x) d) as (Hstatus & Hjson & _).
    done. }
  destruct Hsame as (Hstatus & Hjson & Hnext).
  set (x1 := if Middleware.headers mw then _ else x) in *. clearbody x1.
  destruct (RateLimiter.allowed d).
  - exists None. cbn. rewrite Hnext. by repeat split.
  - exists (Some Middleware.tooMany). cbn. rewrite Hnext. split; [reflexivity|].
    split; [discriminate|]. intros _. split; [reflexivity|].
    destruct (Middleware.res x1), (Middleware.res x); done.
Qed.

Lemma middleware_calls_next_once_witness :
  ∃ error,
    Middleware.next
      (fst (Middleware.middleware Scenarios.web Scenarios.webOptions Scenarios.anonymous
              Scenarios.exchange 1000 1000))
    = Some [error].
Proof.
  destruct (middleware_calls_next_once Scenarios.web Scenarios.webOptions Scenarios.anonymous
              Scenarios.exchange 1000 1000 eq_refl) as (error & Hnext & _).
  exists error. exact Hnext.
Defined.

(** X29. What the middleware lets through without counting: when [skip]
    says so or throws, and when the key generator throws or returns the
    empty string, [next()] is called without an error, the response gets
    no header, and the limiter and its store are as before. *)
Theorem middleware_lets_through_uncounted {Req S : Type} {ops : Store.Ops S}
    (self : RateLimiter.t Req S) (mw : Middleware.Options Req) (request : Req)
    (x : Middleware.Exchange) (algoNow now : Q) :
  Middleware.skip mw request = Ok true
  ∨ (∃ e, Middleware.skip mw request = Throw e)
  ∨ (∃ e, Middleware.keyGenerator mw request = Throw e)
  ∨ Middleware.keyGenerator mw request = Ok "" →
  Middleware.middleware self mw request x algoNow now
  = (Middleware.mkExchange (Middleware.res x)
       ((λ calls, calls ++ [None]) <$> Middleware.next x),
     self).
Proof.
  intros Hcase. unfold Middleware.middleware.
  destruct (Middleware.skip mw request) as [[|]|e0]; try reflexivity.
  destruct Hcase as [Hskip|[[e Hskip]|[[e Hkey]|Hkey]]]; try discriminate.
  - by rewrite Hkey.
  - by rewrite Hkey.
Qed.

Lemma middleware_lets_through_uncounted_witness :
  Middleware.middleware Scenarios.webUsed
    (Middleware.mkOptions (λ _, Ok "") (λ _, Ok false) None true)
    Scenarios.anonymous Scenarios.exchange 1001 1001
  = (Middleware.mkExchange (Middleware.res Scenarios.exchange) (Some [None]),
     Scenarios.webUsed).
Proof.
  apply (middleware_lets_through_uncounted Scenarios.webUsed
           (Middleware.mkOptions (λ _, Ok "") (λ _, Ok false) None true)
           Scenarios.anonymous Scenarios.exchange 1001 1001).
  right. right. right. reflexivity.
Defined.

(** ** Retrying a denied request under the sliding window *)

Lemma sliding_check_oldest (key : string) (options : Algorithm.Options) (now : Q)
    (s : MemoryStore.t) (o : Q) (rest : list Q) :
  0 < Algorithm.windowMs options →
  0 < o →
  Sliding.retained (Sliding.stored s key) (Algorithm.windowMs options) now = o :: rest →
  ∃ r,
    fst (SlidingWindow.check key options now s) = Ok r
    ∧ Algorithm.count r == JS.length (o :: rest) + 1
    ∧ Algorithm.resetTime r = Num (o + Algorithm.windowMs options).
Proof.
  intros HW Ho.
  unfold SlidingWindow.check, Sliding.stored, Sliding.retained, mbind, M_bind.
  cbn [Store.get Store.set Store.increment MemoryStore.ops MemoryStore.get].
  destruct (MemoryStore.store s !! key) as [data|]; cbn [option_bind]; [|discriminate].
  destruct (Data.requests data) as [requests|]; cbn; [|discriminate].
  intros ->. cbn. rewrite (nonzero_pos o Ho). eexists. split; [reflexivity|].
  split; reflexivity.
Qed.

(** What [check] makes of the result of the sliding window. *)
Lemma limiter_sliding_check {Req : Type} (self : RateLimiter.t Req MemoryStore.t)
    (key : string) (ctx : RateLimiter.CheckOptions Req) (algoNow now max : Q)
    (r : Algorithm.Result) :
  key ≠ "" →
  RateLimiter.algorithm_ self = SlidingWindowAlgorithm →
  RateLimiter.max (RateLimiter.options self) = RateLimiter.MaxNumber max →
  fst (SlidingWindow.check key (RateLimiter.algorithmOptions self max ctx) algoNow
         (RateLimiter.store self)) = Ok r →
  ∃ d,
    RateLimiter.check self key ctx algoNow now
    = (Ok d,
       RateLimiter.mk (RateLimiter.options self)
         (snd (SlidingWindow.check key (RateLimiter.algorithmOptions self max ctx) algoNow
                 (RateLimiter.store self)))
         SlidingWindowAlgorithm)
    ∧ RateLimiter.allowed d = Qle_bool (Algorithm.count r) max
    ∧ RateLimiter.current d = Algorithm.count r
    ∧ RateLimiter.resetTime d = Algorithm.resetTime r.
Proof.
  intros Hkey Halgo Hmax Hr. unfold RateLimiter.check, RateLimiter.resolveMax.
  destruct (String.eqb_spec key "") as [->|_]; [done|].
  rewrite Hmax, Halgo. cbn [Algorithms.check].
  destruct (SlidingWindow.check key _ algoNow (RateLimiter.store self)) as [r0 s'].
  cbn in Hr. subst r0. eexists. split; [reflexivity|]. by repeat split.
Qed.

(** X30. Under the sliding window a denied request is recorded like an
    allowed one, so waiting for the [resetTime] of the denial is not
    enough: on the in-memory store with a fixed quota, when the oldest
    timestamp of the window is older than the others and than [now], the
    same request made again at [resetTime] gets the same [current] and is
    denied again. *)
Theorem sliding_window_retry_is_denied {Req : Type} (self : RateLimiter.t Req MemoryStore.t)
    (key : string) (ctx : RateLimiter.CheckOptions Req) (now max o : Q) (rest : list Q)
    (d : RateLimiter.RateLimitResult Req) :
  let W := default (RateLimiter.windowMs (RateLimiter.options self))
             (RateLimiter.o_windowMs ctx) in
  RateLimiter.algorithm_ self = SlidingWindowAlgorithm →
  RateLimiter.max (RateLimiter.options self) = RateLimiter.MaxNumber max →
  0 < W → 0 < o → o < now →
  Sliding.retained (Sliding.stored (RateLimiter.store self) key) W now = o :: rest →
  List.Forall (λ t, o < t) rest →
  fst (RateLimiter.check self key ctx now now) = Ok d →
  RateLimiter.allowed d = false →
  ∃ d',
    RateLimiter.resetTime d = Num (o + W)
    ∧ fst (RateLimiter.check (snd (RateLimiter.check self key ctx now now)) key ctx
             (o + W) (o + W)) = Ok d'
    ∧ RateLimiter.current d' == RateLimiter.current d
    ∧ RateLimiter.allowed d' = false.
Proof.
  intros W Halgo Hmax HW Ho Hnow Hretained Hrest Hd Hdenied.
  assert (Hkey : key ≠ "").
  { intros ->. discriminate Hd. }
  set (options := RateLimiter.algorithmOptions self max ctx).
  assert (Hpos : 0 < now) by lra.
  destruct (sliding_check_oldest key options now (RateLimiter.store self) o rest HW Ho
              Hretained) as (r & Hr & Hcount & Hreset).
  destruct (limiter_sliding_check self key ctx now now max r Hkey Halgo Hmax Hr)
    as (d0 & Hcheck & Hallowed & Hcurrent & Hresult).
  rewrite Hcheck in Hd |- *. cbn [fst snd] in *. injection Hd as ->.
  set (s1 := snd (SlidingWindow.check key options now (RateLimiter.store self))) in *.
  assert (Hstored : Sliding.stored s1 key = (o :: rest) ++ [now]).
  { subst s1. rewrite (stored_after_check key options now _ HW Hpos).
    change (Algorithm.windowMs options) with W. by rewrite Hretained. }
  assert (Hlater : Sliding.retained (Sliding.stored s1 key) W (o + W) = rest ++ [now]).
  { rewrite Hstored. unfold Sliding.retained. cbn [app List.filter].
    rewrite (proj2 (ltb_ge (o + W - W) o)) by lra.
    rewrite List.filter_app. cbn [List.filter].
    rewrite (proj2 (ltb_lt (o + W - W) now)) by lra. f_equal.
    clear -Hrest. induction Hrest as [|t rest Ht _ IH]; [reflexivity|].
    cbn [List.filter]. rewrite (proj2 (ltb_lt (o + W - W) t)) by lra. by rewrite IH. }
  assert (Hlate : 0 < o + W) by lra.
  destruct (sliding_check_count key options (o + W) s1 HW Hlate) as (r' & Hr' & Hcount').
  change (Algorithm.windowMs options) with W in Hcount'. rewrite Hlater in Hcount'.
  destruct (limiter_sliding_check
              (RateLimiter.mk (RateLimiter.options self) s1 SlidingWindowAlgorithm)
              key ctx (o + W) (o + W) max r' Hkey eq_refl Hmax Hr')
    as (d' & Hcheck' & Hallowed' & Hcurrent' & _).
  exists d'. split; [by rewrite Hresult, Hreset|].
  change (snd (SlidingWindow.check key (RateLimiter.algorithmOptions self max ctx) now
                 (RateLimiter.store self))) with s1.
  rewrite Hcheck'.
  split; [reflexivity|].
  assert (Hsame : Algorithm.count r' == Algorithm.count r).
  { rewrite Hcount', Hcount, length_snoc. unfold JS.length. cbn [List.length].
    rewrite Nat2Z.inj_succ, <- Z.add_1_r, inject_Z_plus. reflexivity. }
  split; [by rewrite Hcurrent', Hcurrent|].
  rewrite Hallowed'. rewrite Hallowed in Hdenied.
  apply leb_gt. apply leb_gt in Hdenied. by rewrite Hsame.
Qed.

Lemma sliding_window_retry_is_denied_witness :
  ∃ d d',
    fst (RateLimiter.check Scenarios.webUsed "unknown" RateLimiter.noOptions 1001 1001) = Ok d
    ∧ RateLimiter.allowed d = false
    ∧ RateLimiter.resetTime d = Num (1000 + 60000)
    ∧ fst (RateLimiter.check
             (snd (RateLimiter.check Scenarios.webUsed "unknown" RateLimiter.noOptions
                     1001 1001))
             "unknown" RateLimiter.noOptions (1000 + 60000) (1000 + 60000)) = Ok d'
    ∧ RateLimiter.allowed d' = false.
Proof.
  assert (Hd : ∃ d,
            fst (RateLimiter.check Scenarios.webUsed "unknown" RateLimiter.noOptions
                   1001 1001) = Ok d
            ∧ RateLimiter.allowed d = false).
  { eexists. split; vm_compute; reflexivity. }
  destruct Hd as (d & Hd & Hdenied).
  destruct (sliding_window_retry_is_denied Scenarios.webUsed "unknown" RateLimiter.noOptions
              1001 1 1000 [] d) as (d' & Hreset & Hd' & _ & Hdenied').
  - reflexivity.
  - reflexivity.
  - reflexivity.
  - reflexivity.
  - reflexivity.
  - vm_compute. reflexivity.
  - constructor.
  - exact Hd.
  - exact Hdenied.
  - exists d, d'. repeat split; assumption.
Defined.
